(** * UI5 Inspector: the Prompt API channel between the DevTools panel and
  the background script

A shallow embedding of

- [app/scripts/background/main.js], the channel server: the handlers of
  the six request types, the module variables [promptAPISession] and
  [promptAPIController], and the [onMessage] dispatch;
- [app/scripts/modules/ai/AISessionManager.js], the channel client:
  the handler registry, [createSession], [promptStreaming] with its
  asynchronous generator, and [getUsageInfo].

Both scripts run on a single-threaded event loop.  A handler runs without
interruption up to its next [await]; the model has one transition per
event-loop turn (an incoming port message, the settling of a provider
promise, a consumer pulling from the stream), and each transition runs
the code up to the next suspension point. *)

From Stdlib Require Import ZArith Bool List String.
From Stdlib Require Import Floats.PrimFloat Floats.SpecFloat Floats.FloatOps.
From Stdlib Require Numbers.Cyclic.Int63.Uint63.
From stdpp Require Import base option list strings gmap.

(** ** JavaScript values *)

Module Js.

#[local] Set Warnings "-register-all".

(** The values that travel in message payloads.  Numbers are IEEE 754
doubles, as in the language. *)
Inductive value : Type :=
| VUndefined
| VNull
| VBool (b : bool)
| VNumber (x : float)
| VString (s : string)
| VObject (props : list (string * value)).

(** ToBoolean on numbers: [+0], [-0] and [NaN] are falsy. *)
Definition number_truthy (x : float) : bool :=
  negb (PrimFloat.is_zero x || PrimFloat.is_nan x).

(** ToBoolean. *)
Definition truthy (v : value) : bool :=
  match v with
  | VUndefined | VNull => false
  | VBool b => b
  | VNumber x => number_truthy x
  | VString s => negb (String.eqb s EmptyString)
  | VObject _ => true
  end.

Fixpoint assoc (k : string) (props : list (string * value)) : value :=
  match props with
  | [] => VUndefined
  | (k', v) :: rest => if String.eqb k k' then v else assoc k rest
  end.

(** Property read [v.k] on a value that is neither [null] nor [undefined]:
own properties of an object literal; primitives have no such
property. *)
Definition get (v : value) (k : string) : value :=
  match v with
  | VObject props => assoc k props
  | _ => VUndefined
  end.

(** [x || d] where [x] is a numeric field that may be absent
([undefined]). *)
Definition or_number (x : option float) (d : float) : float :=
  match x with
  | Some f => if number_truthy f then f else d
  | None => d
  end.

(** The double with the (small) integer value [z]. *)
Definition of_Z (z : Z) : float :=
  if (z <? 0)%Z then (- of_uint63 (Uint63.of_Z (- z)))%float
  else of_uint63 (Uint63.of_Z z).

(** [Math.round]: the integer nearest to [x], ties towards +infinity;
zeros, infinities, NaN and integral values are returned unchanged, and
a negative [x] that rounds to zero gives [-0].  For a finite
[x = (-1)^s * m * 2^e] with [e < 0] the result is the exact
[floor (x + 1/2)], whose magnitude is below [2^53]. *)
Definition Math_round (x : float) : float :=
  match Prim2SF x with
  | S754_finite s m e =>
      if (0 <=? e)%Z then x
      else
        let d := (2 ^ (- e))%Z in
        let n := if s then Z.neg m else Z.pos m in
        let r := ((2 * n + d) / (2 * d))%Z in
        if s then (- of_uint63 (Uint63.of_Z (- r)))%float
        else of_uint63 (Uint63.of_Z r)
  | _ => x
  end.

End Js.

(** ** Messages on the port *)

Module Protocol.

(** A conversation turn [{ role, content }]. *)
Record turn := { role : string; content : string }.

(** A request [{ type, data }]; [data.messages] is read by
[prompt-streaming] only. *)
Record request := { type : string; messages : list turn }.

(** The [data] of a [usage-info] message. *)
Record usage := {
  inputUsage : float;
  inputQuota : float;
  percentUsed : float
}.

(** The messages the background script posts, by [type]. *)
Inductive response :=
| availability (status message : string)
| download_progress (progress : float)
| download_complete
| session_created
| chunk (content : Js.value)
| complete
| usage_info (data : option usage)
| session_destroyed
| error (message : string).

(** The [type] field of a posted message. *)
Definition response_type (m : response) : string :=
  match m with
  | availability _ _ => "availability"
  | download_progress _ => "download-progress"
  | download_complete => "download-complete"
  | session_created => "session-created"
  | chunk _ => "chunk"
  | complete => "complete"
  | usage_info _ => "usage-info"
  | session_destroyed => "session-destroyed"
  | error _ => "error"
  end.

End Protocol.

(** ** The background script: [app/scripts/background/main.js] *)

Module Background.
Import Protocol.

(** A model-session handle returned by [LanguageModel.create].  The code
calls [destroy()] on it and reads [inputUsage] and [inputQuota], which
may be absent. *)
Record session := {
  destroyed : bool;
  session_inputUsage : option float;
  session_inputQuota : option float
}.

(** What the provider's promises and the stream iterator settle with. *)
Inductive provider_value :=
| PAvailability (a : string)                  (* LanguageModel.availability() *)
| PSession (usage quota : option float)       (* LanguageModel.create(...) *)
| PStream                                     (* session.promptStreaming(...) *)
| PFragment (chunk : Js.value)                (* next(): { value, done: false } *)
| PEnd.                                       (* next(): { done: true } *)

Inductive settled :=
| Fulfilled (v : provider_value)
| Rejected (message : string).    (* an Error with this [message] *)

(** A suspended invocation of an async handler: the [await] it is parked
at, the [port] it was called with and, for the handlers that make one,
the abort controller whose signal was handed to the provider. *)
Inductive task :=
| CheckAvailability_availability (port : nat)              (* line 213 *)
| DownloadModel_availability (port : nat) (signal : nat)   (* line 269 -> 176 *)
| DownloadModel_create (port : nat) (signal : nat)         (* line 269 -> 195 *)
| CreateSession_availability (port : nat) (signal : nat)   (* line 312 -> 176 *)
| CreateSession_create (port : nat) (signal : nat)         (* line 312 -> 195 *)
| PromptStreaming_stream (port : nat) (signal : nat)       (* line 346 *)
| PromptStreaming_next (port : nat) (signal : nat)         (* line 351 *)
| Finished.

(** The state of the script: the two module variables, the objects they
can refer to, and the suspended handlers. *)
Record server := {
  LanguageModel_in_self : bool;        (* isPromptAPISupported() *)
  promptAPISession : option nat;       (* null, or a handle in [sessions] *)
  promptAPIController : option nat;    (* null, or a controller in [controllers] *)
  sessions : list session;             (* every handle created so far *)
  controllers : list bool;             (* every AbortController: signal.aborted *)
  tasks : list task
}.

Definition init (supported : bool) : server :=
  {| LanguageModel_in_self := supported;
     promptAPISession := None; promptAPIController := None;
     sessions := []; controllers := []; tasks := [] |}.

(** A [port.postMessage(m)]. *)
Definition post : Type := nat * response.

Implicit Types (σ : server) (port : nat).

Definition set_session (v : option nat) σ : server :=
  {| LanguageModel_in_self := LanguageModel_in_self σ;
     promptAPISession := v; promptAPIController := promptAPIController σ;
     sessions := sessions σ; controllers := controllers σ; tasks := tasks σ |}.

Definition set_controller (v : option nat) σ : server :=
  {| LanguageModel_in_self := LanguageModel_in_self σ;
     promptAPISession := promptAPISession σ; promptAPIController := v;
     sessions := sessions σ; controllers := controllers σ; tasks := tasks σ |}.

Definition set_sessions (l : list session) σ : server :=
  {| LanguageModel_in_self := LanguageModel_in_self σ;
     promptAPISession := promptAPISession σ;
     promptAPIController := promptAPIController σ;
     sessions := l; controllers := controllers σ; tasks := tasks σ |}.

Definition set_controllers (l : list bool) σ : server :=
  {| LanguageModel_in_self := LanguageModel_in_self σ;
     promptAPISession := promptAPISession σ;
     promptAPIController := promptAPIController σ;
     sessions := sessions σ; controllers := l; tasks := tasks σ |}.

Definition set_tasks (l : list task) σ : server :=
  {| LanguageModel_in_self := LanguageModel_in_self σ;
     promptAPISession := promptAPISession σ;
     promptAPIController := promptAPIController σ;
     sessions := sessions σ; controllers := controllers σ; tasks := l |}.

(** [s.destroy()] *)
Definition destroy_handle (h : session) : session :=
  {| destroyed := true;
     session_inputUsage := session_inputUsage h;
     session_inputQuota := session_inputQuota h |}.

Definition destroy (s : nat) σ : server :=
  set_sessions (alter destroy_handle s (sessions σ)) σ.

(** [c.abort()] *)
Definition abort (c : nat) σ : server :=
  set_controllers (<[c := true]> (controllers σ)) σ.

(** [c.signal.aborted] *)
Definition aborted σ (c : nat) : bool :=
  default false (controllers σ !! c).

(** [new AbortController()] *)
Definition new_AbortController σ : server * nat :=
  (set_controllers (controllers σ ++ [false]) σ, length (controllers σ)).

(** The handle a fulfilled [LanguageModel.create] delivers. *)
Definition new_session (usage quota : option float) σ : server * nat :=
  (set_sessions
     (sessions σ ++ [{| destroyed := false; session_inputUsage := usage;
                        session_inputQuota := quota |}]) σ,
   length (sessions σ)).

(** The handler parks at an [await]. *)
Definition suspend (t : task) σ : server := set_tasks (tasks σ ++ [t]) σ.

(** Task [i] parks again, or finishes. *)
Definition park (i : nat) (t : task) σ : server :=
  set_tasks (<[i := t]> (tasks σ)) σ.

(** *** handleCheckAvailability *)

(** The one-character string holding a double quote. *)
Definition dquote : string := String (Ascii.ascii_of_nat 34) EmptyString.

(** Lines 215-232: [status] and [message] for the provider's answer. *)
Definition availability_status (a : string) : string * string :=
  if String.eqb a "available" then
    ("ready", "Gemini Nano is ready to use")
  else if String.eqb a "downloadable" then
    ("needs-download", "Gemini Nano needs to be downloaded (~22GB)")
  else if String.eqb a "downloading" then
    ("downloading", "Gemini Nano is currently downloading")
  else if String.eqb a "unavailable" then
    ("unavailable", "Gemini Nano is not available on this device")
  else
    ("unavailable",
     "Gemini Nano status unknown. Availability returned: "
       +:+ dquote +:+ a +:+ dquote).

Definition handleCheckAvailability port σ : server * list post :=
  if negb (LanguageModel_in_self σ) then
    (σ, [(port, availability "unavailable"
                  "Prompt API not supported - LanguageModel not found in self")])
  else
    (suspend (CheckAvailability_availability port) σ, []).

(** Lines 215-246, once [availability()] has settled. *)
Definition handleCheckAvailability_settled (i port : nat) (r : settled) σ
  : option (server * list post) :=
  match r with
  | Fulfilled (PAvailability a) =>
      let '(status, message) := availability_status a in
      Some (park i Finished σ, [(port, availability status message)])
  | Rejected msg =>
      Some (park i Finished σ, [(port, availability "error" ("Error: " +:+ msg))])
  | Fulfilled _ => None
  end.

(** *** initPromptAPISession

The function has two suspension points.  Each of the two definitions
gives what happens when the awaited promise settles: the [message] of
the Error that leaves the function, or its normal continuation. *)

(** Lines 176-180. *)
Definition initPromptAPISession_availability (r : settled)
  : option (string + unit) :=
  match r with
  | Fulfilled (PAvailability a) =>
      if String.eqb a "unavailable"
      then Some (inl "AI Model is not available on this device.")
      else Some (inr ())
  | Rejected msg => Some (inl msg)
  | Fulfilled _ => None
  end.

(** Line 195. *)
Definition initPromptAPISession_create (r : settled)
  : option (string + option float * option float) :=
  match r with
  | Fulfilled (PSession usage quota) => Some (inr (usage, quota))
  | Rejected msg => Some (inl msg)
  | Fulfilled _ => None
  end.

(** *** handleDownloadModel *)

Definition handleDownloadModel port σ : server * list post :=
  if negb (LanguageModel_in_self σ) then
    (σ, [(port, error "Prompt API not supported")])
  else
    (* Abort any existing operation *)
    let σ := match promptAPIController σ with
             | Some c => abort c σ
             | None => σ
             end in
    let '(σ, c) := new_AbortController σ in
    let σ := set_controller (Some c) σ in
    (suspend (DownloadModel_availability port c) σ, []).

Definition handleDownloadModel_availability (i port c : nat) (r : settled) σ
  : option (server * list post) :=
  match initPromptAPISession_availability r with
  | Some (inr _) => Some (park i (DownloadModel_create port c) σ, [])
  | Some (inl msg) =>
      (* catch, then finally *)
      Some (set_controller None (park i Finished σ), [(port, error msg)])
  | None => None
  end.

Definition handleDownloadModel_create (i port : nat) (r : settled) σ
  : option (server * list post) :=
  match initPromptAPISession_create r with
  | Some (inr (usage, quota)) =>
      let '(σ, s) := new_session usage quota σ in
      let σ := set_session (Some s) σ in
      Some (set_controller None (park i Finished σ), [(port, download_complete)])
  | Some (inl msg) =>
      Some (set_controller None (park i Finished σ), [(port, error msg)])
  | None => None
  end.

(** The [onProgress] callback of line 270, called by the monitor of lines
188-192 with [e.loaded || 0]. *)
Definition onProgress port (loaded : option float) : list post :=
  [(port, download_progress (Js.or_number loaded 0))].

(** *** handleCreateSession *)

Definition handleCreateSession port σ : server * list post :=
  if negb (LanguageModel_in_self σ) then
    (σ, [(port, error "Prompt API not supported")])
  else
    (* Destroy existing session if any *)
    let σ := match promptAPISession σ with
             | Some s => set_session None (destroy s σ)
             | None => σ
             end in
    let '(σ, c) := new_AbortController σ in
    (suspend (CreateSession_availability port c) σ, []).

Definition handleCreateSession_availability (i port c : nat) (r : settled) σ
  : option (server * list post) :=
  match initPromptAPISession_availability r with
  | Some (inr _) => Some (park i (CreateSession_create port c) σ, [])
  | Some (inl msg) => Some (park i Finished σ, [(port, error msg)])
  | None => None
  end.

Definition handleCreateSession_create (i port : nat) (r : settled) σ
  : option (server * list post) :=
  match initPromptAPISession_create r with
  | Some (inr (usage, quota)) =>
      let '(σ, s) := new_session usage quota σ in
      let σ := set_session (Some s) σ in
      Some (park i Finished σ, [(port, session_created)])
  | Some (inl msg) => Some (park i Finished σ, [(port, error msg)])
  | None => None
  end.

(** *** handlePromptStreaming *)

Definition handlePromptStreaming port σ : server * list post :=
  match promptAPISession σ with
  | None => (σ, [(port, error "No active session")])
  | Some _ =>
      (* Abort any existing operation *)
      let σ := match promptAPIController σ with
               | Some c => abort c σ
               | None => σ
               end in
      let '(σ, c) := new_AbortController σ in
      let σ := set_controller (Some c) σ in
      (suspend (PromptStreaming_stream port c) σ, [])
  end.

(** The [message] of the TypeError that reading [.signal] of [null]
throws. *)
Definition TypeError_signal : string :=
  "Cannot read properties of null (reading 'signal')".

(** [promptAPIController.signal.aborted], read from the module variable
at the time of the test; [None] is the TypeError on [null]. *)
Definition promptAPIController_signal_aborted σ : option bool :=
  c ← promptAPIController σ; Some (aborted σ c).

(** [catch] of lines 367-372 followed by [finally]. *)
Definition handlePromptStreaming_catch (i port : nat) (msg : string) σ
  : server * list post :=
  (set_controller None (park i Finished σ), [(port, error msg)]).

(** Lines 362-375: the code after the loop. *)
Definition handlePromptStreaming_after_loop (i port : nat) σ
  : server * list post :=
  match promptAPIController_signal_aborted σ with
  | None => handlePromptStreaming_catch i port TypeError_signal σ
  | Some true => (set_controller None (park i Finished σ), [])
  | Some false => (set_controller None (park i Finished σ), [(port, complete)])
  end.

(** Line 346, once the call has produced the stream or failed. *)
Definition handlePromptStreaming_stream (i port c : nat) (r : settled) σ
  : option (server * list post) :=
  match r with
  | Fulfilled PStream => Some (park i (PromptStreaming_next port c) σ, [])
  | Rejected msg => Some (handlePromptStreaming_catch i port msg σ)
  | Fulfilled _ => None
  end.

(** Lines 351-360, once the iterator's [next()] has settled.  A [break]
goes on to the code after the loop in the same turn (closing the
iterator is not modelled as a suspension). *)
Definition handlePromptStreaming_next (i port : nat) (r : settled) σ
  : option (server * list post) :=
  match r with
  | Fulfilled (PFragment v) =>
      match promptAPIController_signal_aborted σ with
      | None => Some (handlePromptStreaming_catch i port TypeError_signal σ)
      | Some true => Some (handlePromptStreaming_after_loop i port σ)
      | Some false => Some (σ, [(port, chunk v)])
      end
  | Fulfilled PEnd => Some (handlePromptStreaming_after_loop i port σ)
  | Rejected msg => Some (handlePromptStreaming_catch i port msg σ)
  | Fulfilled _ => None
  end.

(** *** handleGetUsageInfo *)

Definition handleGetUsageInfo port σ : server * list post :=
  match promptAPISession σ with
  | None => (σ, [(port, usage_info None)])
  | Some s =>
      let inputUsage :=
        Js.or_number (sessions σ !! s ≫= session_inputUsage) 0 in
      let inputQuota :=
        Js.or_number (sessions σ !! s ≫= session_inputQuota) 4096 in
      let percentUsed := Js.Math_round ((inputUsage / inputQuota) * 100)%float in
      (σ, [(port, usage_info (Some {| inputUsage := inputUsage;
                                      inputQuota := inputQuota;
                                      percentUsed := percentUsed |}))])
  end.

(** *** handleDestroySession *)

Definition handleDestroySession port σ : server * list post :=
  let σ := match promptAPISession σ with
           | Some s => set_session None (destroy s σ)
           | None => σ
           end in
  let σ := match promptAPIController σ with
           | Some c => set_controller None (abort c σ)
           | None => σ
           end in
  (σ, [(port, session_destroyed)]).

(** *** The listener of lines 426-447 *)

Definition onMessage port (message : request) σ : server * list post :=
  let t := type message in
  if String.eqb t "check-availability" then handleCheckAvailability port σ
  else if String.eqb t "download-model" then handleDownloadModel port σ
  else if String.eqb t "create-session" then handleCreateSession port σ
  else if String.eqb t "prompt-streaming" then handlePromptStreaming port σ
  else if String.eqb t "get-usage-info" then handleGetUsageInfo port σ
  else if String.eqb t "destroy-session" then handleDestroySession port σ
  else (σ, []).

(** *** The event loop *)

Inductive event :=
| Message (port : nat) (message : request)     (* port.onMessage fires *)
| Settle (i : nat) (r : settled)                 (* the promise task [i] awaits settles *)
| DownloadProgress (i : nat) (loaded : option float).
                                                 (* 'downloadprogress' during task [i]'s create *)

(** Task [i] resumes with [r]. *)
Definition resume (i : nat) (r : settled) σ : option (server * list post) :=
  match tasks σ !! i with
  | Some (CheckAvailability_availability port) =>
      handleCheckAvailability_settled i port r σ
  | Some (DownloadModel_availability port c) =>
      handleDownloadModel_availability i port c r σ
  | Some (DownloadModel_create port _) => handleDownloadModel_create i port r σ
  | Some (CreateSession_availability port c) =>
      handleCreateSession_availability i port c r σ
  | Some (CreateSession_create port _) => handleCreateSession_create i port r σ
  | Some (PromptStreaming_stream port c) =>
      handlePromptStreaming_stream i port c r σ
  | Some (PromptStreaming_next port _) => handlePromptStreaming_next i port r σ
  | Some Finished | None => None
  end.

(** One turn of the event loop: the new state and the messages posted
during the turn; [None] when the event cannot occur in [σ]. *)
Definition step σ (e : event) : option (server * list post) :=
  match e with
  | Message port message => Some (onMessage port message σ)
  | Settle i r => resume i r σ
  | DownloadProgress i loaded =>
      match tasks σ !! i with
      | Some (DownloadModel_create port _) => Some (σ, onProgress port loaded)
      | Some (CreateSession_create _ _) => Some (σ, [])
      | _ => None
      end
  end.

(** A sequence of turns, with everything posted, oldest first. *)
Fixpoint run σ (es : list event) : option (server * list post) :=
  match es with
  | [] => Some (σ, [])
  | e :: es =>
      '(σ', out) ← step σ e;
      '(σ'', out') ← run σ' es;
      Some (σ'', out ++ out')
  end.

Definition request_of (t : string) : request :=
  {| type := t; messages := [] |}.

(** *** What the properties speak of *)

(** The handles that were created and not destroyed. *)
Definition live_sessions σ : list nat :=
  List.filter
    (fun s => match sessions σ !! s with
              | Some h => negb (destroyed h)
              | None => false
              end)
    (seq 0 (length (sessions σ))).

(** The controller of a cancelable operation (download-model or
prompt-streaming) that has not ended. *)
Definition signal_of (t : task) : option nat :=
  match t with
  | DownloadModel_availability _ c | DownloadModel_create _ c
  | PromptStreaming_stream _ c | PromptStreaming_next _ c => Some c
  | _ => None
  end.

(** The controllers of the operations in flight that are not aborted. *)
Definition active_controllers σ : list nat :=
  List.filter (fun c => negb (aborted σ c)) (omap signal_of (tasks σ)).

(** The statuses an [availability] message can carry, and the answers of
the provider that lines 217-226 know. *)
Definition statuses : list string :=
  ["ready"; "needs-download"; "downloading"; "unavailable"; "error"].

Definition known_availability : list string :=
  ["available"; "downloadable"; "downloading"; "unavailable"].

(** How [availability()] settles: with an answer, or with an Error. *)
Definition availability_settles (o : string + string) : settled :=
  match o with
  | inl a => Fulfilled (PAvailability a)
  | inr msg => Rejected msg
  end.

(** *** Scenarios *)

(** A session is created over port 0. *)
Definition session_is_created : list event :=
  [Message 0 (request_of "create-session");
   Settle 0 (Fulfilled (PAvailability "available"));
   Settle 0 (Fulfilled (PSession (Some 0%float) (Some 4096%float)))].

(** ... then the model is downloaded. *)
Definition download_after_create : list event :=
  session_is_created ++
  [Message 0 (request_of "download-model");
   Settle 1 (Fulfilled (PAvailability "available"));
   Settle 1 (Fulfilled (PSession (Some 0%float) (Some 4096%float)))].

(** Two create-session requests, the second arriving before the provider
has answered the first. *)
Definition overlapping_create_sessions : list event :=
  [Message 0 (request_of "create-session");
   Message 0 (request_of "create-session");
   Settle 0 (Fulfilled (PAvailability "available"));
   Settle 1 (Fulfilled (PAvailability "available"));
   Settle 0 (Fulfilled (PSession (Some 0%float) (Some 4096%float)));
   Settle 1 (Fulfilled (PSession (Some 0%float) (Some 4096%float)))].

(** A prompt is streaming (task 1, controller 1) when a second prompt
arrives (task 2, controller 2). *)
Definition second_prompt_mid_stream : list event :=
  session_is_created ++
  [Message 0 (request_of "prompt-streaming");
   Settle 1 (Fulfilled PStream);
   Message 0 (request_of "prompt-streaming")].

(** ... the provider then fails the first, aborted stream, and a third
prompt arrives (task 3, controller 3). *)
Definition third_prompt_after_abort : list event :=
  second_prompt_mid_stream ++
  [Settle 1 (Rejected "The operation was aborted.");
   Message 0 (request_of "prompt-streaming")].

(** The state after [session_is_created]. *)
Definition one_session : server :=
  {| LanguageModel_in_self := true;
     promptAPISession := Some 0; promptAPIController := None;
     sessions := [{| destroyed := false;
                     session_inputUsage := Some 0%float;
                     session_inputQuota := Some 4096%float |}];
     controllers := [false]; tasks := [Finished] |}.

(** The states the script can be in. *)
Definition reachable σ : Prop :=
  ∃ supported es out, run (init supported) es = Some (σ, out).

(** [promptAPIController] is [null] or refers to a controller that is not
aborted. *)
Definition controller_fresh σ : Prop :=
  ∀ c, promptAPIController σ = Some c → controllers σ !! c = Some false.

(** The ways the provider can fail a create-session: [availability()]
rejects, or answers 'unavailable', or [create()] rejects.  The string
is the message of the Error that reaches the handler's [catch]. *)
Inductive create_failure : list settled -> string -> Prop :=
| availability_rejects msg :
    create_failure [Rejected msg] msg
| model_unavailable :
    create_failure [Fulfilled (PAvailability "unavailable")]
      "AI Model is not available on this device."
| create_rejects a msg :
    String.eqb a "unavailable" = false ->
    create_failure [Fulfilled (PAvailability a); Rejected msg] msg.

End Background.

(** ** The panel side: [app/scripts/modules/ai/AISessionManager.js] *)

Module AISessionManager.
Import Js.

(** *** The stream object of [promptStreaming] (lines 272-338)

[stream[Symbol.asyncIterator]] is an async generator function.  The
record holds the variables its closures share: [streamHandlers], the
generator's locals, and where the generator stands.  The consumer is a
[for await] loop: it creates one generator and has at most one
[next()] outstanding. *)

Inductive generator_state :=
| SuspendedStart      (* created, body not entered *)
| AwaitingChunk       (* parked at the [await new Promise] of line 319 *)
| SuspendedYield      (* parked at the [yield] of line 330 *)
| Completed.          (* returned or threw *)

(** What a [next()] of the consumer settled with. *)
Inductive iteration :=
| Yielded (fragment : value)
| Done
| Thrown (message : string).

Record stream := {
  streamHandlers : bool;        (* onChunk, onComplete, onError: set, or null *)
  chunkPromises : list value;   (* resolved promises, by their values *)
  resolveChunk : bool;          (* non-null *)
  rejectChunk : bool;           (* non-null *)
  isComplete : bool;
  error : option string;        (* null, or an Error with this message *)
  generator : generator_state;
  delivered : list iteration    (* oldest first *)
}.

(** The stream object as line 279 creates it. *)
Definition new_stream : stream :=
  {| streamHandlers := false; chunkPromises := []; resolveChunk := false;
     rejectChunk := false; isComplete := false; error := None;
     generator := SuspendedStart; delivered := [] |}.

Definition deliver (r : iteration) (g : generator_state) (s : stream) : stream :=
  {| streamHandlers := streamHandlers s; chunkPromises := chunkPromises s;
     resolveChunk := resolveChunk s; rejectChunk := rejectChunk s;
     isComplete := isComplete s; error := error s;
     generator := g; delivered := delivered s ++ [r] |}.

Definition set_chunkPromises (l : list value) (s : stream) : stream :=
  {| streamHandlers := streamHandlers s; chunkPromises := l;
     resolveChunk := resolveChunk s; rejectChunk := rejectChunk s;
     isComplete := isComplete s; error := error s;
     generator := generator s; delivered := delivered s |}.

(** How a pass through the loop of lines 314-332 ends. *)
Inductive loop_exit :=
| Parks                      (* line 319: nothing buffered *)
| Yields (chunk : value)     (* line 330 *)
| Leaves.                    (* the loop test fails, or [break] *)

(** The loop from its test, fed from the buffer.  The buffered promises
are resolved already, so awaiting one does not let another port
message in.  Returns the exit and what is left of the buffer. *)
Fixpoint loop (isComplete : bool) (error : option string)
    (chunkPromises : list value) : loop_exit * list value :=
  if negb (negb isComplete && negb (bool_decide (is_Some error)))
  then (Leaves, chunkPromises)
  else
    match chunkPromises with
    | [] => (Parks, [])
    | chunk :: rest =>
        if truthy chunk && truthy (get chunk "done") then (Leaves, rest)
        else if truthy chunk then (Yields chunk, rest)
        else loop isComplete error rest
    end.

(** Lines 334-336: after the loop. *)
Definition finish (s : stream) : stream :=
  match error s with
  | Some msg => deliver (Thrown msg) Completed s
  | None => deliver Done Completed s
  end.

(** The generator runs from the loop test to its next suspension. *)
Definition run_loop (s : stream) : stream :=
  match loop (isComplete s) (error s) (chunkPromises s) with
  | (Parks, rest) =>
      {| streamHandlers := streamHandlers s; chunkPromises := rest;
         resolveChunk := true; rejectChunk := true;
         isComplete := isComplete s; error := error s;
         generator := AwaitingChunk; delivered := delivered s |}
  | (Yields chunk, rest) =>
      deliver (Yielded chunk) SuspendedYield (set_chunkPromises rest s)
  | (Leaves, rest) => finish (set_chunkPromises rest s)
  end.

(** The consumer calls [next()]. *)
Definition next (s : stream) : option stream :=
  match generator s with
  | SuspendedStart =>
      (* lines 281-312, then the loop *)
      Some (run_loop
              {| streamHandlers := true; chunkPromises := [];
                 resolveChunk := false; rejectChunk := false;
                 isComplete := false; error := None;
                 generator := generator s; delivered := delivered s |})
  | SuspendedYield => Some (run_loop s)
  | Completed => Some (deliver Done Completed s)
  | AwaitingChunk => None
  end.

(** The promise of line 319 is fulfilled with [chunk]: lines 325-331, then
the loop again.  Nothing happens when the generator is not parked
there (the promise was settled before). *)
Definition fulfil (chunk : value) (s : stream) : stream :=
  match generator s with
  | AwaitingChunk =>
      if truthy chunk && truthy (get chunk "done") then finish s
      else if truthy chunk then deliver (Yielded chunk) SuspendedYield s
      else run_loop s
  | _ => s
  end.

(** The promise of line 319 is rejected: the generator throws. *)
Definition reject (msg : string) (s : stream) : stream :=
  match generator s with
  | AwaitingChunk => deliver (Thrown msg) Completed s
  | _ => s
  end.

(** Lines 287-294. *)
Definition chunkHandler (content : value) (s : stream) : stream :=
  if resolveChunk s then
    fulfil content
      {| streamHandlers := streamHandlers s; chunkPromises := chunkPromises s;
         resolveChunk := false; rejectChunk := rejectChunk s;
         isComplete := isComplete s; error := error s;
         generator := generator s; delivered := delivered s |}
  else set_chunkPromises (chunkPromises s ++ [content]) s.

(** Lines 296-301. *)
Definition completeHandler (s : stream) : stream :=
  let s' := {| streamHandlers := streamHandlers s;
               chunkPromises := chunkPromises s;
               resolveChunk := resolveChunk s; rejectChunk := rejectChunk s;
               isComplete := true; error := error s;
               generator := generator s; delivered := delivered s |} in
  if resolveChunk s then fulfil (VObject [("done", VBool true)]) s' else s'.

(** Lines 303-308. *)
Definition errorHandler (msg : string) (s : stream) : stream :=
  let s' := {| streamHandlers := streamHandlers s;
               chunkPromises := chunkPromises s;
               resolveChunk := resolveChunk s; rejectChunk := rejectChunk s;
               isComplete := isComplete s; error := Some msg;
               generator := generator s; delivered := delivered s |} in
  if rejectChunk s then reject msg s' else s'.

(** The fragments the consumer received, in order. *)
Definition fragments (s : stream) : list value :=
  omap (fun r => match r with Yielded v => Some v | _ => None end) (delivered s).

(** *** The manager object *)

(** The closures that the operations put into [_messageHandlers]; each
carries what it captured: the promise of its call, or its stream. *)
Inductive handler :=
| checkAvailability_handler (promise : nat)
| downloadModel_progressHandler (onProgress : bool)
| downloadModel_completeHandler (promise : nat)
| downloadModel_errorHandler (promise : nat)
| createSession_handler (promise : nat)
| createSession_errorHandler (promise : nat)
| promptStreaming_chunkHandler (stream : nat)
| promptStreaming_completeHandler (stream : nat)
| promptStreaming_errorHandler (stream : nat)
| getUsageInfo_handler (promise : nat).

(** What the operations resolve their promises with. *)
Inductive resolution :=
| RAvailability (available : bool) (status message : string)
| RVoid
| RTrue
| RStream (stream : nat)
| RUsage (data : option Protocol.usage).

Inductive promise :=
| Pending
| Resolved (v : resolution)
| RejectedWith (message : string).     (* an Error with this message *)

Record manager := {
  _port : option nat;
  _messageHandlers : gmap string handler;
  _isConnected : bool;
  _hasActiveSession : bool;
  connections : nat;                       (* calls of chrome.runtime.connect *)
  posted : list (nat * Protocol.request);  (* port.postMessage, oldest first *)
  promises : list promise;                 (* the promises handed out *)
  streams : list stream;                   (* the stream objects handed out *)
  onProgress_calls : list float            (* arguments onProgress was called with *)
}.

(** The constructor. *)
Definition new : manager :=
  {| _port := None; _messageHandlers := ∅; _isConnected := false;
     _hasActiveSession := false; connections := 0; posted := [];
     promises := []; streams := []; onProgress_calls := [] |}.

Implicit Types (m : manager).

Definition set_connection (port : option nat) (connected : bool) (n : nat) m
  : manager :=
  {| _port := port; _messageHandlers := _messageHandlers m;
     _isConnected := connected; _hasActiveSession := _hasActiveSession m;
     connections := n; posted := posted m; promises := promises m;
     streams := streams m; onProgress_calls := onProgress_calls m |}.

Definition set_messageHandlers (h : gmap string handler) m : manager :=
  {| _port := _port m; _messageHandlers := h;
     _isConnected := _isConnected m; _hasActiveSession := _hasActiveSession m;
     connections := connections m; posted := posted m;
     promises := promises m; streams := streams m;
     onProgress_calls := onProgress_calls m |}.

Definition set_hasActiveSession (b : bool) m : manager :=
  {| _port := _port m; _messageHandlers := _messageHandlers m;
     _isConnected := _isConnected m; _hasActiveSession := b;
     connections := connections m; posted := posted m;
     promises := promises m; streams := streams m;
     onProgress_calls := onProgress_calls m |}.

Definition set_posted (l : list (nat * Protocol.request)) m : manager :=
  {| _port := _port m; _messageHandlers := _messageHandlers m;
     _isConnected := _isConnected m; _hasActiveSession := _hasActiveSession m;
     connections := connections m; posted := l;
     promises := promises m; streams := streams m;
     onProgress_calls := onProgress_calls m |}.

Definition set_promises (l : list promise) m : manager :=
  {| _port := _port m; _messageHandlers := _messageHandlers m;
     _isConnected := _isConnected m; _hasActiveSession := _hasActiveSession m;
     connections := connections m; posted := posted m;
     promises := l; streams := streams m;
     onProgress_calls := onProgress_calls m |}.

Definition set_streams (l : list stream) m : manager :=
  {| _port := _port m; _messageHandlers := _messageHandlers m;
     _isConnected := _isConnected m; _hasActiveSession := _hasActiveSession m;
     connections := connections m; posted := posted m;
     promises := promises m; streams := l;
     onProgress_calls := onProgress_calls m |}.

Definition set_onProgress_calls (l : list float) m : manager :=
  {| _port := _port m; _messageHandlers := _messageHandlers m;
     _isConnected := _isConnected m; _hasActiveSession := _hasActiveSession m;
     connections := connections m; posted := posted m;
     promises := promises m; streams := streams m;
     onProgress_calls := l |}.

(** [new Promise(...)]: the promise the operation returns. *)
Definition new_Promise m : manager * nat :=
  (set_promises (promises m ++ [Pending]) m, length (promises m)).

(** [resolve(v)] or [reject(e)]; a settled promise stays as it is. *)
Definition settle (p : nat) (r : promise) m : manager :=
  match promises m !! p with
  | Some Pending => set_promises (<[p := r]> (promises m)) m
  | _ => m
  end.

(** Lines 19-41.  The two listeners are [onMessage] and [onDisconnect]
below. *)
Definition _connect m : manager :=
  if _isConnected m then m
  else set_connection (Some (connections m)) true (S (connections m)) m.

Definition _on (type : string) (h : handler) m : manager :=
  set_messageHandlers (<[type := h]> (_messageHandlers m)) m.

Definition _off (type : string) m : manager :=
  set_messageHandlers (delete type (_messageHandlers m)) m.

Definition _send (message : Protocol.request) m : manager :=
  let m := _connect m in
  match _port m with
  | Some port => set_posted (posted m ++ [(port, message)]) m
  | None => m
  end.

(** Lines 76-92. *)
Definition checkAvailability m : manager * nat :=
  let '(m, p) := new_Promise m in
  let m := _connect m in
  let m := _on "availability" (checkAvailability_handler p) m in
  (_send {| Protocol.type := "check-availability"; Protocol.messages := [] |} m, p).

(** Lines 99-130. *)
Definition downloadModel (onProgress : bool) m : manager * nat :=
  let '(m, p) := new_Promise m in
  let m := _connect m in
  let m := _on "download-progress" (downloadModel_progressHandler onProgress) m in
  let m := _on "download-complete" (downloadModel_completeHandler p) m in
  let m := _on "error" (downloadModel_errorHandler p) m in
  (_send {| Protocol.type := "download-model"; Protocol.messages := [] |} m, p).

(** Lines 174-199. *)
Definition createSession m : manager * nat :=
  let '(m, p) := new_Promise m in
  let m := _connect m in
  let m := _on "session-created" (createSession_handler p) m in
  let m := _on "error" (createSession_errorHandler p) m in
  (_send {| Protocol.type := "create-session"; Protocol.messages := [] |} m, p).

(** Lines 386-398. *)
Definition getUsageInfo m : manager * nat :=
  let '(m, p) := new_Promise m in
  let m := _connect m in
  let m := _on "usage-info" (getUsageInfo_handler p) m in
  (_send {| Protocol.type := "get-usage-info"; Protocol.messages := [] |} m, p).

(** Lines 403-418. *)
Definition destroy m : manager :=
  let m := if _isConnected m
           then set_hasActiveSession false
                  (_send {| Protocol.type := "destroy-session";
                            Protocol.messages := [] |} m)
           else m in
  let m := set_messageHandlers ∅ m in
  match _port m with
  | Some _ => set_connection None false (connections m) m
  | None => m
  end.

Definition hasActiveSession m : bool := _hasActiveSession m.

(** The listener of lines 36-40. *)
Definition onDisconnect m : manager :=
  set_hasActiveSession false (set_connection None false (connections m) m).

Section Prompt.

(** The texts of the turns: [_getDefaultSystemPrompt] (lines 138-168) and
[_formatPrompt] (lines 208-227) render the inspected application and
control into strings; they are taken as given. *)
Variables (context appInfo : Type).
Variable context_appInfo : context -> option appInfo.
Variable _getDefaultSystemPrompt : option appInfo -> string.
Variable _formatPrompt : string -> option context -> string.

(** Lines 237-253.  [conversationHistory] is [None] when it is not an
array. *)
Definition _buildMessagesArray (userMessage : string)
    (conversationHistory : option (list Protocol.turn))
    (ctx : option context) : list Protocol.turn :=
  let systemPrompt := _getDefaultSystemPrompt (ctx ≫= context_appInfo) in
  let messages := [{| Protocol.role := "system";
                      Protocol.content := systemPrompt |}] in
  let messages :=
    match conversationHistory with
    | Some history =>
        (messages ++
           map (fun msg => {| Protocol.role := Protocol.role msg;
                              Protocol.content := Protocol.content msg |})
               history)
    | None => messages
    end in
  let formattedMessage := _formatPrompt userMessage ctx in
  (messages ++ [{| Protocol.role := "user";
                   Protocol.content := formattedMessage |}]).

(** Lines 262-380. *)
Definition promptStreaming (userMessage : string)
    (conversationHistory : option (list Protocol.turn))
    (ctx : option context) m : manager * nat :=
  let '(m, p) := new_Promise m in
  let m := _connect m in
  if negb (_hasActiveSession m) then
    (settle p (RejectedWith "No active session. Call createSession() first.") m,
     p)
  else
    let messages := _buildMessagesArray userMessage conversationHistory ctx in
    let s := length (streams m) in
    let m := set_streams (streams m ++ [new_stream]) m in
    let m := _on "chunk" (promptStreaming_chunkHandler s) m in
    let m := _on "complete" (promptStreaming_completeHandler s) m in
    let m := _on "error" (promptStreaming_errorHandler s) m in
    let m := _send {| Protocol.type := "prompt-streaming";
                      Protocol.messages := messages |} m in
    (settle p (Resolved (RStream s)) m, p).

End Prompt.

(** *** Incoming messages *)

(** The fields the handlers read from a message.  A handler is stored
under the [type] it was written for, so each reads a field its message
has; the defaults stand for [undefined] ([new Error(undefined)] has the
empty message). *)
Definition field_status (message : Protocol.response) : string :=
  match message with Protocol.availability status _ => status | _ => EmptyString end.

Definition field_message (message : Protocol.response) : string :=
  match message with
  | Protocol.availability _ msg | Protocol.error msg => msg
  | _ => EmptyString
  end.

Definition field_progress (message : Protocol.response) : float :=
  match message with Protocol.download_progress x => x | _ => nan end.

Definition field_content (message : Protocol.response) : value :=
  match message with Protocol.chunk v => v | _ => VUndefined end.

Definition field_data (message : Protocol.response) : option Protocol.usage :=
  match message with Protocol.usage_info d => d | _ => None end.

(** [streamHandlers.onX && streamHandlers.onX(message)] on stream [s]. *)
Definition with_streamHandlers (s : nat) (f : stream -> stream) m : manager :=
  set_streams
    (alter (fun st => if streamHandlers st then f st else st) s (streams m)) m.

(** The body of each handler. *)
Definition call (h : handler) (message : Protocol.response) m : manager :=
  match h with
  | checkAvailability_handler p =>
      let m := _off "availability" m in
      let status := field_status message in
      settle p (Resolved (RAvailability
                            (String.eqb status "ready"
                             || String.eqb status "needs-download")
                            status (field_message message))) m
  | downloadModel_progressHandler onProgress =>
      if onProgress
      then set_onProgress_calls
             (onProgress_calls m ++ [field_progress message]) m
      else m
  | downloadModel_completeHandler p =>
      let m := _off "download-progress" m in
      let m := _off "download-complete" m in
      let m := _off "error" m in
      let m := set_hasActiveSession true m in
      settle p (Resolved RVoid) m
  | downloadModel_errorHandler p =>
      let m := _off "download-progress" m in
      let m := _off "download-complete" m in
      let m := _off "error" m in
      settle p (RejectedWith (field_message message)) m
  | createSession_handler p =>
      let m := _off "session-created" m in
      let m := _off "error" m in
      let m := set_hasActiveSession true m in
      settle p (Resolved RTrue) m
  | createSession_errorHandler p =>
      let m := _off "session-created" m in
      let m := _off "error" m in
      settle p (RejectedWith (field_message message)) m
  | promptStreaming_chunkHandler s =>
      with_streamHandlers s (chunkHandler (field_content message)) m
  | promptStreaming_completeHandler s =>
      let m := with_streamHandlers s completeHandler m in
      let m := _off "chunk" m in
      let m := _off "complete" m in
      _off "error" m
  | promptStreaming_errorHandler s =>
      let m := with_streamHandlers s (errorHandler (field_message message)) m in
      let m := _off "chunk" m in
      let m := _off "complete" m in
      _off "error" m
  | getUsageInfo_handler p =>
      let m := _off "usage-info" m in
      settle p (Resolved (RUsage (field_data message))) m
  end.

(** The listener of lines 28-33. *)
Definition onMessage (message : Protocol.response) m : manager :=
  match _messageHandlers m !! Protocol.response_type message with
  | Some h => call h message m
  | None => m
  end.

(** The consumer of stream [s] calls [next()]. *)
Definition pull (s : nat) m : option manager :=
  st ← streams m !! s;
  st' ← next st;
  Some (set_streams (<[s := st']> (streams m)) m).

Section Events.

Variables (context appInfo : Type).
Variable context_appInfo : context -> option appInfo.
Variable _getDefaultSystemPrompt : option appInfo -> string.
Variable _formatPrompt : string -> option context -> string.

(** What can happen to a manager in one turn of the panel's event loop:
a call of one of its operations, an event of the port, or the
consumer of a stream pulling. *)
Inductive event :=
| CheckAvailability
| DownloadModel (onProgress : bool)
| CreateSession
| PromptStreaming (userMessage : string)
    (conversationHistory : option (list Protocol.turn))
    (ctx : option context)
| GetUsageInfo
| Destroy
| Receive (message : Protocol.response)
| Disconnect
| Next (stream : nat).

(** [None] when the event cannot occur: a port event without a port, or
a [next()] while one is outstanding. *)
Definition step m (e : event) : option manager :=
  match e with
  | CheckAvailability => Some (checkAvailability m).1
  | DownloadModel onProgress => Some (downloadModel onProgress m).1
  | CreateSession => Some (createSession m).1
  | PromptStreaming userMessage history ctx =>
      Some (promptStreaming context appInfo context_appInfo
              _getDefaultSystemPrompt _formatPrompt
              userMessage history ctx m).1
  | GetUsageInfo => Some (getUsageInfo m).1
  | Destroy => Some (destroy m)
  | Receive message => if _isConnected m then Some (onMessage message m) else None
  | Disconnect => if _isConnected m then Some (onDisconnect m) else None
  | Next s => pull s m
  end.

Fixpoint run m (es : list event) : option manager :=
  match es with
  | [] => Some m
  | e :: es => m' ← step m e; run m' es
  end.

(** The states a manager can be in. *)
Definition reachable m : Prop := ∃ es, run new es = Some m.

End Events.

Arguments CheckAvailability {context}.
Arguments DownloadModel {context} onProgress.
Arguments CreateSession {context}.
Arguments PromptStreaming {context} userMessage conversationHistory ctx.
Arguments GetUsageInfo {context}.
Arguments Destroy {context}.
Arguments Receive {context} message.
Arguments Disconnect {context}.
Arguments Next {context} stream.

(** *** What the properties speak of *)

(** While the generator waits at line 319, nothing is buffered, the
stream has neither completed nor failed, and both callbacks of the
promise are in place. *)
Definition parked_ok (st : stream) : Prop :=
  generator st = AwaitingChunk →
  chunkPromises st = [] ∧ isComplete st = false ∧ error st = None ∧
  resolveChunk st = true ∧ rejectChunk st = true.

Definition fragments_truthy (st : stream) : Prop :=
  Forall (fun v => truthy v = true) (fragments st).

Definition stream_ok (st : stream) : Prop :=
  parked_ok st ∧ fragments_truthy st.

(** Every stream object of the manager is in order. *)
Definition streams_ok m : Prop := Forall stream_ok (streams m).

(** The payloads of the [chunk] messages among the events, in order of
arrival. *)
Definition chunks_received {context} (es : list (event context)) : list value :=
  omap (fun e => match e with
                 | Receive (Protocol.chunk v) => Some v
                 | _ => None
                 end) es.

(** The text that string fragments add up to, as in
[fullResponse += chunk]. *)
Fixpoint concatenation (vs : list value) : string :=
  match vs with
  | [] => EmptyString
  | VString s :: vs => s +:+ concatenation vs
  | _ :: vs => concatenation vs
  end.

(** A consumer that pulls again as soon as it has a fragment: the chunk
is handled and, when that yields, [next()] is called in the same turn. *)
Definition eager_chunk (content : value) (st : stream) : option stream :=
  let st := chunkHandler content st in
  match generator st with
  | SuspendedYield => next st
  | _ => Some st
  end.

Fixpoint eager_chunks (contents : list value) (st : stream) : option stream :=
  match contents with
  | [] => Some st
  | content :: contents => st' ← eager_chunk content st; eager_chunks contents st'
  end.

(** *** Scenarios *)

(** A session is created, then a prompt is sent: stream 0. *)
Definition prompt_sent : list (event unit) :=
  [CreateSession; Receive Protocol.session_created;
   PromptStreaming "hi" None None].

(** The consumer takes the first fragment and is busy while the second
fragment and [complete] arrive. *)
Definition slow_consumer : list (event unit) :=
  prompt_sent ++
  [Next 0; Receive (Protocol.chunk (VString "a"));
   Receive (Protocol.chunk (VString "b")); Receive Protocol.complete;
   Next 0].

(** The consumer starts to iterate after the first fragment arrived. *)
Definition late_consumer : list (event unit) :=
  prompt_sent ++
  [Receive (Protocol.chunk (VString "a")); Next 0;
   Receive (Protocol.chunk (VString "b")); Next 0;
   Receive Protocol.complete].

(** The consumer pulls as soon as it has a fragment. *)
Definition eager_consumer : list (event unit) :=
  prompt_sent ++
  [Next 0; Receive (Protocol.chunk (VString "a")); Next 0;
   Receive (Protocol.chunk (VString "b")); Next 0;
   Receive Protocol.complete].

(** The stream of [eager_consumer], at its end. *)
Definition eager_stream : stream :=
  {| streamHandlers := true; chunkPromises := []; resolveChunk := true;
     rejectChunk := true; isComplete := true; error := None;
     generator := Completed;
     delivered := [Yielded (VString "a"); Yielded (VString "b"); Done] |}.

(** The texts of the turns, for the scenarios. *)
Definition no_appInfo (_ : unit) : option unit := None.
Definition plain_system_prompt (_ : option unit) : string := "system".
Definition plain_prompt (prompt : string) (_ : option unit) : string := prompt.

Definition run_plain : manager -> list (event unit) -> option manager :=
  run unit unit no_appInfo plain_system_prompt plain_prompt.

End AISessionManager.

(** ** Panel and background script over one port *)

Module Channel.

(** The manager's latest request reaches the background script, and what
the script posts in that turn reaches the manager's listener, in
order. *)
Definition exchange (m : AISessionManager.manager) (σ : Background.server)
  : AISessionManager.manager * Background.server :=
  match last (AISessionManager.posted m) with
  | Some (port, request) =>
      let '(σ', out) := Background.onMessage port request σ in
      (foldl (fun m (p : Background.post) => AISessionManager.onMessage p.2 m)
             m out, σ')
  | None => (m, σ)
  end.

(** A call of [getUsageInfo()] and the exchange it starts: the promise it
returned, as it stands afterwards. *)
Definition getUsageInfo (m : AISessionManager.manager) (σ : Background.server)
  : option AISessionManager.promise :=
  let '(m, p) := AISessionManager.getUsageInfo m in
  let '(m, _) := exchange m σ in
  AISessionManager.promises m !! p.

(** Following the spec's words: round(100 * inputUsage / inputQuota) on
the exact quotient of two integers, [inputQuota] positive, ties
upwards. *)
Definition spec_percentUsed (inputUsage inputQuota : Z) : Z :=
  ((2 * (100 * inputUsage) + inputQuota) / (2 * inputQuota))%Z.

(** The manager has a port whenever it takes itself to be connected. *)
Definition connection_ok (m : AISessionManager.manager) : Prop :=
  AISessionManager._isConnected m = true →
  is_Some (AISessionManager._port m).

(** A script whose session reports 2300 of 4000 tokens used. *)
Definition session_2300_of_4000 : Background.server :=
  {| Background.LanguageModel_in_self := true;
     Background.promptAPISession := Some 0;
     Background.promptAPIController := None;
     Background.sessions :=
       [{| Background.destroyed := false;
           Background.session_inputUsage := Some 2300%float;
           Background.session_inputQuota := Some 4000%float |}];
     Background.controllers := [false];
     Background.tasks := [Background.Finished] |}.

(** A script whose session reports 410 of 4096 tokens used. *)
Definition session_410_of_4096 : Background.server :=
  {| Background.LanguageModel_in_self := true;
     Background.promptAPISession := Some 0;
     Background.promptAPIController := None;
     Background.sessions :=
       [{| Background.destroyed := false;
           Background.session_inputUsage := Some 410%float;
           Background.session_inputQuota := Some 4096%float |}];
     Background.controllers := [false];
     Background.tasks := [Background.Finished] |}.

(** A script whose session has no [inputQuota] and a zero [inputUsage]. *)
Definition session_without_quota : Background.server :=
  {| Background.LanguageModel_in_self := true;
     Background.promptAPISession := Some 0;
     Background.promptAPIController := None;
     Background.sessions :=
       [{| Background.destroyed := false;
           Background.session_inputUsage := Some 0%float;
           Background.session_inputQuota := None |}];
     Background.controllers := [false];
     Background.tasks := [Background.Finished] |}.

End Channel.

(** ** Whole requests of the background script, and its other handlers *)

Module BackgroundRuns.
Import Protocol Background.

Implicit Types (σ : server) (port : nat).

(** How the provider's stream ends: normally, or with an Error. *)
Definition stream_end (failure : option string) : settled :=
  match failure with
  | None => Fulfilled PEnd
  | Some msg => Rejected msg
  end.

(** The turns of a prompt-streaming request that runs as task [i] with no
other turn in between: the request, the stream, its fragments, its end. *)
Definition prompt_streaming_turns (i port : nat) (turns : list turn)
    (fragments : list Js.value) (failure : option string) : list event :=
  Message port {| type := "prompt-streaming"; messages := turns |}
  :: Settle i (Fulfilled PStream)
  :: map (fun v => Settle i (Fulfilled (PFragment v))) fragments
  ++ [Settle i (stream_end failure)].

(** The turns of a download-model request that succeeds as task [i]: the
request, the provider's answer [a], the progress events, the handle. *)
Definition download_model_turns (i port : nat) (a : string)
    (loaded : list (option float)) (usage quota : option float) : list event :=
  Message port (request_of "download-model")
  :: Settle i (Fulfilled (PAvailability a))
  :: map (DownloadProgress i) loaded
  ++ [Settle i (Fulfilled (PSession usage quota))].

(** [promptAPISession] is [null] or refers to a handle that was not
destroyed. *)
Definition session_live σ : Prop :=
  ∀ s, promptAPISession σ = Some s →
       ∃ h, sessions σ !! s = Some h ∧ destroyed h = false.

(** What a script without the Prompt API can post. *)
Definition unsupported_post (m : response) : Prop :=
  match m with
  | availability status _ => status = "unavailable"
  | error msg => msg = "Prompt API not supported" ∨ msg = "No active session"
  | usage_info data => data = None
  | session_destroyed => True
  | _ => False
  end.

(** A stream is running in [one_session] as task 1, with controller 1. *)
Definition one_stream : server :=
  {| LanguageModel_in_self := true;
     promptAPISession := Some 0; promptAPIController := Some 1;
     sessions := sessions one_session;
     controllers := [false; false];
     tasks := [Finished; PromptStreaming_next 0 1] |}.

End BackgroundRuns.

(** ** The frame pinger of the background script: [main.js], lines 107-138 *)

Module PingFrames.

(** The calls the handler makes. *)
Inductive call :=
| sendToAll_do_ping (frameId : nat)
    (* utils.sendToAll({ action: 'do-ping', frameId }, callback) *)
| sendMessage_on_ping_frames (recipient : string) (frameIds : list nat).
    (* chrome.runtime.sendMessage(messageSender.id,
         { action: 'on-ping-frames', frameIds: liveFrameIds }) *)

(** The variables of one 'do-ping-frames' request. *)
Record state := {
  frameIds : list nat;        (* message.frameIds *)
  liveFrameIds : list nat;
  sender : string             (* messageSender.id *)
}.

(** [pingFrame(i)], up to the call it makes. *)
Definition pingFrame (i : nat) (st : state) : state * list call :=
  match frameIds st !! i with
  | None =>
      (* i >= frameIds.length *)
      (st, [sendMessage_on_ping_frames (sender st) (liveFrameIds st)])
  | Some frameId => (st, [sendToAll_do_ping frameId])
  end.

(** The callback that [pingFrame(i)] handed to [sendToAll], called with
[isAlive]. *)
Definition callback (i : nat) (isAlive : Js.value) (st : state)
  : state * list call :=
  match frameIds st !! i with
  | Some frameId =>
      let st := if Js.truthy isAlive
                then {| frameIds := frameIds st;
                        liveFrameIds := liveFrameIds st ++ [frameId];
                        sender := sender st |}
                else st in
      pingFrame (S i) st
  | None => (st, [])
  end.

(** The handler: [pingFrame(0)] on a fresh [liveFrameIds]. *)
Definition do_ping_frames (ids : list nat) (messageSender_id : string)
  : state * list call :=
  pingFrame 0 {| frameIds := ids; liveFrameIds := [];
                 sender := messageSender_id |}.

(** The callbacks of the frames [i], [i+1], ... are called once each, in
that order, with the answers given. *)
Fixpoint answer (i : nat) (isAlive : list Js.value) (st : state)
  : state * list call :=
  match isAlive with
  | [] => (st, [])
  | a :: rest =>
      let '(st, calls) := callback i a st in
      let '(st, calls') := answer (S i) rest st in
      (st, calls ++ calls')
  end.

(** The frames that answered with a truthy value. *)
Fixpoint alive (ids : list nat) (isAlive : list Js.value) : list nat :=
  match ids, isAlive with
  | frameId :: ids, a :: isAlive =>
      if Js.truthy a then frameId :: alive ids isAlive else alive ids isAlive
  | _, _ => []
  end.

Definition is_report (c : call) : bool :=
  match c with sendMessage_on_ping_frames _ _ => true | _ => false end.

End PingFrames.

(** ** The chat history: [ChatStorageManager.js]

[chrome.storage.local] is a map from keys to the arrays this module
writes.  Each call of the API issues a request; the storage serves it
at some later turn and calls back, with [chrome.runtime.lastError] set
if it failed.  What [get] hands to its callback is a copy, so the
[push] of line 58 changes nothing in the storage.  Strings are
sequences of code units below 256. *)

Module ChatStorageManager.

Definition _maxMessages : nat := 50.

(** The message object that [saveMessage] is given. *)
Record message := { role : string; content : string; timestamp : Z }.

(** What [saveMessage] stores of it (line 58). *)
Definition stored (m : message) : Protocol.turn :=
  {| Protocol.role := role m; Protocol.content := content m |}.

(** The class [a-zA-Z0-9]. *)
Definition alphanumeric (c : Ascii.ascii) : bool :=
  let n := Ascii.nat_of_ascii c in
  ((48 <=? n) && (n <=? 57) || (65 <=? n) && (n <=? 90)
   || (97 <=? n) && (n <=? 122))%nat.

(** [s.replace(/[^a-zA-Z0-9]/g, '_')] *)
Fixpoint replace (s : string) : string :=
  match s with
  | EmptyString => EmptyString
  | String c s =>
      String (if alphanumeric c then c else Ascii.ascii_of_nat 95) (replace s)
  end.

(** [url || 'default']; [None] is [null]. *)
Definition url_or_default (url : option string) : string :=
  match url with
  | None | Some EmptyString => "default"
  | Some u => u
  end.

Definition _getKey (url : option string) : string :=
  "ai_chat_" +:+ replace (url_or_default url).

(** [a.slice(-n)], for [n > 0]. *)
Definition slice_last (n : nat) {A} (a : list A) : list A :=
  drop (length a - n) a.

Abbreviation storage := (gmap string (list Protocol.turn)).

(** What a promise of this module is resolved with. *)
Inductive resolution :=
| RHistory (messages : list Protocol.turn)
| RVoid.

Inductive promise :=
| Pending
| Resolved (v : resolution)
| RejectedWith (lastError : string).

(** A call whose request the storage has not served yet. *)
Inductive task :=
| LoadHistory_get (key : string)                              (* line 30 *)
| SaveMessage_get (key : string) (m : message)                (* line 51 *)
| SaveMessage_set (key : string) (messages : list Protocol.turn)  (* line 64 *)
| ClearHistory_remove (key : string)                          (* line 84 *)
| Finished.

(** The storage, the calls made so far, and the promise each returned. *)
Record world := {
  local : storage;
  tasks : list task;
  promises : list promise
}.

Definition init (data : storage) : world :=
  {| local := data; tasks := []; promises := [] |}.

Implicit Types (w : world) (url : option string).

(** A call: its request is issued, its promise returned. *)
Definition call (t : task) w : world :=
  {| local := local w; tasks := tasks w ++ [t];
     promises := promises w ++ [Pending] |}.

Definition loadHistory url w : world := call (LoadHistory_get (_getKey url)) w.

Definition saveMessage url (m : message) w : world :=
  call (SaveMessage_get (_getKey url) m) w.

Definition clearHistory url w : world :=
  call (ClearHistory_remove (_getKey url)) w.

(** Call [i] goes on to its next request, or ends with its promise
settled. *)
Definition park (i : nat) (t : task) w : world :=
  {| local := local w; tasks := <[i := t]> (tasks w); promises := promises w |}.

Definition settle (i : nat) (p : promise) w : world :=
  {| local := local w; tasks := <[i := Finished]> (tasks w);
     promises := <[i := p]> (promises w) |}.

Definition set_local (data : storage) w : world :=
  {| local := data; tasks := tasks w; promises := promises w |}.

(** [result[key] || []] *)
Definition result_or_empty (data : storage) (key : string)
  : list Protocol.turn :=
  default [] (data !! key).

(** Lines 57-62. *)
Definition push_and_trim (messages : list Protocol.turn) (m : message)
  : list Protocol.turn :=
  let messages := messages ++ [stored m] in
  if (_maxMessages <? length messages)%nat
  then slice_last _maxMessages messages
  else messages.

(** The storage serves the request of call [i] and calls back, with
[chrome.runtime.lastError] set or not; a request that fails changes
nothing in the storage. *)
Definition serve (i : nat) (lastError : option string) w : option world :=
  match tasks w !! i, lastError with
  | Some Finished, _ | None, _ => None
  | Some _, Some e => Some (settle i (RejectedWith e) w)
  | Some (LoadHistory_get key), None =>
      Some (settle i (Resolved (RHistory (result_or_empty (local w) key))) w)
  | Some (SaveMessage_get key m), None =>
      Some (park i (SaveMessage_set key
                      (push_and_trim (result_or_empty (local w) key) m)) w)
  | Some (SaveMessage_set key messages), None =>
      Some (settle i (Resolved RVoid)
              (set_local (<[key := messages]> (local w)) w))
  | Some (ClearHistory_remove key), None =>
      Some (settle i (Resolved RVoid) (set_local (delete key (local w)) w))
  end.

Inductive event :=
| LoadHistory (url : option string)
| SaveMessage (url : option string) (m : message)
| ClearHistory (url : option string)
| Serve (i : nat) (lastError : option string).

Definition step w (e : event) : option world :=
  match e with
  | LoadHistory url => Some (loadHistory url w)
  | SaveMessage url m => Some (saveMessage url m w)
  | ClearHistory url => Some (clearHistory url w)
  | Serve i lastError => serve i lastError w
  end.

Fixpoint run w (es : list event) : option world :=
  match es with
  | [] => Some w
  | e :: es => w ← step w e; run w es
  end.

(** A [saveMessage] made as call [i] and served, with nothing in
between. *)
Definition save (i : nat) url (m : message) : list event :=
  [SaveMessage url m; Serve i None; Serve i None].

(** The messages [ms] saved one after the other, from call [i] on. *)
Fixpoint saves (i : nat) url (ms : list message) : list event :=
  match ms with
  | [] => []
  | m :: ms => save i url m ++ saves (S i) url ms
  end.

(** The promises and the calls go together. *)
Definition paired w : Prop := length (promises w) = length (tasks w).


End ChatStorageManager.

(** ** The manager's registry and its streams, over whole runs *)

Module AISessionManagerRuns.
Import Js AISessionManager.

Implicit Types (st : stream) (m : manager).

(** The [type] under which the operations register each closure. *)
Definition registered_for (h : handler) : string :=
  match h with
  | checkAvailability_handler _ => "availability"
  | downloadModel_progressHandler _ => "download-progress"
  | downloadModel_completeHandler _ => "download-complete"
  | downloadModel_errorHandler _ | createSession_errorHandler _
  | promptStreaming_errorHandler _ => "error"
  | createSession_handler _ => "session-created"
  | promptStreaming_chunkHandler _ => "chunk"
  | promptStreaming_completeHandler _ => "complete"
  | getUsageInfo_handler _ => "usage-info"
  end.

(** The promise whose [resolve] or [reject] a closure captured. *)
Definition handler_promise (h : handler) : option nat :=
  match h with
  | checkAvailability_handler p | downloadModel_completeHandler p
  | downloadModel_errorHandler p | createSession_handler p
  | createSession_errorHandler p | getUsageInfo_handler p => Some p
  | _ => None
  end.

(** The stream whose [streamHandlers] a closure captured. *)
Definition handler_stream (h : handler) : option nat :=
  match h with
  | promptStreaming_chunkHandler s | promptStreaming_completeHandler s
  | promptStreaming_errorHandler s => Some s
  | _ => None
  end.

(** Every closure in the registry sits under its own type, and what it
captured exists. *)
Definition registry_ok m : Prop :=
  ∀ type h, _messageHandlers m !! type = Some h →
    registered_for h = type ∧
    (∀ p, handler_promise h = Some p → p < length (promises m)) ∧
    (∀ s, handler_stream h = Some s → s < length (streams m)).

(** Promise [p] is pending and no closure in the registry can settle
it. *)
Definition orphaned (p : nat) m : Prop :=
  promises m !! p = Some Pending ∧
  ∀ type h, _messageHandlers m !! type = Some h → handler_promise h ≠ Some p.

(** The generator of stream [s] waits for a chunk, in state [st], and no
closure in the registry can reach it. *)
Definition stranded (s : nat) st m : Prop :=
  streams m !! s = Some st ∧ generator st = AwaitingChunk ∧
  ∀ type h, _messageHandlers m !! type = Some h → handler_stream h ≠ Some s.

(** What a stream has taken from the port: the fragments it yielded and
the chunks it holds in its buffer. *)
Definition held st : list value := fragments st ++ chunkPromises st.

(** Every stream of the manager holds a subsequence of [cs]. *)
Definition within (cs : list value) m : Prop :=
  Forall (fun st => held st `sublist_of` cs) (streams m).

(** The payload of a [chunk] message. *)
Definition chunk_of {context} (e : event context) : list value :=
  match e with
  | Receive (Protocol.chunk v) => [v]
  | _ => []
  end.

(** The operations that register their closures under fixed types and
send one request. *)
Definition plain_call {context} (e : event context) : bool :=
  match e with
  | CheckAvailability | DownloadModel _ | CreateSession | GetUsageInfo => true
  | _ => false
  end.

(** A prompt was sent and its consumer waits for the first fragment; a
usage query is unanswered. *)
Definition waiting_consumer : manager :=
  default new (run_plain new (prompt_sent ++ [Next 0; GetUsageInfo])).

(** ... then the manager is destroyed and a new session created. *)
Definition destroyed_and_recreated : manager :=
  default new (run_plain waiting_consumer
                 [Destroy; CreateSession; Receive Protocol.session_created]).

(** Two usage queries, then one answer. *)
Definition two_usage_queries : manager :=
  default new (run_plain new [GetUsageInfo; GetUsageInfo;
                              Receive (Protocol.usage_info None)]).

End AISessionManagerRuns.

(** ** Whole operations over the port *)

Module ChannelRuns.
Import Js AISessionManager.

Implicit Types (m : manager).

(** What the script posted reaches the manager's listener, in order. *)
Definition receive (out : list Background.post) m : manager :=
  foldl (fun m (p : Background.post) => onMessage p.2 m) m out.

(** The consumer of [AIChat.js], lines 262-266: a [for await] loop whose
body does not wait.  It calls [next()] when it gets the stream, and
again, in the turn of the message, whenever it is handed a fragment. *)
Definition arrival {context} (s : nat) (p : Background.post)
  : list (event context) :=
  Receive p.2
  :: match p.2 with
     | Protocol.chunk v => if truthy v then [Next s] else []
     | _ => []
     end.

Definition for_await {context} (s : nat) (out : list Background.post)
  : list (event context) :=
  Next s :: mjoin (map (arrival s) out).

(** How the iteration ends. *)
Definition stream_outcome (failure : option string) : iteration :=
  match failure with
  | None => Done
  | Some msg => Thrown msg
  end.

(** Stream [s] is being consumed: its closures are in the registry, its
generator waits for a chunk, and [d] is what the consumer got. *)
Definition streaming (s : nat) (d : list iteration) m : Prop :=
  _isConnected m = true ∧
  _messageHandlers m !! "chunk" = Some (promptStreaming_chunkHandler s) ∧
  _messageHandlers m !! "complete" = Some (promptStreaming_completeHandler s) ∧
  _messageHandlers m !! "error" = Some (promptStreaming_errorHandler s) ∧
  streams m !! s
  = Some {| streamHandlers := true; chunkPromises := []; resolveChunk := true;
            rejectChunk := true; isComplete := false; error := None;
            generator := AwaitingChunk; delivered := d |}.

(** A manager with a session, connected over port 0. *)
Definition with_session : manager :=
  {| _port := Some 0; _messageHandlers := ∅; _isConnected := true;
     _hasActiveSession := true; connections := 1;
     posted := [(0, {| Protocol.type := "create-session";
                       Protocol.messages := [] |})];
     promises := [Resolved RTrue]; streams := [];
     onProgress_calls := [] |}.

End ChannelRuns.

(** ** The chat panel: [app/scripts/modules/ui/AIChat.js]

The component owns an [AISessionManager] and a [ChatStorageManager].
Here the two are the environment: a call of one of their operations is
recorded, and the promise it returned settles in a later turn, as an
event.  Of the page, the model keeps the message elements and their
container, the token counter and the status banner with its download
button; the input field, the send and clear buttons, scrolling and the
time stamps are left out (the handlers only write them, but for the
input's text, which comes with the click).  The fragments of a stream
are strings. *)

Module AIChat.
Import Js.

(** A message element: its role, and the text of its content. *)
Record element := { element_role : string; textContent : string }.

(** Texts of the banner. *)
Inductive text :=
| Text (s : string)
| Downloading (percent : float).       (* 'Downloading: ${percent}%' *)

(** [#ai-status-banner] and [#ai-download-button]. *)
Record banner := {
  status : string;                (* the class is 'ai-status-banner status-' + status *)
  status_text : text;
  download_shown : bool;          (* display: inline-block, or none *)
  download_disabled : bool
}.

(** [#ai-token-counter]: [None] is the empty text. *)
Record counter := {
  counter_text : option Protocol.usage;
  warning : bool
}.

(** The calls the component makes. *)
Inductive call :=
| checkAvailability
| downloadModel
| createSession
| promptStreaming (userMessage : string)
    (conversationHistory : list Protocol.turn) (context : value)
| getUsageInfo
| destroy
| next                                             (* of the stream's iterator *)
| return_                                          (* of the stream's iterator *)
| saveMessage (url : option string) (role content : string)
| loadHistory (url : option string)
| clearHistory (url : option string).

(** What an awaited promise settles with. *)
Inductive fulfilment :=
| FVoid
| FTrue
| FAvailability (status message : string)
| FStream
| FUsage (data : option Protocol.usage)
| FHistory (messages : list Protocol.turn)
| FYield (chunk : string)
| FDone.

Inductive result :=
| Fulfilled (v : fulfilment)
| Rejected (message : string).

(** A handler parked at an [await]. *)
Inductive task :=
| CheckModelAvailability_checkAvailability          (* line 137 *)
| DownloadModel_downloadModel                       (* line 176 *)
| DownloadModel_initializeSession                   (* line 185 -> 157 *)
| SendMessage_initializeSession (userMessage : string)   (* line 205 -> 157 *)
| SendMessage_saveMessage (userMessage : string)    (* line 221 *)
| SendMessage_promptStreaming                       (* line 253 *)
| SendMessage_next (fullResponse : string)          (* line 262 *)
| SendMessage_saveResponse                          (* line 269 *)
| ClearHistory_clearHistory                         (* line 298 *)
| ClearHistory_initializeSession                    (* line 312 -> 157 *)
| UpdateTokenCounter_getUsageInfo                   (* line 420 *)
| LoadHistory_loadHistory                           (* line 481 *)
| Finished.

Record chat := {
  _currentUrl : option string;
  _currentContext : value;
  _messages : list Protocol.turn;
  _isStreaming : bool;
  _streamingMessageElement : option nat;   (* null, or a message element *)
  _getAppInfo : option value;   (* null, or a callback and what it returns now *)
  elements : list element;      (* every message element created *)
  container : list nat;         (* those in #ai-messages-container, in order *)
  welcome : bool;               (* the welcome message is in the container *)
  token_counter : counter;
  status_banner : banner;
  tasks : list task
}.

(** The component after [_render()]. *)
Definition new (getAppInfo : option value) : chat :=
  {| _currentUrl := None; _currentContext := VNull; _messages := [];
     _isStreaming := false; _streamingMessageElement := None;
     _getAppInfo := getAppInfo;
     elements := []; container := []; welcome := true;
     token_counter := {| counter_text := None; warning := false |};
     status_banner := {| status := EmptyString;
                         status_text := Text "Checking model status...";
                         download_shown := false; download_disabled := false |};
     tasks := [] |}.

Implicit Types (c : chat).

Definition set_url (url : option string) c : chat :=
  {| _currentUrl := url; _currentContext := _currentContext c;
     _messages := _messages c; _isStreaming := _isStreaming c;
     _streamingMessageElement := _streamingMessageElement c;
     _getAppInfo := _getAppInfo c; elements := elements c;
     container := container c; welcome := welcome c;
     token_counter := token_counter c; status_banner := status_banner c;
     tasks := tasks c |}.

Definition set_context (context : value) (getAppInfo : option value) c : chat :=
  {| _currentUrl := _currentUrl c; _currentContext := context;
     _messages := _messages c; _isStreaming := _isStreaming c;
     _streamingMessageElement := _streamingMessageElement c;
     _getAppInfo := getAppInfo; elements := elements c;
     container := container c; welcome := welcome c;
     token_counter := token_counter c; status_banner := status_banner c;
     tasks := tasks c |}.

Definition set_messages (messages : list Protocol.turn) c : chat :=
  {| _currentUrl := _currentUrl c; _currentContext := _currentContext c;
     _messages := messages; _isStreaming := _isStreaming c;
     _streamingMessageElement := _streamingMessageElement c;
     _getAppInfo := _getAppInfo c; elements := elements c;
     container := container c; welcome := welcome c;
     token_counter := token_counter c; status_banner := status_banner c;
     tasks := tasks c |}.

Definition set_streaming (streaming : bool) (element : option nat) c : chat :=
  {| _currentUrl := _currentUrl c; _currentContext := _currentContext c;
     _messages := _messages c; _isStreaming := streaming;
     _streamingMessageElement := element;
     _getAppInfo := _getAppInfo c; elements := elements c;
     container := container c; welcome := welcome c;
     token_counter := token_counter c; status_banner := status_banner c;
     tasks := tasks c |}.

Definition set_elements (l : list element) c : chat :=
  {| _currentUrl := _currentUrl c; _currentContext := _currentContext c;
     _messages := _messages c; _isStreaming := _isStreaming c;
     _streamingMessageElement := _streamingMessageElement c;
     _getAppInfo := _getAppInfo c; elements := l;
     container := container c; welcome := welcome c;
     token_counter := token_counter c; status_banner := status_banner c;
     tasks := tasks c |}.

Definition set_container (l : list nat) (w : bool) c : chat :=
  {| _currentUrl := _currentUrl c; _currentContext := _currentContext c;
     _messages := _messages c; _isStreaming := _isStreaming c;
     _streamingMessageElement := _streamingMessageElement c;
     _getAppInfo := _getAppInfo c; elements := elements c;
     container := l; welcome := w;
     token_counter := token_counter c; status_banner := status_banner c;
     tasks := tasks c |}.

Definition set_token_counter (k : counter) c : chat :=
  {| _currentUrl := _currentUrl c; _currentContext := _currentContext c;
     _messages := _messages c; _isStreaming := _isStreaming c;
     _streamingMessageElement := _streamingMessageElement c;
     _getAppInfo := _getAppInfo c; elements := elements c;
     container := container c; welcome := welcome c;
     token_counter := k; status_banner := status_banner c;
     tasks := tasks c |}.

Definition set_status_banner (b : banner) c : chat :=
  {| _currentUrl := _currentUrl c; _currentContext := _currentContext c;
     _messages := _messages c; _isStreaming := _isStreaming c;
     _streamingMessageElement := _streamingMessageElement c;
     _getAppInfo := _getAppInfo c; elements := elements c;
     container := container c; welcome := welcome c;
     token_counter := token_counter c; status_banner := b;
     tasks := tasks c |}.

Definition set_tasks (l : list task) c : chat :=
  {| _currentUrl := _currentUrl c; _currentContext := _currentContext c;
     _messages := _messages c; _isStreaming := _isStreaming c;
     _streamingMessageElement := _streamingMessageElement c;
     _getAppInfo := _getAppInfo c; elements := elements c;
     container := container c; welcome := welcome c;
     token_counter := token_counter c; status_banner := status_banner c;
     tasks := l |}.

(** A handler parks at its first [await], goes on to the next, or ends. *)
Definition suspend (t : task) c : chat := set_tasks (tasks c ++ [t]) c.

Definition park (i : nat) (t : task) c : chat :=
  set_tasks (<[i := t]> (tasks c)) c.

(** Lines 327-345.  The [progress] argument is not used. *)
Definition _renderModelStatus (s : string) (message : text) c : chat :=
  let b := status_banner c in
  set_status_banner
    (if String.eqb s "needs-download" then
       {| status := s; status_text := message;
          download_shown := true; download_disabled := false |}
     else if String.eqb s "downloading" then
       {| status := s; status_text := message;
          download_shown := true; download_disabled := true |}
     else
       {| status := s; status_text := message;
          download_shown := false;
          download_disabled := download_disabled b |}) c.

(** Lines 352-381: the new element is returned. *)
Definition _addMessage (role content : string) c : chat * nat :=
  let id := length (elements c) in
  let c := set_container (container c ++ [id]) false c in
  let c := set_elements
             (elements c ++ [{| element_role := role;
                                textContent := content |}]) c in
  (set_messages (_messages c ++ [{| Protocol.role := role;
                                    Protocol.content := content |}]) c, id).

(** Lines 387-389. *)
Definition _addSystemMessage (message : string) c : chat :=
  (_addMessage "system" message c).1.

(** Lines 416-431, up to the [await]. *)
Definition _updateTokenCounter c : chat * list call :=
  (suspend UpdateTokenCounter_getUsageInfo c, [getUsageInfo]).

(** ... and from it. *)
Definition _updateTokenCounter_settled (i : nat) (r : result) c
  : option (chat * list call) :=
  match r with
  | Fulfilled (FUsage (Some usageInfo)) =>
      Some (park i Finished
              (set_token_counter
                 {| counter_text := Some usageInfo;
                    warning := PrimFloat.leb 90 (Protocol.percentUsed usageInfo) |}
                 c), [])
  | Fulfilled (FUsage None) | Rejected _ =>
      Some (park i Finished
              (set_token_counter
                 {| counter_text := None;
                    warning := warning (token_counter c) |} c), [])
  | Fulfilled _ => None
  end.

(** Lines 135-149. *)
Definition _checkModelAvailability c : chat * list call :=
  (suspend CheckModelAvailability_checkAvailability c, [checkAvailability]).

Definition _checkModelAvailability_settled (i : nat) (r : result) c
  : option (chat * list call) :=
  match r with
  | Fulfilled (FAvailability s message) =>
      let c :=
        if String.eqb s "ready"
        then _renderModelStatus "ready" (Text "Gemini Nano is ready") c
        else if String.eqb s "needs-download"
        then _renderModelStatus "needs-download" (Text message) c
        else _renderModelStatus "unavailable" (Text message) c in
      Some (park i Finished c, [])
  | Rejected msg =>
      Some (park i Finished
              (_renderModelStatus "error" (Text ("Error: " +:+ msg)) c), [])
  | Fulfilled _ => None
  end.

(** Lines 155-163, from the [await] of line 157 to the end: the function
catches what [createSession] rejects with, and so never rejects. *)
Definition _initializeSession_settled (r : result) c : chat * list call :=
  match r with
  | Fulfilled _ => _updateTokenCounter c
  | Rejected msg =>
      (_addSystemMessage ("Error initializing session: " +:+ msg) c, [])
  end.

(** Lines 170-190. *)
Definition _handleDownloadModel c : chat * list call :=
  let b := status_banner c in
  let c := set_status_banner
             {| status := status b; status_text := status_text b;
                download_shown := download_shown b;
                download_disabled := true |} c in
  let c := _renderModelStatus "downloading" (Text "Starting download...") c in
  (suspend DownloadModel_downloadModel c, [downloadModel]).

(** The callback of lines 176-179. *)
Definition onProgress (progress : float) c : chat :=
  let percent := Math_round (progress * 100)%float in
  _renderModelStatus "downloading" (Downloading percent) c.

Definition _handleDownloadModel_downloadModel (i : nat) (r : result) c
  : chat * list call :=
  match r with
  | Fulfilled _ =>
      let c := _renderModelStatus "ready" (Text "Model ready!") c in
      (park i DownloadModel_initializeSession c, [createSession])
  | Rejected msg =>
      let c := _renderModelStatus "error"
                 (Text ("Download failed: " +:+ msg)) c in
      let b := status_banner c in
      (park i Finished
         (set_status_banner
            {| status := status b; status_text := status_text b;
               download_shown := download_shown b;
               download_disabled := false |} c), [])
  end.

(** [a.slice(0, -1)] *)
Definition slice_0_minus_1 {A} (a : list A) : list A :=
  take (length a - 1) a.

(** Lines 213-225 of [_handleSendMessage]: from the session check to the
first save.  [i] is the task, when the handler has awaited before. *)
Definition _handleSendMessage_send (i : option nat) (userMessage : string) c
  : chat * list call :=
  let '(c, _) := _addMessage "user" userMessage c in
  let t := SendMessage_saveMessage userMessage in
  (match i with Some i => park i t c | None => suspend t c end,
   [saveMessage (_currentUrl c) "user" userMessage]).

(** Lines 196-225. *)
Definition _handleSendMessage (userMessage : string) (hasActiveSession : bool) c
  : chat * list call :=
  if negb (truthy (VString userMessage)) || _isStreaming c then (c, [])
  else if negb hasActiveSession then
    (suspend (SendMessage_initializeSession userMessage) c, [createSession])
  else _handleSendMessage_send None userMessage c.

(** The [catch] of lines 281-285. *)
Definition _handleSendMessage_catch (i : nat) (msg : string) c : chat :=
  let c := _addSystemMessage ("Error: " +:+ msg) c in
  park i Finished (set_streaming false None c).

(** Lines 228-257. *)
Definition _handleSendMessage_saveMessage (i : nat) (userMessage : string)
    (r : result) c : chat * list call :=
  match r with
  | Rejected _ =>
      (* outside the [try]: the handler ends with the rejection *)
      (park i Finished c, [])
  | Fulfilled _ =>
      let c := set_streaming true (_streamingMessageElement c) c in
      let '(c, messageElement) := _addMessage "assistant" EmptyString c in
      let c := set_streaming (_isStreaming c) (Some messageElement) c in
      let conversationHistory := slice_0_minus_1 (_messages c) in
      let appInfo :=
        match _getAppInfo c with
        | Some v => v
        | None =>
            if truthy (_currentContext c)
            then get (_currentContext c) "appInfo" else VNull
        end in
      let context :=
        VObject [("control",
                  if truthy (_currentContext c)
                  then get (_currentContext c) "control" else VNull);
                 ("appInfo", appInfo)] in
      (park i SendMessage_promptStreaming c,
       [promptStreaming userMessage conversationHistory context])
  end.

Definition _handleSendMessage_promptStreaming (i : nat) (r : result) c
  : chat * list call :=
  match r with
  | Fulfilled _ => (park i (SendMessage_next EmptyString) c, [next])
  | Rejected msg => (_handleSendMessage_catch i msg c, [])
  end.

(** The [message] of the TypeError that writing [.textContent] of [null]
throws. *)
Definition TypeError_textContent : string :=
  "Cannot set properties of null (setting 'textContent')".

(** Lines 262-274: one turn of the loop, or the way out of it. *)
Definition _handleSendMessage_next (i : nat) (fullResponse : string)
    (r : result) c : option (chat * list call) :=
  match r with
  | Fulfilled (FYield chunk) =>
      let fullResponse := fullResponse +:+ chunk in
      match _streamingMessageElement c with
      | Some e =>
          let c := set_elements
                     (alter (fun el => {| element_role := element_role el;
                                          textContent := fullResponse |})
                            e (elements c)) c in
          Some (park i (SendMessage_next fullResponse) c, [next])
      | None =>
          Some (_handleSendMessage_catch i TypeError_textContent c, [return_])
      end
  | Fulfilled FDone =>
      Some (park i SendMessage_saveResponse c,
            [saveMessage (_currentUrl c) "assistant" fullResponse])
  | Rejected msg => Some (_handleSendMessage_catch i msg c, [])
  | Fulfilled _ => None
  end.

(** Lines 275-285. *)
Definition _handleSendMessage_saveResponse (i : nat) (r : result) c
  : chat * list call :=
  match r with
  | Fulfilled _ =>
      let c := set_streaming false None c in
      let '(c, calls) := _updateTokenCounter c in
      (park i Finished c, calls)
  | Rejected msg => (_handleSendMessage_catch i msg c, [])
  end.

(** Lines 292-320. *)
Definition _handleClearHistory (confirmed : bool) c : chat * list call :=
  if negb confirmed then (c, [])
  else (suspend ClearHistory_clearHistory c, [clearHistory (_currentUrl c)]).

Definition _handleClearHistory_clearHistory (i : nat) (r : result) c
  : chat * list call :=
  match r with
  | Fulfilled _ =>
      let c := set_messages [] c in
      let c := set_container [] true c in
      (park i ClearHistory_initializeSession c, [destroy; createSession])
  | Rejected msg =>
      (park i Finished
         (_addSystemMessage ("Error clearing history: " +:+ msg) c), [])
  end.

Definition _handleClearHistory_initializeSession (i : nat) (r : result) c
  : chat * list call :=
  let '(c, calls) := _initializeSession_settled r c in
  (park i Finished (_addSystemMessage "Chat history cleared" c), calls).

(** Lines 479-497. *)
Definition _loadHistory c : chat * list call :=
  (suspend LoadHistory_loadHistory c, [loadHistory (_currentUrl c)]).

Definition _loadHistory_settled (i : nat) (r : result) c
  : option (chat * list call) :=
  match r with
  | Fulfilled (FHistory messages) =>
      let c :=
        if (0 <? length messages)%nat then
          foldl (fun c (msg : Protocol.turn) =>
                   (_addMessage (Protocol.role msg) (Protocol.content msg) c).1)
                (set_container [] false c) messages
        else c in
      Some (park i Finished c, [])
  | Rejected _ => Some (park i Finished c, [])
  | Fulfilled _ => None
  end.

(** Lines 454-462. *)
Definition onTabActivated c : chat * list call :=
  match _currentUrl c with
  | Some (String _ _) => _loadHistory c
  | _ => (c, [])
  end.

(** Lines 468-473. *)
Definition setUrl (url : option string) c : chat * list call :=
  if decide (_currentUrl c = url) then (c, [])
  else _loadHistory (set_url url c).

(** Lines 437-449, without the context line of the page. *)
Definition updateContext (context : value) c : chat :=
  set_context context (_getAppInfo c) c.

(** What can happen to the component in one turn. *)
Inductive event :=
| Init                                        (* the constructor's init() *)
| Send (userMessage : string) (hasActiveSession : bool)
    (* a click on Send, or Ctrl+Enter: the trimmed text of the input, and
       what [hasActiveSession()] answers *)
| DownloadClicked
| ClearClicked (confirmed : bool)
| TabActivated
| SetUrl (url : option string)
| UpdateContext (context : value)
| AppInfo (v : value)                         (* what getAppInfo() returns changes *)
| Settle (i : nat) (r : result)               (* the promise task [i] awaits settles *)
| Progress (i : nat) (progress : float)       (* the download of task [i] progresses *)
| Destroy.

Definition resume (i : nat) (r : result) c : option (chat * list call) :=
  match tasks c !! i with
  | Some CheckModelAvailability_checkAvailability =>
      _checkModelAvailability_settled i r c
  | Some DownloadModel_downloadModel =>
      Some (_handleDownloadModel_downloadModel i r c)
  | Some DownloadModel_initializeSession =>
      let '(c, calls) := _initializeSession_settled r c in
      Some (park i Finished c, calls)
  | Some (SendMessage_initializeSession userMessage) =>
      let '(c, calls) := _initializeSession_settled r c in
      let '(c, calls') := _handleSendMessage_send (Some i) userMessage c in
      Some (c, calls ++ calls')
  | Some (SendMessage_saveMessage userMessage) =>
      Some (_handleSendMessage_saveMessage i userMessage r c)
  | Some SendMessage_promptStreaming =>
      Some (_handleSendMessage_promptStreaming i r c)
  | Some (SendMessage_next fullResponse) =>
      _handleSendMessage_next i fullResponse r c
  | Some SendMessage_saveResponse =>
      Some (_handleSendMessage_saveResponse i r c)
  | Some ClearHistory_clearHistory =>
      Some (_handleClearHistory_clearHistory i r c)
  | Some ClearHistory_initializeSession =>
      Some (_handleClearHistory_initializeSession i r c)
  | Some UpdateTokenCounter_getUsageInfo => _updateTokenCounter_settled i r c
  | Some LoadHistory_loadHistory => _loadHistory_settled i r c
  | Some Finished | None => None
  end.

Definition step c (e : event) : option (chat * list call) :=
  match e with
  | Init => Some (_checkModelAvailability c)
  | Send userMessage hasActiveSession =>
      Some (_handleSendMessage userMessage hasActiveSession c)
  | DownloadClicked => Some (_handleDownloadModel c)
  | ClearClicked confirmed => Some (_handleClearHistory confirmed c)
  | TabActivated => Some (onTabActivated c)
  | SetUrl url => Some (setUrl url c)
  | UpdateContext context => Some (updateContext context c, [])
  | AppInfo v =>
      match _getAppInfo c with
      | Some _ => Some (set_context (_currentContext c) (Some v) c, [])
      | None => None
      end
  | Settle i r => resume i r c
  | Progress i progress =>
      match tasks c !! i with
      | Some DownloadModel_downloadModel => Some (onProgress progress c, [])
      | _ => None
      end
  | Destroy => Some (c, [destroy])
  end.

Fixpoint run c (es : list event) : option (chat * list call) :=
  match es with
  | [] => Some (c, [])
  | e :: es =>
      '(c', calls) ← step c e;
      '(c'', calls') ← run c' es;
      Some (c'', calls ++ calls')
  end.

(** *** What the properties speak of *)

(** The user's turn and the placeholder of the answer. *)
Definition user_turn (userMessage : string) : Protocol.turn :=
  {| Protocol.role := "user"; Protocol.content := userMessage |}.

Definition assistant_turn (content : string) : Protocol.turn :=
  {| Protocol.role := "assistant"; Protocol.content := content |}.

Definition system_turn (content : string) : Protocol.turn :=
  {| Protocol.role := "system"; Protocol.content := content |}.

(** The element that [_addMessage] makes for a turn. *)
Definition element_of (t : Protocol.turn) : element :=
  {| element_role := Protocol.role t; textContent := Protocol.content t |}.

(** The context object of lines 248-251. *)
Definition prompt_context c : value :=
  VObject [("control",
            if truthy (_currentContext c)
            then get (_currentContext c) "control" else VNull);
           ("appInfo",
            match _getAppInfo c with
            | Some v => v
            | None =>
                if truthy (_currentContext c)
                then get (_currentContext c) "appInfo" else VNull
            end)].

(** Whether the context names a control. *)
Definition control_selected c : bool :=
  truthy (_currentContext c) && truthy (get (_currentContext c) "control").

(** What the manager reads in the context object: [context ?
context.appInfo : null] of [_buildMessagesArray], and the first lines of
[_formatPrompt] (AISessionManager.js, 208-211); [with_control] stands for
the text that lines 213-226 make when there is a control. *)
Definition context_appInfo (context : value) : option value :=
  if truthy context then Some (get context "appInfo") else None.

Definition _formatPrompt (with_control : string -> value -> string)
    (prompt : string) (context : option value) : string :=
  match context with
  | Some ctx =>
      if negb (truthy ctx) || negb (truthy (get ctx "control")) then prompt
      else with_control prompt ctx
  | None => prompt
  end.

(** The turns that [_initializeSession] leaves in [_messages]. *)
Definition initializeSession_turns (r : result) : list Protocol.turn :=
  match r with
  | Fulfilled _ => []
  | Rejected msg => [system_turn ("Error initializing session: " +:+ msg)]
  end.

(** The elements in the messages container, in order. *)
Definition shown c : list element :=
  omap (fun e => elements c !! e) (container c).

(** The fragments put together, as [fullResponse += chunk] does. *)
Definition joined (chunks : list string) : string :=
  foldl String.append EmptyString chunks.

(** One exchange as task [i], from the click to the saved answer: the
user's message is saved, the stream arrives, hands over [chunks] and
ends, and the answer is saved. *)
Definition exchange (i : nat) (userMessage : string) (chunks : list string)
  : list event :=
  [Send userMessage true; Settle i (Fulfilled FVoid);
   Settle i (Fulfilled FStream)]
  ++ map (fun chunk => Settle i (Fulfilled (FYield chunk))) chunks
  ++ [Settle i (Fulfilled FDone); Settle i (Fulfilled FVoid)].

(** A download as task [i]: the click, the progress reports, the end of
the download, and the outcome [r] of the session that is made next. *)
Definition download (i : nat) (progress : list float) (r : result)
  : list event :=
  [DownloadClicked]
  ++ map (Progress i) progress
  ++ [Settle i (Fulfilled FVoid); Settle i r].

(** The tab is activated [n] times, from task [i] on, and each time the
storage answers with [messages]. *)
Fixpoint activations (i n : nat) (messages : list Protocol.turn) : list event :=
  match n with
  | 0 => []
  | S n => TabActivated :: Settle i (Fulfilled (FHistory messages))
           :: activations (S i) n messages
  end.

(** A component for the page of [url], with nothing in flight. *)
Definition idle (url : string) (messages : list Protocol.turn) : chat :=
  {| _currentUrl := Some url; _currentContext := VNull; _messages := messages;
     _isStreaming := false; _streamingMessageElement := None;
     _getAppInfo := None;
     elements := map element_of messages;
     container := seq 0 (length messages); welcome := false;
     token_counter := {| counter_text := None; warning := false |};
     status_banner := {| status := "ready";
                         status_text := Text "Gemini Nano is ready";
                         download_shown := false; download_disabled := false |};
     tasks := [] |}.

End AIChat.

(** * Properties of the background script *)

Module BackgroundFacts.
Import Protocol Background.

Implicit Types (σ : server) (port : nat).

(** ** The module variable never refers to an aborted controller

Every [abort()] in the script is followed, in the same turn, by an
assignment to [promptAPIController]: of a fresh controller (lines 266
and 343) or of [null] (line 415).  So at the start of every turn the
variable is [null] or refers to a controller that is not aborted. *)

Lemma controller_fresh_init supported : controller_fresh (init supported).
Proof. intros c Hc. discriminate Hc. Qed.

Lemma controller_fresh_handleCheckAvailability σ port :
  controller_fresh σ → controller_fresh (handleCheckAvailability port σ).1.
Proof. unfold handleCheckAvailability. by case_match. Qed.

Lemma controller_fresh_handleDownloadModel σ port :
  controller_fresh σ → controller_fresh (handleDownloadModel port σ).1.
Proof.
  intros Hσ. unfold handleDownloadModel. case_match; [done|].
  intros c. cbn. intros [= <-].
  rewrite lookup_app_r by (destruct (promptAPIController σ); cbn; lia).
  by rewrite Nat.sub_diag.
Qed.

Lemma controller_fresh_handleCreateSession σ port :
  controller_fresh σ → controller_fresh (handleCreateSession port σ).1.
Proof.
  intros Hσ. unfold handleCreateSession. case_match; [done|].
  intros c Hc. destruct (promptAPISession σ); cbn in *;
    apply lookup_app_l_Some; by apply Hσ.
Qed.

Lemma controller_fresh_handlePromptStreaming σ port :
  controller_fresh σ → controller_fresh (handlePromptStreaming port σ).1.
Proof.
  intros Hσ. unfold handlePromptStreaming. case_match; [|done].
  intros c. cbn. intros [= <-].
  rewrite lookup_app_r by (destruct (promptAPIController σ); cbn; lia).
  by rewrite Nat.sub_diag.
Qed.

Lemma controller_fresh_handleGetUsageInfo σ port :
  controller_fresh σ → controller_fresh (handleGetUsageInfo port σ).1.
Proof. unfold handleGetUsageInfo. by case_match. Qed.

Lemma controller_fresh_handleDestroySession σ port :
  controller_fresh σ → controller_fresh (handleDestroySession port σ).1.
Proof.
  intros Hσ c. unfold handleDestroySession.
  destruct (promptAPISession σ), (promptAPIController σ) eqn:E; cbn;
    rewrite ?E; try discriminate; apply Hσ.
Qed.

Lemma controller_fresh_onMessage σ port message :
  controller_fresh σ → controller_fresh (onMessage port message σ).1.
Proof.
  intros Hσ. unfold onMessage.
  repeat case_match;
    eauto using controller_fresh_handleCheckAvailability,
      controller_fresh_handleDownloadModel,
      controller_fresh_handleCreateSession,
      controller_fresh_handlePromptStreaming,
      controller_fresh_handleGetUsageInfo,
      controller_fresh_handleDestroySession.
Qed.

(** A resumed handler touches [promptAPIController] only to clear it, and
never the controllers. *)
Lemma resume_controller σ i r σ' out :
  resume i r σ = Some (σ', out) →
  controllers σ' = controllers σ ∧
  (promptAPIController σ' = promptAPIController σ ∨ promptAPIController σ' = None).
Proof.
  unfold resume, handleCheckAvailability_settled,
    handleDownloadModel_availability, handleDownloadModel_create,
    handleCreateSession_availability, handleCreateSession_create,
    handlePromptStreaming_stream, handlePromptStreaming_next,
    handlePromptStreaming_after_loop, handlePromptStreaming_catch,
    initPromptAPISession_availability, initPromptAPISession_create.
  intros H. repeat (case_match; simplify_eq/=); auto.
Qed.

Lemma controller_fresh_step σ e σ' out :
  step σ e = Some (σ', out) → controller_fresh σ → controller_fresh σ'.
Proof.
  destruct e as [port message|i r|i loaded]; cbn.
  - intros [= H] Hσ.
    pose proof (controller_fresh_onMessage σ port message Hσ) as Hfresh.
    by rewrite H in Hfresh.
  - intros H Hσ c Hc. apply resume_controller in H as [-> [Heq|Heq]].
    + apply Hσ. by rewrite <- Heq.
    + congruence.
  - intros H Hσ. by repeat (case_match; simplify_eq/=).
Qed.

Lemma controller_fresh_run es : ∀ σ σ' out,
  run σ es = Some (σ', out) → controller_fresh σ → controller_fresh σ'.
Proof.
  induction es as [|e es IH]; intros σ σ' out; cbn.
  - by intros [= <- <-].
  - destruct (step σ e) as [[σ1 out1]|] eqn:Hstep; [cbn|done].
    destruct (run σ1 es) as [[σ2 out2]|] eqn:Hrun; [cbn|done].
    intros [= <- <-] Hσ. eauto using controller_fresh_step.
Qed.

Lemma controller_fresh_reachable σ : reachable σ → controller_fresh σ.
Proof.
  intros (supported & es & out & Hrun).
  eapply controller_fresh_run; [done|apply controller_fresh_init].
Qed.

(** The test of lines 352 and 362 therefore never finds an aborted
signal: in a reachable state it reads [false], or fails on [null]. *)
Lemma abort_test_never_true σ :
  reachable σ → promptAPIController_signal_aborted σ ≠ Some true.
Proof.
  intros Hσ%controller_fresh_reachable.
  unfold promptAPIController_signal_aborted, aborted.
  destruct (promptAPIController σ) as [c|] eqn:Hc; cbn; [|done].
  by rewrite (Hσ c Hc).
Qed.

(** A streaming handler whose controller was replaced goes on as if
nothing had happened: whatever its own signal says, it forwards the
next fragment, and reports the end of the stream. *)
Lemma stream_ignores_own_signal σ i port c v :
  reachable σ →
  tasks σ !! i = Some (PromptStreaming_next port c) →
  is_Some (promptAPIController σ) →
  step σ (Settle i (Fulfilled (PFragment v))) = Some (σ, [(port, chunk v)]) ∧
  ∃ σ', step σ (Settle i (Fulfilled PEnd)) = Some (σ', [(port, complete)]).
Proof.
  intros Hσ Hi [g Hg]. pose proof (abort_test_never_true σ Hσ) as Hdead.
  cbn. unfold resume. rewrite Hi. cbn.
  unfold handlePromptStreaming_after_loop.
  unfold promptAPIController_signal_aborted in *. rewrite Hg in *. cbn in *.
  destruct (aborted σ g); [done|]. eauto.
Qed.

(** C3: a prompt-streaming operation whose controller was aborted by a
second prompt-streaming request posts no further chunk and no
complete.  The script does not do this: in the scenario below the
first operation (task 1) has an aborted signal, and still posts the
next fragment as a chunk and, at the end of its stream, complete. *)
Lemma aborted_stream_posts_chunk_and_complete :
  ∃ σ out σ',
    run (init true) second_prompt_mid_stream = Some (σ, out) ∧
    tasks σ !! 1 = Some (PromptStreaming_next 0 1) ∧
    aborted σ 1 = true ∧
    step σ (Settle 1 (Fulfilled (PFragment (Js.VString "x"))))
      = Some (σ, [(0, chunk (Js.VString "x"))]) ∧
    step σ (Settle 1 (Fulfilled PEnd)) = Some (σ', [(0, complete)]).
Proof.
  do 3 eexists. split; [vm_compute; reflexivity|].
  repeat split; vm_compute; reflexivity.
Qed.

(** C4: the script holds at most one live session handle after every
handler.  The script does not do this: download-model assigns the handle
it creates to [promptAPISession] without destroying the one that
create-session left there; both handles are live afterwards. *)
Lemma download_model_leaks_session :
  ∃ σ,
    run (init true) download_after_create
      = Some (σ, [(0, session_created); (0, download_complete)]) ∧
    promptAPISession σ = Some 1 ∧
    live_sessions σ = [0; 1].
Proof. eexists. split; [vm_compute; reflexivity|]. split; reflexivity. Qed.

(** Two overlapping create-session requests leak a handle in the same
way: each finds [promptAPISession] empty when it starts, and the second to
finish overwrites the handle of the first. *)
Lemma overlapping_create_sessions_leak :
  ∃ σ,
    run (init true) overlapping_create_sessions
      = Some (σ, [(0, session_created); (0, session_created)]) ∧
    promptAPISession σ = Some 1 ∧
    live_sessions σ = [0; 1].
Proof. eexists. split; [vm_compute; reflexivity|]. split; reflexivity. Qed.

(** C5: at most one controller that is not aborted belongs to an
operation in flight.  The script does not do this: when the first,
aborted stream ends, its [finally] clears [promptAPIController], which
by then refers to the controller of the second operation; the third
operation finds nothing to abort, and the second and the third run
side by side, neither aborted. *)
Lemma finally_clears_successor_controller :
  ∃ σ1 out1 σ2 out2 σ3 out3,
    run (init true) second_prompt_mid_stream = Some (σ1, out1) ∧
    promptAPIController σ1 = Some 2 ∧
    step σ1 (Settle 1 (Rejected "The operation was aborted.")) = Some (σ2, out2) ∧
    promptAPIController σ2 = None ∧
    active_controllers σ2 = [2] ∧
    step σ2 (Message 0 (request_of "prompt-streaming")) = Some (σ3, out3) ∧
    active_controllers σ3 = [2; 3] ∧
    run (init true) third_prompt_after_abort
      = Some (σ3, out1 ++ out2 ++ out3).
Proof.
  do 6 eexists. split; [vm_compute; reflexivity|].
  repeat split; vm_compute; reflexivity.
Qed.

(** ** One request, run to its end *)

Lemma lookup_suspend t σ : tasks (suspend t σ) !! length (tasks σ) = Some t.
Proof. cbn. rewrite lookup_app_r by lia. by rewrite Nat.sub_diag. Qed.

Lemma lookup_park (i : nat) t σ :
  (i < length (tasks σ))%nat → tasks (park i t σ) !! i = Some t.
Proof. intros Hi. cbn. by apply list_lookup_insert_eq. Qed.

Lemma resume_Finished (i : nat) r σ :
  tasks σ !! i = Some Finished → resume i r σ = None.
Proof. unfold resume. by intros ->. Qed.

Lemma resume_beyond (i : nat) r σ :
  (length (tasks σ) ≤ i)%nat → resume i r σ = None.
Proof. unfold resume. intros Hi. by rewrite lookup_ge_None_2. Qed.

Lemma availability_status_known a :
  (availability_status a).1 ∈ ["ready"; "needs-download"; "downloading"; "unavailable"].
Proof. unfold availability_status. repeat case_match; cbn; set_unfold; tauto. Qed.

Lemma availability_status_unknown a :
  a ∉ known_availability →
  availability_status a
  = ("unavailable",
     "Gemini Nano status unknown. Availability returned: " +:+ dquote +:+ a +:+ dquote).
Proof.
  unfold availability_status, known_availability. intros Ha.
  repeat case_match; try done;
    match goal with H : String.eqb _ _ = true |- _ => apply String.eqb_eq in H end;
    subst; set_unfold; tauto.
Qed.

(** C6: a check-availability request is answered by exactly one
[availability] message, whose status is one of ready, needs-download,
downloading, unavailable and error.  Without the Prompt API the answer
is unavailable, at once.  Otherwise it comes when the provider's query
settles: an answer of the provider gives one of the first four
statuses, an answer the script does not know gives unavailable with a
message that quotes it, and a failure of the query gives error.  The
handler has ended then and posts nothing more. *)
Theorem check_availability_one_message σ port (o : string + string) :
  ∃ σ' status message,
    run σ (Message port (request_of "check-availability")
           :: (if LanguageModel_in_self σ
               then [Settle (length (tasks σ)) (availability_settles o)]
               else []))
      = Some (σ', [(port, availability status message)]) ∧
    (∀ r, resume (length (tasks σ)) r σ' = None) ∧
    status ∈ statuses ∧
    match LanguageModel_in_self σ, o with
    | false, _ => status = "unavailable"
    | true, inr msg => status = "error" ∧ message = "Error: " +:+ msg
    | true, inl a =>
        (status, message) = availability_status a ∧
        status ∈ ["ready"; "needs-download"; "downloading"; "unavailable"] ∧
        (a ∉ known_availability →
         status = "unavailable" ∧
         message = "Gemini Nano status unknown. Availability returned: "
                     +:+ dquote +:+ a +:+ dquote)
    end.
Proof.
  unfold run, step, onMessage, handleCheckAvailability. cbn.
  destruct (LanguageModel_in_self σ) eqn:Hsup; cbn.
  - unfold resume. rewrite lookup_suspend. cbn.
    assert (Hlen : length (tasks σ) < length (tasks σ ++
              [CheckAvailability_availability port])).
    { rewrite length_app. cbn. lia. }
    destruct o as [a|msg]; cbn.
    + destruct (availability_status a) as [status message] eqn:Ha. cbn.
      exists (park (length (tasks σ)) Finished
                (suspend (CheckAvailability_availability port) σ)),
        status, message.
      split; [done|]. split.
      { intros r. apply resume_Finished. by apply lookup_park. }
      pose proof (availability_status_known a) as Hknown.
      rewrite Ha in Hknown. cbn in Hknown.
      split; [unfold statuses; set_unfold; tauto|].
      split; [done|]. split; [done|].
      intros Hunknown%availability_status_unknown.
      rewrite Ha in Hunknown. by injection Hunknown as -> ->.
    + eexists _, _, _. split; [done|]. split.
      { intros r. apply resume_Finished. by apply lookup_park. }
      split; [unfold statuses; set_unfold; tauto|done].
  - eexists _, _, _. split; [done|]. split.
    { intros r. by apply resume_beyond. }
    split; [unfold statuses; set_unfold; tauto|done].
Qed.

(** The turn in which a create-session fails posts [error] and assigns
neither [promptAPISession] nor a handle, whatever happened since the
request. *)
Lemma create_session_failure_step σ (i : nat) port c r msg σ' out :
  (tasks σ !! i = Some (CreateSession_availability port c) ∧
   initPromptAPISession_availability r = Some (inl msg)) ∨
  (tasks σ !! i = Some (CreateSession_create port c) ∧
   initPromptAPISession_create r = Some (inl msg)) →
  resume i r σ = Some (σ', out) →
  out = [(port, error msg)] ∧
  promptAPISession σ' = promptAPISession σ ∧
  sessions σ' = sessions σ.
Proof.
  unfold resume, handleCreateSession_availability, handleCreateSession_create.
  intros [[-> ->]|[-> ->]]; by intros [= <- <-].
Qed.

(** C8: when a session exists and the provider fails a create-session
(in any of the three ways), the handler has destroyed the old handle,
posts [error] with the provider's message, creates no handle and leaves
[promptAPISession] empty: the old session is not restored. *)
Theorem create_session_failure_leaves_no_session σ port s rs msg :
  LanguageModel_in_self σ = true →
  promptAPISession σ = Some s →
  create_failure rs msg →
  ∃ σ',
    run σ (Message port (request_of "create-session")
           :: map (Settle (length (tasks σ))) rs)
      = Some (σ', [(port, error msg)]) ∧
    promptAPISession σ' = None ∧
    sessions σ' = alter destroy_handle s (sessions σ) ∧
    (∀ h, sessions σ !! s = Some h →
          sessions σ' !! s = Some (destroy_handle h)) ∧
    (∀ r, resume (length (tasks σ)) r σ' = None).
Proof.
  intros Hsup Hs Hfail.
  assert (Hlen : ∀ t : task, length (tasks σ) < length (tasks σ ++ [t])).
  { intros t. rewrite length_app. cbn. lia. }
  unfold run, step, onMessage, handleCreateSession. cbn.
  rewrite Hsup, Hs. cbn.
  destruct Hfail as [msg| |a msg Ha]; cbn;
    unfold resume; cbn;
    (rewrite lookup_app_r by lia); rewrite Nat.sub_diag; cbn.
  - eexists. split; [done|]. cbn. repeat split; try done.
    + intros h Hh. by rewrite list_lookup_alter_eq, Hh.
    + intros r. by rewrite list_lookup_insert_eq by apply Hlen.
  - eexists. split; [done|]. cbn. repeat split; try done.
    + intros h Hh. by rewrite list_lookup_alter_eq, Hh.
    + intros r. by rewrite list_lookup_insert_eq by apply Hlen.
  - unfold handleCreateSession_availability, initPromptAPISession_availability.
    rewrite Ha. cbn. rewrite list_lookup_insert_eq by done. cbn.
    eexists. split; [done|]. cbn. repeat split; try done.
    + intros h Hh. by rewrite list_lookup_alter_eq, Hh.
    + intros r.
      by rewrite list_lookup_insert_eq by (rewrite length_insert; apply Hlen).
Qed.

Lemma one_session_reachable :
  run (init true) session_is_created = Some (one_session, [(0, session_created)]).
Proof. reflexivity. Qed.

Lemma create_session_failure_witness :
  ∃ σ',
    run one_session
        (Message 0 (request_of "create-session")
         :: map (Settle 1) [Fulfilled (PAvailability "available");
                            Rejected "The device is not eligible."])
      = Some (σ', [(0, error "The device is not eligible.")]) ∧
    promptAPISession σ' = None ∧
    sessions σ' = alter destroy_handle 0 (sessions one_session) ∧
    (∀ h, sessions one_session !! 0 = Some h →
          sessions σ' !! 0 = Some (destroy_handle h)) ∧
    (∀ r, resume 1 r σ' = None).
Proof.
  apply (create_session_failure_leaves_no_session one_session 0 0 _ _
           eq_refl eq_refl
           (create_rejects "available" "The device is not eligible." eq_refl)).
Defined.

(** ** What the handlers do get right *)

(** X9: a create-session that the provider serves, run with no other
turn in between, destroys the handle it finds in [promptAPISession], posts
[session-created], and [promptAPISession] then holds the new handle, which
is the only one added. *)
Lemma create_session_success_replaces σ port s a usage quota :
  LanguageModel_in_self σ = true →
  promptAPISession σ = Some s →
  String.eqb a "unavailable" = false →
  ∃ σ',
    run σ (Message port (request_of "create-session")
           :: map (Settle (length (tasks σ)))
                [Fulfilled (PAvailability a); Fulfilled (PSession usage quota)])
      = Some (σ', [(port, session_created)]) ∧
    promptAPISession σ' = Some (length (sessions σ)) ∧
    sessions σ'
    = (alter destroy_handle s (sessions σ) ++
       [{| destroyed := false; session_inputUsage := usage;
           session_inputQuota := quota |}]).
Proof.
  intros Hsup Hs Ha.
  assert (Hlen : ∀ t : task, length (tasks σ) < length (tasks σ ++ [t])).
  { intros t. rewrite length_app. cbn. lia. }
  unfold run, step, onMessage, handleCreateSession. cbn.
  rewrite Hsup, Hs. cbn. unfold resume; cbn.
  (rewrite lookup_app_r by lia); rewrite Nat.sub_diag; cbn.
  unfold handleCreateSession_availability, initPromptAPISession_availability.
  rewrite Ha. cbn. rewrite list_lookup_insert_eq by done. cbn.
  eexists. split; [done|]. cbn. by rewrite length_alter.
Qed.

(** A cancelable operation that starts aborts the controller that
[promptAPIController] refers to, and puts a fresh one in its place. *)
Lemma download_model_aborts_previous σ port c :
  LanguageModel_in_self σ = true →
  promptAPIController σ = Some c →
  is_Some (controllers σ !! c) →
  let σ' := (handleDownloadModel port σ).1 in
  aborted σ' c = true ∧
  promptAPIController σ' = Some (length (controllers σ)) ∧
  aborted σ' (length (controllers σ)) = false.
Proof.
  intros Hsup Hc Hin. apply lookup_lt_is_Some in Hin.
  unfold handleDownloadModel, aborted. rewrite Hsup, Hc. cbn.
  rewrite length_insert. split; [|split; [done|]].
  - rewrite lookup_app_l by (by rewrite length_insert).
    by rewrite list_lookup_insert_eq.
  - rewrite lookup_app_r by (rewrite length_insert; lia).
    by rewrite length_insert, Nat.sub_diag.
Qed.

Lemma prompt_streaming_aborts_previous σ port c :
  is_Some (promptAPISession σ) →
  promptAPIController σ = Some c →
  is_Some (controllers σ !! c) →
  let σ' := (handlePromptStreaming port σ).1 in
  aborted σ' c = true ∧
  promptAPIController σ' = Some (length (controllers σ)) ∧
  aborted σ' (length (controllers σ)) = false.
Proof.
  intros [s Hs] Hc Hin. apply lookup_lt_is_Some in Hin.
  unfold handlePromptStreaming, aborted. rewrite Hs, Hc. cbn.
  rewrite length_insert. split; [|split; [done|]].
  - rewrite lookup_app_l by (by rewrite length_insert).
    by rewrite list_lookup_insert_eq.
  - rewrite lookup_app_r by (rewrite length_insert; lia).
    by rewrite length_insert, Nat.sub_diag.
Qed.


End BackgroundFacts.

(** * Properties of the session manager *)

Module AISessionManagerFacts.
Import Js AISessionManager.

Implicit Types (st : stream) (m : manager).

(** ** The generator *)

Lemma loop_Yields isComplete error chunkPromises chunk rest :
  loop isComplete error chunkPromises = (Yields chunk, rest) →
  truthy chunk = true.
Proof.
  induction chunkPromises as [|v l IH]; cbn.
  - by repeat case_match.
  - repeat case_match; intros [= ]; subst; auto.
Qed.

Lemma loop_Parks isComplete error chunkPromises rest :
  loop isComplete error chunkPromises = (Parks, rest) →
  rest = [] ∧ isComplete = false ∧ error = None.
Proof.
  induction chunkPromises as [|v l IH]; cbn.
  - destruct isComplete, error; cbn; try done. by intros [= <-].
  - destruct isComplete, error as [msg|]; cbn; try done.
    by repeat case_match.
Qed.

Lemma fragments_deliver r g st :
  fragments (deliver r g st)
  = (fragments st ++ match r with Yielded v => [v] | _ => [] end).
Proof. unfold fragments. cbn. rewrite omap_app. by destruct r. Qed.

Lemma stream_ok_new : stream_ok new_stream.
Proof. split; [done|]. by apply Forall_nil. Qed.

Lemma stream_ok_deliver r g st :
  fragments_truthy st →
  g ≠ AwaitingChunk →
  match r with Yielded v => truthy v = true | _ => True end →
  stream_ok (deliver r g st).
Proof.
  intros Hst Hg Hr. split; [done|].
  unfold fragments_truthy. rewrite fragments_deliver.
  apply Forall_app. split; [done|]. destruct r; by repeat constructor.
Qed.

Lemma stream_ok_finish st : fragments_truthy st → stream_ok (finish st).
Proof. intros Hst. unfold finish. case_match; by apply stream_ok_deliver. Qed.

Lemma stream_ok_run_loop st : fragments_truthy st → stream_ok (run_loop st).
Proof.
  intros Hst. unfold run_loop.
  destruct (loop _ _ _) as [[|chunk|] rest] eqn:Hloop.
  - apply loop_Parks in Hloop as (-> & Hc & He). by split.
  - apply loop_Yields in Hloop. by apply stream_ok_deliver.
  - by apply stream_ok_finish.
Qed.

Lemma stream_ok_next st st' : stream_ok st → next st = Some st' → stream_ok st'.
Proof.
  intros [Hp Hf]. unfold next. case_match; intros [= <-].
  - by apply stream_ok_run_loop.
  - by apply stream_ok_run_loop.
  - by apply stream_ok_deliver.
Qed.

Lemma stream_ok_fulfil chunk st :
  fragments_truthy st → parked_ok st → stream_ok (fulfil chunk st).
Proof.
  intros Hf Hp. unfold fulfil. case_match; try by split.
  repeat case_match.
  - by apply stream_ok_finish.
  - by apply stream_ok_deliver.
  - by apply stream_ok_run_loop.
Qed.

Lemma stream_ok_chunkHandler content st :
  stream_ok st → stream_ok (chunkHandler content st).
Proof.
  intros [Hp Hf]. unfold chunkHandler. destruct (resolveChunk st) eqn:Hr.
  - unfold fulfil. cbn. destruct (generator st) eqn:Hg; try (split; [by intros ?|done]).
    repeat case_match.
    + by apply (stream_ok_finish).
    + by apply stream_ok_deliver.
    + by apply stream_ok_run_loop.
  - split; [|done]. intros Hg. cbn in Hg. destruct (Hp Hg) as (_ & _ & _ & ? & _).
    congruence.
Qed.

Lemma stream_ok_completeHandler st :
  stream_ok st → stream_ok (completeHandler st).
Proof.
  intros [Hp Hf]. unfold completeHandler. destruct (resolveChunk st) eqn:Hr.
  - unfold fulfil. cbn. destruct (generator st) eqn:Hg; try (split; [by intros ?|done]).
    by apply (stream_ok_finish).
  - split; [|done]. intros Hg. cbn in Hg. destruct (Hp Hg) as (_ & _ & _ & ? & _).
    congruence.
Qed.

Lemma stream_ok_errorHandler msg st :
  stream_ok st → stream_ok (errorHandler msg st).
Proof.
  intros [Hp Hf]. unfold errorHandler. destruct (rejectChunk st) eqn:Hr.
  - unfold reject. cbn. destruct (generator st) eqn:Hg; try (split; [by intros ?|done]).
    by apply stream_ok_deliver.
  - split; [|done]. intros Hg. cbn in Hg. destruct (Hp Hg) as (_ & _ & _ & _ & ?).
    congruence.
Qed.

(** ** A consumer that keeps up

With a consumer that pulls as soon as it has a fragment, every chunk finds
the generator waiting, nothing is ever buffered, and the fragments add up
to the chunks. *)

Lemma append_assoc (a b c : string) : (a +:+ b) +:+ c = a +:+ (b +:+ c).
Proof.
  induction a as [|x a IH]; [done|].
  change (String x ((a +:+ b) +:+ c) = String x (a +:+ (b +:+ c))).
  by rewrite IH.
Qed.

Lemma concatenation_app (l1 l2 : list value) :
  concatenation (l1 ++ l2) = concatenation l1 +:+ concatenation l2.
Proof.
  induction l1 as [|v l1 IH]; cbn; [done|].
  destruct v; try done. by rewrite IH, append_assoc.
Qed.

Lemma append_empty (s : string) : s +:+ EmptyString = s.
Proof.
  induction s as [|x s IH]; [done|].
  change (String x (s +:+ EmptyString) = String x s). by rewrite IH.
Qed.

Lemma eager_chunk_string (s : string) st :
  generator st = AwaitingChunk →
  parked_ok st →
  ∃ st',
    eager_chunk (VString s) st = Some st' ∧
    generator st' = AwaitingChunk ∧
    parked_ok st' ∧
    chunkPromises st' = [] ∧
    concatenation (fragments st') = concatenation (fragments st) +:+ s.
Proof.
  intros Hg Hp. destruct (Hp Hg) as (Hbuf & Hc & He & Hres & Hrej).
  destruct st as [sh buf res rej c e g d]. cbn in *. subst.
  unfold eager_chunk, chunkHandler, fulfil. cbn.
  destruct s as [|x s]; cbn.
  - eexists. split; [done|]. repeat split; try done.
    cbn. by rewrite append_empty.
  - eexists. split; [done|]. repeat split; try done.
    unfold fragments. cbn. rewrite omap_app. cbn.
    rewrite concatenation_app. cbn. by rewrite append_empty.
Qed.

Lemma eager_chunks_strings (ss : list string) : ∀ st,
  generator st = AwaitingChunk →
  parked_ok st →
  ∃ st',
    eager_chunks (map VString ss) st = Some st' ∧
    generator st' = AwaitingChunk ∧
    parked_ok st' ∧
    chunkPromises st' = [] ∧
    concatenation (fragments st')
    = concatenation (fragments st) +:+ concatenation (map VString ss).
Proof.
  induction ss as [|s ss IH]; intros st Hg Hp.
  - exists st. do 3 (split; [done|]). split; [by apply Hp|].
    cbn. by rewrite append_empty.
  - destruct (eager_chunk_string s st Hg Hp) as (st1 & H1 & Hg1 & Hp1 & _ & Hf1).
    destruct (IH st1 Hg1 Hp1) as (st2 & H2 & Hg2 & Hp2 & Hb2 & Hf2).
    exists st2. cbn. rewrite H1. cbn. do 4 (split; [done|]).
    by rewrite Hf2, Hf1, append_assoc.
Qed.

(** From the first pull to [complete]: the consumer gets the text of the
chunks, nothing stays in the buffer, and the iteration ends with done. *)
Lemma eager_consumer_gets_all (ss : list string) :
  ∃ st0 st1,
    next new_stream = Some st0 ∧
    eager_chunks (map VString ss) st0 = Some st1 ∧
    let st2 := completeHandler st1 in
    generator st2 = Completed ∧
    chunkPromises st2 = [] ∧
    last (delivered st2) = Some Done ∧
    concatenation (fragments st2) = concatenation (map VString ss).
Proof.
  eexists. 
  destruct (eager_chunks_strings ss (run_loop
              {| streamHandlers := true; chunkPromises := [];
                 resolveChunk := false; rejectChunk := false;
                 isComplete := false; error := None;
                 generator := SuspendedStart; delivered := [] |}))
    as (st1 & H1 & Hg1 & Hp1 & Hb1 & Hf1); [done|done|].
  exists st1. split; [done|]. split; [done|].
  destruct (Hp1 Hg1) as (_ & Hc & He & Hres & Hrej).
  destruct st1 as [sh buf res rej c e g d]. cbn in *. subst.
  unfold completeHandler, fulfil, finish. cbn.
  repeat split; try done.
  - by rewrite last_snoc.
  - unfold fragments in *. cbn. rewrite omap_app. cbn.
    by rewrite app_nil_r.
Qed.

(** ** The manager *)

(** What the plumbing leaves alone. *)
Lemma streams_settle p r m : streams (settle p r m) = streams m.
Proof. unfold settle. by repeat case_match. Qed.

Lemma streams_connect m : streams (_connect m) = streams m.
Proof. unfold _connect. by case_match. Qed.

Lemma streams_send message m : streams (_send message m) = streams m.
Proof. unfold _send. case_match; cbn; by rewrite streams_connect. Qed.

Lemma posted_settle p r m : posted (settle p r m) = posted m.
Proof. unfold settle. by repeat case_match. Qed.

Lemma posted_connect m : posted (_connect m) = posted m.
Proof. unfold _connect. by case_match. Qed.

Lemma messageHandlers_settle p r m :
  _messageHandlers (settle p r m) = _messageHandlers m.
Proof. unfold settle. by repeat case_match. Qed.

Lemma messageHandlers_connect m :
  _messageHandlers (_connect m) = _messageHandlers m.
Proof. unfold _connect. by case_match. Qed.

Lemma messageHandlers_send message m :
  _messageHandlers (_send message m) = _messageHandlers m.
Proof. unfold _send. case_match; cbn; by rewrite messageHandlers_connect. Qed.

Lemma hasActiveSession_settle p r m :
  _hasActiveSession (settle p r m) = _hasActiveSession m.
Proof. unfold settle. by repeat case_match. Qed.

Lemma hasActiveSession_connect m :
  _hasActiveSession (_connect m) = _hasActiveSession m.
Proof. unfold _connect. by case_match. Qed.

Lemma promises_connect m : promises (_connect m) = promises m.
Proof. unfold _connect. by case_match. Qed.

Lemma promises_send message m : promises (_send message m) = promises m.
Proof. unfold _send. case_match; cbn; by rewrite promises_connect. Qed.

Lemma port_settle p r m : _port (settle p r m) = _port m.
Proof. unfold settle. by repeat case_match. Qed.

Lemma isConnected_settle p r m : _isConnected (settle p r m) = _isConnected m.
Proof. unfold settle. by repeat case_match. Qed.

Create Rewrite HintDb manager.
#[local] Hint Rewrite streams_settle streams_connect streams_send
  posted_settle posted_connect
  messageHandlers_settle messageHandlers_connect messageHandlers_send
  hasActiveSession_settle hasActiveSession_connect
  promises_connect promises_send port_settle isConnected_settle : manager.

Ltac plumbing := repeat (progress (cbn; autorewrite with manager)).

(** A pending promise that is settled holds what it was settled with. *)
Lemma lookup_settle (p : nat) r m :
  promises m !! p = Some Pending → promises (settle p r m) !! p = Some r.
Proof.
  intros Hp. unfold settle. rewrite Hp. cbn.
  apply list_lookup_insert_eq. by eapply lookup_lt_Some.
Qed.

Lemma streams_ok_new : streams_ok new.
Proof. constructor. Qed.

Lemma streams_ok_with_streamHandlers s f m :
  (∀ st, stream_ok st → stream_ok (f st)) →
  streams_ok m → streams_ok (with_streamHandlers s f m).
Proof.
  intros Hf Hm. unfold streams_ok, with_streamHandlers. cbn.
  apply Forall_alter; [done|]. intros st _ Hst. case_match; auto.
Qed.

Lemma streams_ok_call h message m : streams_ok m → streams_ok (call h message m).
Proof.
  intros Hm. destruct h; unfold call, streams_ok; plumbing; try done.
  - by case_match.
  - by apply streams_ok_with_streamHandlers, Hm; apply stream_ok_chunkHandler.
  - by apply streams_ok_with_streamHandlers, Hm; apply stream_ok_completeHandler.
  - by apply streams_ok_with_streamHandlers, Hm; apply stream_ok_errorHandler.
Qed.

Lemma streams_ok_onMessage message m :
  streams_ok m → streams_ok (onMessage message m).
Proof. unfold onMessage. case_match; auto using streams_ok_call. Qed.

(** A usage query: what the call leaves behind, and what the answer
does. *)
Lemma isConnected_connect m : _isConnected (_connect m) = true.
Proof. unfold _connect. by destruct (_isConnected m) eqn:Hc. Qed.

Lemma connect_connected m : _isConnected m = true → _connect m = m.
Proof. unfold _connect. by intros ->. Qed.

Lemma getUsageInfo_call m :
  is_Some (_port (_connect m)) →
  let '(m', p) := getUsageInfo m in
  p = length (promises m) ∧
  promises m' !! p = Some Pending ∧
  _messageHandlers m' !! "usage-info" = Some (getUsageInfo_handler p) ∧
  ∃ port, last (posted m')
          = Some (port, {| Protocol.type := "get-usage-info";
                           Protocol.messages := [] |}).
Proof.
  intros [port Hport]. unfold getUsageInfo. cbn.
  set (m1 := set_promises _ m).
  assert (Hport1 : _port (_connect m1) = Some port).
  { revert Hport. unfold _connect. cbn. by case_match. }
  unfold _send. rewrite connect_connected by apply isConnected_connect.
  cbn. rewrite Hport1. cbn. plumbing.
  split; [done|]. split.
  - subst m1. cbn. rewrite lookup_app_r by lia. by rewrite Nat.sub_diag.
  - split; [by rewrite lookup_insert_eq|].
    exists port. by rewrite last_snoc.
Qed.

Lemma usage_info_resolves (p : nat) data m :
  _messageHandlers m !! "usage-info" = Some (getUsageInfo_handler p) →
  promises m !! p = Some Pending →
  promises (onMessage (Protocol.usage_info data) m) !! p
  = Some (Resolved (RUsage data)).
Proof.
  intros Hh Hp. unfold onMessage. cbn. rewrite Hh. cbn.
  by apply lookup_settle.
Qed.

Lemma streams_ok_pull s m m' : streams_ok m → pull s m = Some m' → streams_ok m'.
Proof.
  unfold pull, streams_ok. intros Hm.
  destruct (streams m !! s) as [st|] eqn:Hs; [cbn|done].
  destruct (next st) as [st'|] eqn:Hnext; [cbn|done].
  intros [= <-]. cbn. apply Forall_insert; [done|].
  eapply stream_ok_next; [|done]. by eapply Forall_lookup_1.
Qed.

(** ** The port *)

Lemma connection_ok_same m m' :
  _port m' = _port m → _isConnected m' = _isConnected m →
  Channel.connection_ok m → Channel.connection_ok m'.
Proof. unfold Channel.connection_ok. by intros -> ->. Qed.

Lemma connection_ok_connect m :
  Channel.connection_ok m → Channel.connection_ok (_connect m).
Proof.
  unfold Channel.connection_ok, _connect.
  destruct (_isConnected m) eqn:Hc.
  - intros Hm _. by apply Hm.
  - cbn. eauto.
Qed.

Lemma connection_ok_send message m :
  Channel.connection_ok m → Channel.connection_ok (_send message m).
Proof.
  intros Hm%connection_ok_connect. unfold _send. by case_match.
Qed.

Lemma connection_ok_call h message m :
  Channel.connection_ok m → Channel.connection_ok (call h message m).
Proof.
  apply connection_ok_same; destruct h; unfold call, with_streamHandlers;
    plumbing; try done; by case_match.
Qed.

Section Events.

Variables (context appInfo : Type).
Variable context_appInfo : context -> option appInfo.
Variable _getDefaultSystemPrompt : option appInfo -> string.
Variable _formatPrompt : string -> option context -> string.

Let promptStreaming :=
  promptStreaming context appInfo context_appInfo
    _getDefaultSystemPrompt _formatPrompt.
Let step := step context appInfo context_appInfo
              _getDefaultSystemPrompt _formatPrompt.
Let run := run context appInfo context_appInfo
             _getDefaultSystemPrompt _formatPrompt.
Let reachable := reachable context appInfo context_appInfo
                   _getDefaultSystemPrompt _formatPrompt.

Lemma streams_ok_promptStreaming userMessage history ctx m :
  streams_ok m → streams_ok (promptStreaming userMessage history ctx m).1.
Proof.
  intros Hm. unfold promptStreaming, AISessionManager.promptStreaming.
  cbn. case_match; unfold streams_ok; plumbing; [done|].
  apply Forall_app. split; [done|].
  apply Forall_singleton, stream_ok_new.
Qed.

Lemma streams_ok_step m e m' : streams_ok m → step m e = Some m' → streams_ok m'.
Proof.
  intros Hm. destruct e; cbn.
  - intros [= <-]. unfold streams_ok. by plumbing.
  - intros [= <-]. unfold streams_ok. by plumbing.
  - intros [= <-]. unfold streams_ok. by plumbing.
  - intros [= <-]. by apply streams_ok_promptStreaming.
  - intros [= <-]. unfold streams_ok. by plumbing.
  - intros [= <-]. unfold streams_ok, destroy.
    repeat case_match; by plumbing.
  - case_match; intros [= <-]. by apply streams_ok_onMessage.
  - case_match; by intros [= <-].
  - by apply streams_ok_pull.
Qed.

Lemma streams_ok_run es : ∀ m m',
  streams_ok m → run m es = Some m' → streams_ok m'.
Proof.
  induction es as [|e es IH]; intros m m' Hm; cbn.
  - by intros [= <-].
  - destruct (AISessionManager.step _ _ _ _ _ m e) as [m1|] eqn:Hstep;
      [cbn|done].
    intros Hrun. eapply IH; [|done]. by eapply streams_ok_step.
Qed.

Lemma streams_ok_reachable m : reachable m → streams_ok m.
Proof. intros [es Hes]. eapply streams_ok_run; [apply streams_ok_new|done]. Qed.

Lemma connection_ok_step m e m' :
  Channel.connection_ok m → step m e = Some m' → Channel.connection_ok m'.
Proof.
  intros Hm. destruct e as [| | | | | | |  |s]; cbn.
  - intros [= <-]. by apply connection_ok_send, connection_ok_connect.
  - intros [= <-]. by apply connection_ok_send, connection_ok_connect.
  - intros [= <-]. by apply connection_ok_send, connection_ok_connect.
  - intros [= <-]. unfold promptStreaming, AISessionManager.promptStreaming.
    cbn. case_match.
    + eapply connection_ok_same; [apply port_settle|apply isConnected_settle|].
      by apply connection_ok_connect.
    + eapply connection_ok_same; [apply port_settle|apply isConnected_settle|].
      by apply connection_ok_send, connection_ok_connect.
  - intros [= <-]. by apply connection_ok_send, connection_ok_connect.
  - intros [= <-]. unfold destroy.
    set (m1 := if _isConnected m then _ else m).
    assert (Hm1 : Channel.connection_ok m1).
    { subst m1. case_match; [|done].
      eapply connection_ok_same; [| |by eapply connection_ok_send]; done. }
    case_match; [by intros Hc|].
    eapply connection_ok_same; [| |exact Hm1]; done.
  - case_match; intros [= <-]. unfold onMessage.
    case_match; auto using connection_ok_call.
  - by case_match; intros [= <-].
  - unfold pull. intros Hp. revert Hm. apply connection_ok_same.
    all: destruct (streams m !! s) as [st|]; [cbn in Hp|done].
    all: destruct (next st); [cbn in Hp|done]; by injection Hp as <-.
Qed.

Lemma connection_ok_reachable m : reachable m → Channel.connection_ok m.
Proof.
  intros [es Hes]. revert Hes.
  assert (Hnew : Channel.connection_ok new) by (by intros ?).
  revert Hnew. generalize new. unfold run. 
  induction es as [|e es IH]; intros m0 Hm0; cbn.
  - by intros [= <-].
  - destruct (AISessionManager.step _ _ _ _ _ m0 e) as [m1|] eqn:Hstep;
      [cbn|done].
    apply IH. by eapply connection_ok_step.
Qed.

(** C2: [promptStreaming] called while the active-session flag is
false returns a promise that is already rejected with 'No active
session. Call createSession() first.', and posts nothing on the port;
it registers no handler and makes no stream. *)
Theorem promptStreaming_without_session userMessage history ctx m :
  _hasActiveSession m = false →
  let '(m', p) := promptStreaming userMessage history ctx m in
  promises m' !! p
  = Some (RejectedWith "No active session. Call createSession() first.") ∧
  posted m' = posted m ∧
  _messageHandlers m' = _messageHandlers m ∧
  streams m' = streams m ∧
  _hasActiveSession m' = false.
Proof.
  intros Hm. unfold promptStreaming, AISessionManager.promptStreaming.
  cbn. rewrite hasActiveSession_connect. cbn. rewrite Hm. cbn.
  split; [|by plumbing].
  apply lookup_settle. rewrite promises_connect. cbn.
  rewrite lookup_app_r by lia. by rewrite Nat.sub_diag.
Qed.

(** C9: the stream never yields a falsy fragment, so never the empty
string.  For every stream of a manager in a reachable state: each
fragment it has yielded is truthy; and a chunk whose content is falsy
adds nothing to what the consumer got and leaves the generator where
it was. *)
Theorem stream_never_yields_falsy m (s : nat) st :
  reachable m →
  streams m !! s = Some st →
  (∀ v, v ∈ fragments st → truthy v = true ∧ v ≠ VString EmptyString) ∧
  (∀ content, truthy content = false →
     delivered (chunkHandler content st) = delivered st ∧
     generator (chunkHandler content st) = generator st).
Proof.
  intros Hm%streams_ok_reachable Hs.
  destruct (Forall_lookup_1 _ _ _ _ Hm Hs) as [Hp Hf]. split.
  - intros v Hv. unfold fragments_truthy in Hf.
    rewrite Forall_forall in Hf. pose proof (Hf v Hv) as Hv'.
    split; [done|]. by intros ->.
  - intros content Hc. unfold chunkHandler.
    destruct (resolveChunk st) eqn:Hr; [|done].
    unfold fulfil. cbn.
    destruct (generator st) eqn:Hg; try done.
    rewrite Hc. cbn. unfold run_loop. cbn.
    destruct (Hp Hg) as (-> & -> & -> & _). by cbn.
Qed.

End Events.

Lemma promptStreaming_without_session_witness :
  let '(m', p) :=
    promptStreaming unit unit no_appInfo plain_system_prompt plain_prompt
      "hi" None None new in
  promises m' !! p
  = Some (RejectedWith "No active session. Call createSession() first.") ∧
  posted m' = posted new ∧
  _messageHandlers m' = _messageHandlers new ∧
  streams m' = streams new ∧
  _hasActiveSession m' = false.
Proof.
  apply (promptStreaming_without_session unit unit no_appInfo
           plain_system_prompt plain_prompt "hi" None None new eq_refl).
Defined.

Lemma eager_consumer_reachable :
  ∃ m, run_plain new eager_consumer = Some m ∧ streams m !! 0 = Some eager_stream.
Proof. eexists. split; [vm_compute; reflexivity|reflexivity]. Qed.

Lemma stream_never_yields_falsy_witness :
  (∀ v, v ∈ fragments eager_stream →
        truthy v = true ∧ v ≠ VString EmptyString) ∧
  (∀ content, truthy content = false →
     delivered (chunkHandler content eager_stream) = delivered eager_stream ∧
     generator (chunkHandler content eager_stream) = generator eager_stream).
Proof.
  eapply (stream_never_yields_falsy unit unit no_appInfo plain_system_prompt
            plain_prompt _ 0 eager_stream).
  - exists eager_consumer. vm_compute. reflexivity.
  - reflexivity.
Defined.

(** With a consumer that pulls as soon as it has a fragment, the stream
hands over what arrived. *)
Lemma eager_consumer_gets_everything :
  ∃ m st,
    run_plain new eager_consumer = Some m ∧ streams m !! 0 = Some st ∧
    delivered st = [Yielded (VString "a"); Yielded (VString "b"); Done] ∧
    concatenation (fragments st) = concatenation (chunks_received eager_consumer).
Proof. do 2 eexists. split; [vm_compute; reflexivity|]. by repeat split. Qed.

(** C1: the fragments of the stream add up to the chunks that arrived,
whatever the order of arrivals and pulls.  The generator does not do
this.  A fragment that arrives while the consumer is busy is buffered,
but when [complete] arrives too before the next pull, the loop test of
line 314 fails and the generator returns with the fragment still in the
buffer: of the chunks 'a' and 'b' the slow consumer gets 'a'.  And a
chunk that arrives before the first pull finds no handler in
[streamHandlers] and is lost: the late consumer gets 'b'. *)
Lemma complete_drops_buffered_fragments :
  (∃ m st,
     run_plain new slow_consumer = Some m ∧ streams m !! 0 = Some st ∧
     delivered st = [Yielded (VString "a"); Done] ∧
     chunkPromises st = [VString "b"] ∧
     concatenation (fragments st) = "a" ∧
     concatenation (chunks_received slow_consumer) = "ab") ∧
  (∃ m st,
     run_plain new late_consumer = Some m ∧ streams m !! 0 = Some st ∧
     delivered st = [Yielded (VString "b"); Done] ∧
     concatenation (fragments st) = "b" ∧
     concatenation (chunks_received late_consumer) = "ab").
Proof.
  split; do 2 eexists; (split; [vm_compute; reflexivity|]); by repeat split.
Qed.

End AISessionManagerFacts.

(** * Properties of a usage query *)

Module ChannelFacts.
Import Protocol Background.

Implicit Types (σ : server) (port : nat).

Lemma number_truthy_not_zero x :
  Js.number_truthy x = true → PrimFloat.is_zero x = false.
Proof. unfold Js.number_truthy. by destruct (PrimFloat.is_zero x). Qed.

Lemma zero_not_truthy x :
  PrimFloat.is_zero x = true → Js.number_truthy x = false.
Proof. unfold Js.number_truthy. by intros ->. Qed.

Lemma or_number_not_zero x d :
  PrimFloat.is_zero d = false → PrimFloat.is_zero (Js.or_number x d) = false.
Proof.
  intros Hd. unfold Js.or_number. destruct x as [f|]; [|done].
  destruct (Js.number_truthy f) eqn:Hf; [|done].
  by apply number_truthy_not_zero.
Qed.

(** C10: with a session handle, get-usage-info posts one [usage-info]
whose data has defaults in place of falsy fields: an [inputUsage] that
is absent or zero is reported as 0, an [inputQuota] that is absent or
zero as 4096, and a truthy field as it is.  The reported quota is never
zero, and [percentUsed] is computed from the reported values, so with a
divisor that is not zero. *)
Theorem usage_info_defaults σ port (s : nat) :
  promptAPISession σ = Some s →
  let usage := sessions σ !! s ≫= session_inputUsage in
  let quota := sessions σ !! s ≫= session_inputQuota in
  ∃ data,
    handleGetUsageInfo port σ = (σ, [(port, usage_info (Some data))]) ∧
    (usage = None ∨ (∃ z, usage = Some z ∧ PrimFloat.is_zero z = true) →
     inputUsage data = 0%float) ∧
    (quota = None ∨ (∃ z, quota = Some z ∧ PrimFloat.is_zero z = true) →
     inputQuota data = 4096%float) ∧
    (∀ z, usage = Some z → Js.number_truthy z = true → inputUsage data = z) ∧
    (∀ z, quota = Some z → Js.number_truthy z = true → inputQuota data = z) ∧
    PrimFloat.is_zero (inputQuota data) = false ∧
    percentUsed data
    = Js.Math_round ((inputUsage data / inputQuota data) * 100)%float.
Proof.
  intros Hs usage quota. unfold handleGetUsageInfo. rewrite Hs.
  fold usage quota. eexists. split; [done|]. cbn.
  repeat split.
  - intros [->|(z & -> & Hz%zero_not_truthy)]; cbn; [done|by rewrite Hz].
  - intros [->|(z & -> & Hz%zero_not_truthy)]; cbn; [done|by rewrite Hz].
  - intros z -> Hz. cbn. by rewrite Hz.
  - intros z -> Hz. cbn. by rewrite Hz.
  - by apply or_number_not_zero.
Qed.

Lemma usage_info_defaults_witness :
  ∃ data,
    handleGetUsageInfo 0 Channel.session_without_quota
    = (Channel.session_without_quota, [(0, usage_info (Some data))]) ∧
    (Some 0%float = None ∨
     (∃ z, Some 0%float = Some z ∧ PrimFloat.is_zero z = true) →
     inputUsage data = 0%float) ∧
    (@None float = None ∨
     (∃ z, @None float = Some z ∧ PrimFloat.is_zero z = true) →
     inputQuota data = 4096%float) ∧
    (∀ z, Some 0%float = Some z → Js.number_truthy z = true →
          inputUsage data = z) ∧
    (∀ z, @None float = Some z → Js.number_truthy z = true →
          inputQuota data = z) ∧
    PrimFloat.is_zero (inputQuota data) = false ∧
    percentUsed data
    = Js.Math_round ((inputUsage data / inputQuota data) * 100)%float.
Proof. apply (usage_info_defaults Channel.session_without_quota 0 0 eq_refl). Defined.

(** ** The exchange *)

Lemma connect_port m :
  Channel.connection_ok m →
  ∃ port, AISessionManager._port (AISessionManager._connect m) = Some port.
Proof.
  intros Hm. unfold AISessionManager._connect.
  destruct (AISessionManager._isConnected m) eqn:Hc; [by apply Hm|].
  by eexists.
Qed.

Lemma connection_ok_new : Channel.connection_ok AISessionManager.new.
Proof. intros Hc. discriminate Hc. Qed.

(** The data the script answers a usage query with. *)
Lemma getUsageInfo_exchange m σ :
  Channel.connection_ok m →
  ∃ port data,
    handleGetUsageInfo port σ = (σ, [(port, usage_info data)]) ∧
    Channel.getUsageInfo m σ
    = Some (AISessionManager.Resolved (AISessionManager.RUsage data)).
Proof.
  intros Hm. unfold Channel.getUsageInfo.
  pose proof (AISessionManagerFacts.getUsageInfo_call m (connect_port m Hm))
    as Hcall.
  destruct (AISessionManager.getUsageInfo m) as [m1 p].
  destruct Hcall as (-> & Hp & Hh & port & Hlast).
  unfold Channel.exchange. rewrite Hlast.
  change (onMessage port _ σ) with (handleGetUsageInfo port σ).
  exists port. unfold handleGetUsageInfo.
  destruct (promptAPISession σ) as [s|]; cbn; eexists; (split; [done|]);
    by apply AISessionManagerFacts.usage_info_resolves.
Qed.

(** C7, with the formula as the script computes it: [getUsageInfo()]
resolves with [null] when the script holds no session handle, and
otherwise with [{inputUsage, inputQuota, percentUsed}], where the first
two are the handle's values (or their defaults) and [percentUsed] is
[Math.round((inputUsage / inputQuota) * 100)] in double arithmetic, the
quotient first; 410 of 4096 gives 10. *)
Theorem getUsageInfo_resolves m σ :
  Channel.connection_ok m →
  Channel.getUsageInfo m σ
  = Some (AISessionManager.Resolved (AISessionManager.RUsage
      match promptAPISession σ with
      | None => None
      | Some s =>
          let u := Js.or_number (sessions σ !! s ≫= session_inputUsage) 0 in
          let q := Js.or_number (sessions σ !! s ≫= session_inputQuota) 4096 in
          Some {| inputUsage := u; inputQuota := q;
                  percentUsed := Js.Math_round ((u / q) * 100)%float |}
      end)) ∧
  Js.Math_round ((410 / 4096) * 100)%float = 10%float.
Proof.
  intros Hm. split; [|reflexivity].
  destruct (getUsageInfo_exchange m σ Hm) as (port & data & Hdata & ->).
  unfold handleGetUsageInfo in Hdata.
  destruct (promptAPISession σ) as [s|]; by injection Hdata as <-.
Qed.

Lemma getUsageInfo_resolves_witness :
  Channel.getUsageInfo AISessionManager.new Channel.session_410_of_4096
  = Some (AISessionManager.Resolved (AISessionManager.RUsage
      (Some {| inputUsage := 410; inputQuota := 4096; percentUsed := 10 |}))) ∧
  Js.Math_round ((410 / 4096) * 100)%float = 10%float.
Proof.
  apply (getUsageInfo_resolves AISessionManager.new
           Channel.session_410_of_4096 connection_ok_new).
Defined.

(** Without a session handle the promise resolves with [null]. *)
Lemma getUsageInfo_null m σ :
  Channel.connection_ok m →
  promptAPISession σ = None →
  Channel.getUsageInfo m σ
  = Some (AISessionManager.Resolved (AISessionManager.RUsage None)).
Proof.
  intros Hm Hσ.
  destruct (getUsageInfo_exchange m σ Hm) as (port & data & Hdata & ->).
  unfold handleGetUsageInfo in Hdata. rewrite Hσ in Hdata.
  by injection Hdata as <-.
Qed.

(** [percentUsed] is not always round(100 * inputUsage / inputQuota): for
a session that reports 2300 of 4000 tokens, [getUsageInfo()] resolves with
[percentUsed] 57, and round(100 * 2300 / 4000) = round(57.5) is 58,
whichever way ties go.  The script divides first: 2300 / 4000 is the double
nearest to 0.575, and 100 times it is the double just below 57.5.
Evaluating 100 * inputUsage / inputQuota in doubles, in that order, gives
57.5 and 58 as well. *)
Lemma getUsageInfo_2300_of_4000 :
  ∃ data,
    Channel.getUsageInfo AISessionManager.new Channel.session_2300_of_4000
    = Some (AISessionManager.Resolved (AISessionManager.RUsage (Some data))) ∧
    inputUsage data = Js.of_Z 2300 ∧
    inputQuota data = Js.of_Z 4000 ∧
    percentUsed data = Js.of_Z 57 ∧
    Channel.spec_percentUsed 2300 4000 = 58%Z ∧
    Js.Math_round ((100 * 2300) / 4000)%float = Js.of_Z 58 ∧
    percentUsed data ≠ Js.of_Z (Channel.spec_percentUsed 2300 4000).
Proof.
  eexists. split; [vm_compute; reflexivity|].
  repeat split; try (vm_compute; reflexivity).
  intros H. apply (f_equal Prim2SF) in H. vm_compute in H. discriminate H.
Qed.

(** The state of the script above arises from a create-session. *)
Lemma session_2300_of_4000_reachable :
  run (init true)
      [Message 0 (request_of "create-session");
       Settle 0 (Fulfilled (PAvailability "available"));
       Settle 0 (Fulfilled (PSession (Some 2300%float) (Some 4000%float)))]
  = Some (Channel.session_2300_of_4000, [(0, session_created)]).
Proof. reflexivity. Qed.

End ChannelFacts.

(** * More properties of the background script *)

Module BackgroundRunsFacts.
Import Protocol Background BackgroundRuns.

Implicit Types (σ : server) (port : nat).

Lemma run_app es1 : ∀ σ es2,
  run σ (es1 ++ es2)
  = '(σ1, out1) ← run σ es1;
    '(σ2, out2) ← run σ1 es2;
    Some (σ2, out1 ++ out2).
Proof.
  induction es1 as [|e es1 IH]; intros σ es2; cbn.
  - by destruct (run σ es2) as [[σ2 out2]|].
  - destruct (step σ e) as [[σ1 out1]|]; [cbn|done].
    rewrite IH. destruct (run σ1 es1) as [[σ2 out2]|]; [cbn|done].
    destruct (run σ2 es2) as [[σ3 out3]|]; [cbn|done].
    by rewrite app_assoc.
Qed.

(** ** A stream that nothing interrupts *)

(** While [promptAPIController] refers to a controller that is not
aborted, a streaming handler forwards every fragment. *)
Lemma fragments_forwarded (fragments : list Js.value) σ (i : nat) port c g :
  tasks σ !! i = Some (PromptStreaming_next port c) →
  promptAPIController σ = Some g →
  controllers σ !! g = Some false →
  run σ (map (fun v => Settle i (Fulfilled (PFragment v))) fragments)
  = Some (σ, map (fun v => (port, chunk v)) fragments).
Proof.
  intros Hi Hg Hfresh. induction fragments as [|v fragments IH]; [done|].
  cbn. unfold resume. rewrite Hi. cbn.
  unfold promptAPIController_signal_aborted, aborted. rewrite Hg. cbn.
  rewrite Hfresh. cbn. fold (run σ). by rewrite IH.
Qed.

(** One prompt-streaming request, from the request to the end of its
stream. *)
Lemma prompt_streaming_run σ port turns fragments failure :
  is_Some (promptAPISession σ) →
  ∃ σ',
    run σ (prompt_streaming_turns (length (tasks σ)) port turns fragments failure)
    = Some (σ', map (fun v => (port, chunk v)) fragments
                ++ [(port, match failure with
                           | None => complete
                           | Some msg => error msg
                           end)]) ∧
    promptAPIController σ' = None ∧
    promptAPISession σ' = promptAPISession σ ∧
    sessions σ' = sessions σ ∧
    tasks σ' !! length (tasks σ) = Some Finished.
Proof.
  intros [s Hs]. unfold prompt_streaming_turns.
  set (i := length (tasks σ)).
  set (σ0 := match promptAPIController σ with
             | Some c => abort c σ
             | None => σ
             end).
  set (c := length (controllers σ0)).
  set (σ1 := suspend (PromptStreaming_stream port c)
               (set_controller (Some c)
                  (set_controllers (controllers σ0 ++ [false]) σ0))).
  set (σ2 := park i (PromptStreaming_next port c) σ1).
  assert (Htasks : tasks σ0 = tasks σ).
  { subst σ0. by destruct (promptAPIController σ). }
  assert (Hi1 : tasks σ1 !! i = Some (PromptStreaming_stream port c)).
  { subst σ1 i. cbn. rewrite Htasks, lookup_app_r by lia.
    by rewrite Nat.sub_diag. }
  assert (Hlen : i < length (tasks σ1)).
  { by eapply lookup_lt_Some. }
  assert (Hi2 : tasks σ2 !! i = Some (PromptStreaming_next port c)).
  { subst σ2. cbn. by apply list_lookup_insert_eq. }
  assert (Hc2 : promptAPIController σ2 = Some c) by done.
  assert (Hfresh : controllers σ2 !! c = Some false).
  { subst σ2 σ1 c. cbn. rewrite lookup_app_r by lia. by rewrite Nat.sub_diag. }
  assert (Hsession : promptAPISession σ2 = promptAPISession σ ∧
                     sessions σ2 = sessions σ).
  { subst σ2 σ1 σ0. by destruct (promptAPIController σ). }
  change (run σ (?e1 :: ?e2 :: ?es)) with (run σ ([e1; e2] ++ es)).
  rewrite run_app.
  assert (Hstart : run σ [Message port {| type := "prompt-streaming";
                                         messages := turns |};
                          Settle i (Fulfilled PStream)] = Some (σ2, [])).
  { cbn. unfold handlePromptStreaming. rewrite Hs. cbn.
    fold σ0. fold c. fold σ1. unfold resume. rewrite Hi1. by cbn. }
  rewrite Hstart. cbn -[run]. rewrite run_app.
  rewrite (fragments_forwarded fragments σ2 i port c c Hi2 Hc2 Hfresh).
  cbn. unfold resume. rewrite Hi2.
  assert (Hfin : <[i:=Finished]> (tasks σ2) !! i = Some Finished).
  { apply list_lookup_insert_eq. subst σ2. cbn. by rewrite length_insert. }
  destruct Hsession as [Hs2 Hss2].
  destruct failure as [msg|]; cbn.
  - eexists. split; [done|]. cbn.
    repeat split; done.
  - unfold handlePromptStreaming_after_loop,
      promptAPIController_signal_aborted, aborted.
    rewrite Hfresh. cbn.
    eexists. split; [done|]. cbn.
    repeat split; done.
Qed.

(** X1: a prompt-streaming request that runs with no other turn in between
posts one [chunk] per fragment of the provider, in the provider's order and
with its content, and then [complete] if the stream ended or [error] with
the provider's message if it failed.  The handler has ended then,
[promptAPIController] is [null], and the session is the one it was. *)
Theorem prompt_streaming_relays σ port turns fragments failure :
  is_Some (promptAPISession σ) →
  ∃ σ',
    run σ (prompt_streaming_turns (length (tasks σ)) port turns fragments failure)
    = Some (σ', map (fun v => (port, chunk v)) fragments
                ++ [(port, match failure with
                           | None => complete
                           | Some msg => error msg
                           end)]) ∧
    promptAPIController σ' = None ∧
    promptAPISession σ' = promptAPISession σ ∧
    sessions σ' = sessions σ ∧
    tasks σ' !! length (tasks σ) = Some Finished.
Proof. apply prompt_streaming_run. Qed.

Lemma prompt_streaming_relays_witness :
  ∃ σ',
    run one_session
        (prompt_streaming_turns 1 0 []
           [Js.VString "Hel"; Js.VString "lo"] None)
    = Some (σ', [(0, chunk (Js.VString "Hel")); (0, chunk (Js.VString "lo"));
                 (0, complete)]) ∧
    promptAPIController σ' = None ∧
    promptAPISession σ' = promptAPISession one_session ∧
    sessions σ' = sessions one_session ∧
    tasks σ' !! 1 = Some Finished.
Proof.
  apply (prompt_streaming_relays one_session 0 []
           [Js.VString "Hel"; Js.VString "lo"] None).
  by exists 0.
Defined.

(** ** A download that nothing interrupts *)

(** While a download-model handler awaits [create], every
'downloadprogress' event posts one [download-progress]. *)
Lemma progress_forwarded (loaded : list (option float)) σ (i : nat) port c :
  tasks σ !! i = Some (DownloadModel_create port c) →
  run σ (map (DownloadProgress i) loaded)
  = Some (σ, map (fun l => (port, download_progress (Js.or_number l 0))) loaded).
Proof.
  intros Hi. induction loaded as [|l loaded IH]; [done|].
  cbn. rewrite Hi. cbn. fold (run σ). by rewrite IH.
Qed.

(** One download-model request that the provider serves. *)
Lemma download_model_run σ port a loaded usage quota :
  LanguageModel_in_self σ = true →
  String.eqb a "unavailable" = false →
  ∃ σ',
    run σ (download_model_turns (length (tasks σ)) port a loaded usage quota)
    = Some (σ', map (fun l => (port, download_progress (Js.or_number l 0))) loaded
                ++ [(port, download_complete)]) ∧
    promptAPISession σ' = Some (length (sessions σ)) ∧
    promptAPIController σ' = None ∧
    sessions σ'
    = sessions σ ++ [{| destroyed := false; session_inputUsage := usage;
                        session_inputQuota := quota |}] ∧
    tasks σ' !! length (tasks σ) = Some Finished.
Proof.
  intros Hsup Ha. unfold download_model_turns.
  set (i := length (tasks σ)).
  set (σ0 := match promptAPIController σ with
             | Some c => abort c σ
             | None => σ
             end).
  set (c := length (controllers σ0)).
  set (σ1 := suspend (DownloadModel_availability port c)
               (set_controller (Some c)
                  (set_controllers (controllers σ0 ++ [false]) σ0))).
  set (σ2 := park i (DownloadModel_create port c) σ1).
  assert (Htasks : tasks σ0 = tasks σ).
  { subst σ0. by destruct (promptAPIController σ). }
  assert (Hi1 : tasks σ1 !! i = Some (DownloadModel_availability port c)).
  { subst σ1 i. cbn. rewrite Htasks, lookup_app_r by lia.
    by rewrite Nat.sub_diag. }
  assert (Hlen : i < length (tasks σ1)).
  { by eapply lookup_lt_Some. }
  assert (Hi2 : tasks σ2 !! i = Some (DownloadModel_create port c)).
  { subst σ2. cbn. by apply list_lookup_insert_eq. }
  assert (Hsessions : sessions σ2 = sessions σ).
  { subst σ2 σ1 σ0. by destruct (promptAPIController σ). }
  change (run σ (?e1 :: ?e2 :: ?es)) with (run σ ([e1; e2] ++ es)).
  rewrite run_app.
  assert (Hstart : run σ [Message port (request_of "download-model");
                          Settle i (Fulfilled (PAvailability a))]
                   = Some (σ2, [])).
  { cbn. unfold handleDownloadModel. rewrite Hsup. cbn.
    fold σ0. fold c. fold σ1. unfold resume. rewrite Hi1. cbn.
    unfold handleDownloadModel_availability, initPromptAPISession_availability.
    by rewrite Ha. }
  rewrite Hstart. cbn -[run]. rewrite run_app.
  rewrite (progress_forwarded loaded σ2 i port c Hi2).
  cbn. unfold resume. rewrite Hi2. cbn.
  eexists. split; [done|]. cbn.
  change (sessions σ0) with (sessions σ2). rewrite Hsessions.
  repeat split; try done.
  apply list_lookup_insert_eq. rewrite length_insert. apply Hlen.
Qed.

(** X2: a download-model request that the provider serves, run with no
other turn in between, posts one [download-progress] per 'downloadprogress'
event, in order, carrying [e.loaded || 0], and then [download-complete].
[promptAPISession] then holds the new handle, [promptAPIController] is
[null], and no handle that existed before was destroyed. *)
Theorem download_model_reports_progress σ port a loaded usage quota :
  LanguageModel_in_self σ = true →
  String.eqb a "unavailable" = false →
  ∃ σ',
    run σ (download_model_turns (length (tasks σ)) port a loaded usage quota)
    = Some (σ', map (fun l => (port, download_progress (Js.or_number l 0))) loaded
                ++ [(port, download_complete)]) ∧
    promptAPISession σ' = Some (length (sessions σ)) ∧
    promptAPIController σ' = None ∧
    sessions σ'
    = sessions σ ++ [{| destroyed := false; session_inputUsage := usage;
                        session_inputQuota := quota |}] ∧
    tasks σ' !! length (tasks σ) = Some Finished.
Proof. apply download_model_run. Qed.

Lemma download_model_reports_progress_witness :
  ∃ σ',
    run one_session
        (download_model_turns 1 0 "downloadable"
           [Some 0.5%float; None; Some 1%float] None None)
    = Some (σ', [(0, download_progress 0.5%float); (0, download_progress 0%float);
                 (0, download_progress 1%float); (0, download_complete)]) ∧
    promptAPISession σ' = Some 1 ∧
    promptAPIController σ' = None ∧
    sessions σ'
    = sessions one_session ++ [{| destroyed := false; session_inputUsage := None;
                                  session_inputQuota := None |}] ∧
    tasks σ' !! 1 = Some Finished.
Proof.
  apply (download_model_reports_progress one_session 0 "downloadable"
           [Some 0.5%float; None; Some 1%float] None None eq_refl eq_refl).
Defined.

(** ** The session the script holds is never a destroyed one

A handle is destroyed only in the turn that takes it out of
[promptAPISession] (lines 308-309 and 409-410), and the variable is only
ever assigned a handle that [create] has just delivered. *)

Lemma session_live_init supported : session_live (init supported).
Proof. intros s Hs. discriminate Hs. Qed.

Lemma onMessage_session σ port message :
  promptAPISession (onMessage port message σ).1 = None ∨
  (promptAPISession (onMessage port message σ).1 = promptAPISession σ ∧
   sessions (onMessage port message σ).1 = sessions σ).
Proof.
  unfold onMessage, handleCheckAvailability, handleDownloadModel,
    handleCreateSession, handlePromptStreaming, handleGetUsageInfo,
    handleDestroySession, new_AbortController.
  repeat case_match; simplify_eq/=; auto.
Qed.

Lemma resume_session σ (i : nat) r σ' out :
  resume i r σ = Some (σ', out) →
  (promptAPISession σ' = promptAPISession σ ∧ sessions σ' = sessions σ) ∨
  (∃ h, destroyed h = false ∧ sessions σ' = sessions σ ++ [h] ∧
        promptAPISession σ' = Some (length (sessions σ))).
Proof.
  unfold resume, handleCheckAvailability_settled,
    handleDownloadModel_availability, handleDownloadModel_create,
    handleCreateSession_availability, handleCreateSession_create,
    handlePromptStreaming_stream, handlePromptStreaming_next,
    handlePromptStreaming_after_loop, handlePromptStreaming_catch,
    initPromptAPISession_availability, initPromptAPISession_create.
  intros H. repeat (case_match; simplify_eq/=); eauto;
    right; by eexists {| destroyed := false |}.
Qed.

Lemma session_live_step σ e σ' out :
  step σ e = Some (σ', out) → session_live σ → session_live σ'.
Proof.
  destruct e as [port message|i r|i loaded]; cbn.
  - intros [= H] Hσ s Hs.
    destruct (onMessage_session σ port message) as [Hnone|[Heq Hsessions]];
      rewrite H in *; cbn in *; [congruence|].
    rewrite Hsessions. apply Hσ. congruence.
  - intros H Hσ s Hs.
    apply resume_session in H as [[Heq Hsessions]|(h & Hh & Hsessions & Heq)].
    + rewrite Hsessions. apply Hσ. congruence.
    + exists h. split; [|done]. rewrite Hsessions.
      assert (s = length (sessions σ)) as -> by congruence.
      rewrite lookup_app_r by lia. by rewrite Nat.sub_diag.
  - intros H Hσ. by repeat (case_match; simplify_eq/=).
Qed.

Lemma session_live_run es : ∀ σ σ' out,
  run σ es = Some (σ', out) → session_live σ → session_live σ'.
Proof.
  induction es as [|e es IH]; intros σ σ' out; cbn.
  - by intros [= <- <-].
  - destruct (step σ e) as [[σ1 out1]|] eqn:Hstep; [cbn|done].
    destruct (run σ1 es) as [[σ2 out2]|] eqn:Hrun; [cbn|done].
    intros [= <- <-] Hσ. eauto using session_live_step.
Qed.

(** X3: whatever requests arrive and however the provider answers, the
handle that [promptAPISession] refers to exists and was not destroyed: a
prompt or a usage query never addresses a destroyed session. *)
Theorem session_never_destroyed σ s :
  reachable σ →
  promptAPISession σ = Some s →
  ∃ h, sessions σ !! s = Some h ∧ destroyed h = false.
Proof.
  intros (supported & es & out & Hrun) Hs.
  by apply (session_live_run es (init supported) σ out Hrun
              (session_live_init supported)).
Qed.

Lemma session_never_destroyed_witness :
  ∃ h, sessions one_session !! 0 = Some h ∧ destroyed h = false.
Proof.
  apply (session_never_destroyed one_session 0); [|reflexivity].
  exists true, session_is_created, [(0, session_created)]. reflexivity.
Defined.

(** ** Without the Prompt API *)

Lemma unsupported_step e σ out :
  step (init false) e = Some (σ, out) →
  σ = init false ∧ Forall (fun p : post => unsupported_post p.2) out.
Proof.
  destruct e as [port message|i r|i loaded]; cbn; [|done..].
  unfold onMessage.
  repeat case_match; intros [= <- <-]; (split; [done|]);
    repeat first [apply Forall_nil_2 | apply Forall_cons_2]; cbn; auto.
Qed.

(** X4: where [LanguageModel] is missing, the script never changes
state: it holds no session, starts no operation and awaits nothing.
Whatever it is sent, all it posts is [availability] with status
unavailable, [error] with one of two fixed messages, [usage-info] with
null data, and [session-destroyed]. *)
Theorem unsupported_script_is_inert es σ out :
  run (init false) es = Some (σ, out) →
  σ = init false ∧ Forall (fun p : post => unsupported_post p.2) out.
Proof.
  revert σ out. induction es as [|e es IH]; intros σ out; cbn.
  - intros [= <- <-]. by split.
  - destruct (step (init false) e) as [[σ1 out1]|] eqn:Hstep; [cbn|done].
    apply unsupported_step in Hstep as [-> Hout1].
    destruct (run (init false) es) as [[σ2 out2]|] eqn:Hrun; [cbn|done].
    intros [= <- <-]. destruct (IH σ2 out2 eq_refl) as [-> Hout2].
    split; [done|]. by apply Forall_app.
Qed.

Lemma unsupported_script_is_inert_witness :
  init false = init false ∧
  Forall (fun p : post => unsupported_post p.2)
    [(0, error "Prompt API not supported");
     (0, error "No active session");
     (1, session_destroyed)].
Proof.
  apply (unsupported_script_is_inert
           [Message 0 (request_of "create-session");
            Message 0 (request_of "prompt-streaming");
            Message 1 (request_of "destroy-session")]).
  reflexivity.
Defined.

(** ** destroy-session *)

(** X5: destroy-session, in whatever state it arrives, destroys the
handle that [promptAPISession] refers to, aborts the controller that
[promptAPIController] refers to, clears both variables and posts
[session-destroyed]; it touches no other handle or controller and no
suspended handler.  A usage query that follows is answered with null
data, and a prompt with the error 'No active session'. *)
Theorem destroy_session_resets σ port port' turns :
  ∃ σ',
    run σ [Message port (request_of "destroy-session");
           Message port' (request_of "get-usage-info");
           Message port' {| type := "prompt-streaming"; messages := turns |}]
    = Some (σ', [(port, session_destroyed); (port', usage_info None);
                 (port', error "No active session")]) ∧
    promptAPISession σ' = None ∧
    promptAPIController σ' = None ∧
    sessions σ' = match promptAPISession σ with
                  | Some s => alter destroy_handle s (sessions σ)
                  | None => sessions σ
                  end ∧
    controllers σ' = match promptAPIController σ with
                     | Some c => <[c:=true]> (controllers σ)
                     | None => controllers σ
                     end ∧
    tasks σ' = tasks σ.
Proof.
  cbn. unfold handleDestroySession, handleGetUsageInfo, handlePromptStreaming.
  destruct (promptAPISession σ) as [s|] eqn:Hs,
           (promptAPIController σ) as [c|] eqn:Hc;
    cbn; rewrite ?Hs, ?Hc; cbn; rewrite ?Hs, ?Hc; cbn; by eexists.
Qed.

(** X6: when destroy-session arrives while a stream is running, the
streaming handler posts no further [chunk] and no [complete]: at the next
thing its iterator delivers it posts one [error] and ends.  The message is
the provider's if the iterator failed, and otherwise that of the TypeError
that reading [.signal] of the cleared [promptAPIController] throws. *)
Theorem destroy_mid_stream_posts_error σ (i : nat) port c port' :
  tasks σ !! i = Some (PromptStreaming_next port c) →
  ∃ σ',
    (∀ v, run σ [Message port' (request_of "destroy-session");
                 Settle i (Fulfilled (PFragment v))]
          = Some (σ', [(port', session_destroyed);
                       (port, error TypeError_signal)])) ∧
    (∀ failure,
       run σ [Message port' (request_of "destroy-session");
              Settle i (stream_end failure)]
       = Some (σ', [(port', session_destroyed);
                    (port, error (default TypeError_signal failure))])) ∧
    tasks σ' !! i = Some Finished ∧
    (∀ r, resume i r σ' = None).
Proof.
  intros Hi. pose proof (lookup_lt_Some _ _ _ Hi) as Hlt.
  set (σd := (handleDestroySession port' σ).1).
  assert (Htasks : tasks σd = tasks σ).
  { subst σd. unfold handleDestroySession. by repeat case_match. }
  assert (Hnull : promptAPIController σd = None).
  { subst σd. unfold handleDestroySession.
    destruct (promptAPISession σ), (promptAPIController σ) eqn:Hg; cbn;
      by rewrite ?Hg. }
  assert (Hd : step σ (Message port' (request_of "destroy-session"))
               = Some (σd, [(port', session_destroyed)])) by done.
  assert (Hnext : ∀ r, resume i r σd = handlePromptStreaming_next i port r σd).
  { intros r. unfold resume. by rewrite Htasks, Hi. }
  clearbody σd. exists (set_controller None (park i Finished σd)).
  split; [|split; [|split]].
  - intros v. unfold run. rewrite Hd. cbn -[resume]. rewrite Hnext. cbn.
    unfold promptAPIController_signal_aborted. by rewrite Hnull.
  - intros failure. unfold run. rewrite Hd. cbn -[resume]. rewrite Hnext.
    destruct failure as [msg|]; cbn; [done|].
    unfold handlePromptStreaming_after_loop,
      promptAPIController_signal_aborted.
    by rewrite Hnull.
  - cbn. rewrite Htasks. by apply list_lookup_insert_eq.
  - intros r. unfold resume. cbn. rewrite Htasks.
    by rewrite list_lookup_insert_eq.
Qed.

Lemma destroy_mid_stream_posts_error_witness :
  ∃ σ',
    (∀ v, run one_stream [Message 0 (request_of "destroy-session");
                          Settle 1 (Fulfilled (PFragment v))]
          = Some (σ', [(0, session_destroyed); (0, error TypeError_signal)])) ∧
    (∀ failure,
       run one_stream [Message 0 (request_of "destroy-session");
                       Settle 1 (stream_end failure)]
       = Some (σ', [(0, session_destroyed);
                    (0, error (default TypeError_signal failure))])) ∧
    tasks σ' !! 1 = Some Finished ∧
    (∀ r, resume 1 r σ' = None).
Proof.
  apply (destroy_mid_stream_posts_error one_stream 1 0 1 0). reflexivity.
Defined.

(** ** Cancelable operations *)

Lemma one_stream_reachable : reachable one_stream.
Proof.
  exists true,
    (session_is_created ++
     [Message 0 (request_of "prompt-streaming"); Settle 1 (Fulfilled PStream)]),
    [(0, session_created)].
  reflexivity.
Qed.

(** X7: a download-model or prompt-streaming request that starts while
[promptAPIController] refers to a controller aborts that controller, so
that the provider is told to cancel the operation it belongs to, and
hands the provider the signal of a fresh controller that is not aborted;
[promptAPIController] refers to the fresh one from then on.  The request
posts nothing in this turn. *)
Theorem cancelable_start_aborts_previous σ port (download : bool) turns c :
  (if download then LanguageModel_in_self σ = true
   else is_Some (promptAPISession σ)) →
  promptAPIController σ = Some c →
  is_Some (controllers σ !! c) →
  ∃ σ' t,
    onMessage port
      (if download then request_of "download-model"
       else {| type := "prompt-streaming"; messages := turns |}) σ
    = (σ', []) ∧
    aborted σ' c = true ∧
    promptAPIController σ' = Some (length (controllers σ)) ∧
    aborted σ' (length (controllers σ)) = false ∧
    tasks σ' = tasks σ ++ [t] ∧
    signal_of t = Some (length (controllers σ)).
Proof.
  intros Hstart Hc Hin. destruct download.
  - destruct (BackgroundFacts.download_model_aborts_previous σ port c
                Hstart Hc Hin) as (Hc' & Hnew & Hfresh).
    revert Hc' Hnew Hfresh. cbn. unfold handleDownloadModel.
    rewrite Hstart, Hc. cbn. rewrite length_insert. intros Hc' Hnew Hfresh.
    by eexists _, _.
  - destruct (BackgroundFacts.prompt_streaming_aborts_previous σ port c
                Hstart Hc Hin) as (Hc' & Hnew & Hfresh).
    destruct Hstart as [s Hs].
    revert Hc' Hnew Hfresh. cbn. unfold handlePromptStreaming.
    rewrite Hs, Hc. cbn. rewrite length_insert. intros Hc' Hnew Hfresh.
    by eexists _, _.
Qed.

Lemma cancelable_start_aborts_previous_witness :
  ∃ σ' t,
    onMessage 0 (request_of "download-model") one_stream = (σ', []) ∧
    aborted σ' 1 = true ∧
    promptAPIController σ' = Some 2 ∧
    aborted σ' 2 = false ∧
    tasks σ' = tasks one_stream ++ [t] ∧
    signal_of t = Some 2.
Proof.
  apply (cancelable_start_aborts_previous one_stream 0 true [] 1 eq_refl eq_refl).
  by exists false.
Defined.

(** X8: the tests of [promptAPIController.signal.aborted] at lines 352 and
362 never find an aborted signal, so the quiet ways out of the loop are
never taken: in every state the script can reach, a streaming handler that
is handed a fragment posts it as a [chunk], and one whose stream ends
posts [complete], unless [promptAPIController] is [null], when it posts
the [error] of the TypeError instead. *)
Theorem abort_guard_never_fires σ (i : nat) port c v :
  reachable σ →
  tasks σ !! i = Some (PromptStreaming_next port c) →
  ∃ σ1 m1 σ2 m2,
    step σ (Settle i (Fulfilled (PFragment v))) = Some (σ1, [(port, m1)]) ∧
    step σ (Settle i (Fulfilled PEnd)) = Some (σ2, [(port, m2)]) ∧
    match promptAPIController σ with
    | Some _ => m1 = chunk v ∧ σ1 = σ ∧ m2 = complete
    | None => m1 = error TypeError_signal ∧ m2 = error TypeError_signal
    end.
Proof.
  intros Hσ Hi. pose proof (BackgroundFacts.abort_test_never_true σ Hσ) as Hdead.
  cbn. unfold resume. rewrite Hi. cbn.
  unfold handlePromptStreaming_after_loop.
  unfold promptAPIController_signal_aborted in *.
  destruct (promptAPIController σ) as [g|]; cbn in *.
  - destruct (aborted σ g); [done|]. by eexists _, _, _, _.
  - by eexists _, _, _, _.
Qed.

Lemma abort_guard_never_fires_witness :
  ∃ σ1 m1 σ2 m2,
    step one_stream (Settle 1 (Fulfilled (PFragment (Js.VString "Hi"))))
      = Some (σ1, [(0, m1)]) ∧
    step one_stream (Settle 1 (Fulfilled PEnd)) = Some (σ2, [(0, m2)]) ∧
    m1 = chunk (Js.VString "Hi") ∧ σ1 = one_stream ∧ m2 = complete.
Proof.
  apply (abort_guard_never_fires one_stream 1 0 1 (Js.VString "Hi")
           one_stream_reachable eq_refl).
Defined.

(** A create-session served in [one_session]. *)
Lemma create_session_success_witness :
  ∃ σ',
    run one_session
        (Message 0 (request_of "create-session")
         :: map (Settle 1)
              [Fulfilled (PAvailability "available");
               Fulfilled (PSession None (Some 9216%float))])
      = Some (σ', [(0, session_created)]) ∧
    promptAPISession σ' = Some 1 ∧
    sessions σ'
    = (alter destroy_handle 0 (sessions one_session) ++
       [{| destroyed := false; session_inputUsage := None;
           session_inputQuota := Some 9216%float |}]).
Proof.
  apply (BackgroundFacts.create_session_success_replaces one_session 0 0
           "available" None (Some 9216%float) eq_refl eq_refl eq_refl).
Defined.


End BackgroundRunsFacts.

(** * Properties of the frame pinger *)

Module PingFramesFacts.
Import PingFrames.

Lemma pingFrame_state (i : nat) st : (pingFrame i st).1 = st.
Proof. unfold pingFrame. by case_match. Qed.

(** The calls from [pingFrame(i)] on, when the frames from [i] answer in
turn: [pre] are the frames before [i], [ids] those from [i]. *)
Lemma answer_from ids : ∀ pre isAlive live id,
  length isAlive ≤ length ids →
  let st := {| frameIds := pre ++ ids; liveFrameIds := live; sender := id |} in
  (pingFrame (length pre) st).2 ++ (answer (length pre) isAlive st).2
  = map sendToAll_do_ping (take (S (length isAlive)) ids)
    ++ (if decide (length isAlive = length ids)
        then [sendMessage_on_ping_frames id (live ++ alive ids isAlive)]
        else []).
Proof.
  induction ids as [|x ids IH]; intros pre isAlive live id Hlen st.
  - destruct isAlive; [|cbn in Hlen; lia].
    subst st. unfold pingFrame. cbn.
    rewrite lookup_ge_None_2 by (rewrite length_app; cbn; lia).
    cbn. by rewrite !app_nil_r.
  - assert (Hx : (pre ++ x :: ids) !! length pre = Some x).
    { by rewrite list_lookup_middle. }
    destruct isAlive as [|a isAlive].
    + subst st. unfold pingFrame. cbn. rewrite Hx. cbn.
      by rewrite take_0.
    + cbn in Hlen. subst st. unfold pingFrame at 1. cbn -[pingFrame].
      rewrite Hx. cbn -[pingFrame answer]. unfold callback. cbn -[pingFrame answer].
      rewrite Hx.
      specialize (IH (pre ++ [x]) isAlive
                    (if Js.truthy a then live ++ [x] else live) id
                    ltac:(lia)).
      cbn zeta in IH. rewrite length_app, Nat.add_1_r in IH.
      rewrite <- app_assoc in IH. cbn [app] in IH.
      set (st' := if Js.truthy a then _ else _).
      assert (Hst' : st' = {| frameIds := pre ++ x :: ids;
                              liveFrameIds := if Js.truthy a then live ++ [x]
                                              else live;
                              sender := id |}).
      { subst st'. by destruct (Js.truthy a). }
      rewrite Hst'. clear st' Hst'.
      destruct (pingFrame (S (length pre)) _) as [st1 calls1] eqn:Hping.
      assert (st1 = {| frameIds := pre ++ x :: ids;
                       liveFrameIds := if Js.truthy a then live ++ [x] else live;
                       sender := id |}) as ->.
      { by rewrite <- (pingFrame_state (S (length pre))), Hping. }
      cbn [snd] in IH.
      destruct (answer (S (length pre)) isAlive _) as [st2 calls2].
      cbn [snd] in *. f_equal. rewrite IH.
      f_equal. repeat case_decide; try lia; [|done].
      destruct (Js.truthy a); [|done]. by rewrite <- app_assoc.
Qed.

(** X11: [do-ping-frames] pings the frames one at a time, in the order of
the request: a frame is pinged only when the one before it has answered.
When the last frame has answered, and not before, it sends one
[on-ping-frames] to the sender of the request, listing the frames whose
answer was truthy, in the order of the request; for an empty list it
sends it at once. *)
Theorem ping_frames_reports_alive ids isAlive id :
  length isAlive ≤ length ids →
  (do_ping_frames ids id).2 ++ (answer 0 isAlive (do_ping_frames ids id).1).2
  = map sendToAll_do_ping (take (S (length isAlive)) ids)
    ++ (if decide (length isAlive = length ids)
        then [sendMessage_on_ping_frames id (alive ids isAlive)]
        else []).
Proof.
  intros Hlen. pose proof (answer_from ids [] isAlive [] id Hlen) as H.
  cbn zeta in H. cbn [app length] in H. unfold do_ping_frames.
  by rewrite <- H, pingFrame_state.
Qed.

Lemma ping_frames_reports_alive_witness :
  (do_ping_frames [0; 7; 9] "panel").2
  ++ (answer 0 [Js.VBool true; Js.VUndefined; Js.VBool true]
        (do_ping_frames [0; 7; 9] "panel").1).2
  = [sendToAll_do_ping 0; sendToAll_do_ping 7; sendToAll_do_ping 9;
     sendMessage_on_ping_frames "panel" [0; 9]].
Proof.
  apply (ping_frames_reports_alive [0; 7; 9]
           [Js.VBool true; Js.VUndefined; Js.VBool true] "panel").
  cbn. lia.
Defined.

End PingFramesFacts.

(** * Properties of the chat history *)

Module ChatStorageManagerFacts.
Import ChatStorageManager.

Implicit Types (w : world) (url : option string) (m : message).

Lemma paired_init data : paired (init data).
Proof. done. Qed.

Lemma slice_last_short {A} (n : nat) (a : list A) :
  length a ≤ n → slice_last n a = a.
Proof. intros Hn. unfold slice_last. by replace (length a - n) with 0 by lia. Qed.

Lemma length_slice_last {A} (n : nat) (a : list A) :
  length (slice_last n a) = length a `min` n.
Proof. unfold slice_last. rewrite length_drop. lia. Qed.

Lemma slice_last_app {A} (n : nat) (a b : list A) :
  slice_last n (slice_last n a ++ b) = slice_last n (a ++ b).
Proof.
  destruct (decide (length a ≤ n)) as [Hn|Hn].
  - by rewrite (slice_last_short n a).
  - unfold slice_last. rewrite !length_app, length_drop.
    replace (length a - (length a - n) + length b - n) with (length b) by lia.
    replace (length a + length b - n) with (length a - n + length b) by lia.
    rewrite <- drop_drop. by rewrite (drop_app_le a) by lia.
Qed.

Lemma push_and_trim_slice_last (a : list Protocol.turn) m :
  push_and_trim a m = slice_last _maxMessages (a ++ [stored m]).
Proof.
  unfold push_and_trim. case_match; [done|].
  symmetry. apply slice_last_short. by apply Nat.ltb_ge.
Qed.

Lemma lookup_call t w : tasks (call t w) !! length (tasks w) = Some t.
Proof. cbn. by rewrite list_lookup_middle. Qed.

Lemma insert_last {A} (l : list A) (x y : A) :
  <[length l := y]> (l ++ [x]) = l ++ [y].
Proof.
  replace (length l) with (length l + 0) at 1 by lia.
  by rewrite insert_app_r.
Qed.

Lemma run_saves_app es1 : ∀ w es2, run w (es1 ++ es2) = w1 ← run w es1; run w1 es2.
Proof.
  induction es1 as [|e es1 IH]; intros w es2; [done|]. cbn.
  destruct (step w e) as [w1|]; [cbn|done]. apply IH.
Qed.

Lemma insert_middle {A} (pre post : list A) (x y : A) (i : nat) :
  length pre = i → <[i := y]> (pre ++ x :: post) = pre ++ y :: post.
Proof.
  intros <-. replace (length pre) with (length pre + 0) by lia.
  by rewrite insert_app_r.
Qed.

(** What serving call [i] does, with the calls and the promises around
it spelled out. *)
Lemma serve_at (i : nat) e data ts ps pre t post ppre p ppost :
  ts = pre ++ t :: post →
  ps = ppre ++ p :: ppost →
  length pre = i →
  length ppre = i →
  serve i e {| local := data; tasks := ts; promises := ps |}
  = match t, e with
    | Finished, _ => None
    | _, Some lastError =>
        Some {| local := data; tasks := pre ++ Finished :: post;
                promises := ppre ++ RejectedWith lastError :: ppost |}
    | LoadHistory_get key, None =>
        Some {| local := data; tasks := pre ++ Finished :: post;
                promises := ppre ++ Resolved (RHistory (result_or_empty data key))
                                 :: ppost |}
    | SaveMessage_get key m, None =>
        Some {| local := data;
                tasks := pre ++ SaveMessage_set key
                                  (push_and_trim (result_or_empty data key) m)
                             :: post;
                promises := ppre ++ p :: ppost |}
    | SaveMessage_set key messages, None =>
        Some {| local := <[key := messages]> data;
                tasks := pre ++ Finished :: post;
                promises := ppre ++ Resolved RVoid :: ppost |}
    | ClearHistory_remove key, None =>
        Some {| local := delete key data; tasks := pre ++ Finished :: post;
                promises := ppre ++ Resolved RVoid :: ppost |}
    end.
Proof.
  intros -> -> Hpre Hppre. unfold serve. cbn.
  rewrite list_lookup_middle by done.
  destruct t, e; cbn; try done; unfold settle, park, set_local; cbn;
    by rewrite ?(insert_middle pre), ?(insert_middle ppre).
Qed.

(** One [saveMessage], served without error. *)
Lemma save_run w url m :
  paired w →
  run w (save (length (tasks w)) url m)
  = Some {| local := <[_getKey url :=
                        push_and_trim (result_or_empty (local w) (_getKey url)) m]>
                      (local w);
            tasks := tasks w ++ [Finished];
            promises := promises w ++ [Resolved RVoid] |}.
Proof.
  intros Hw. unfold paired in Hw.
  set (i := length (tasks w)). set (key := _getKey url).
  set (messages := push_and_trim (result_or_empty (local w) key) m).
  assert (H1 : serve i None (saveMessage url m w)
               = Some (park i (SaveMessage_set key messages)
                         (saveMessage url m w))).
  { unfold serve, saveMessage. subst i. by rewrite lookup_call. }
  assert (H2 : serve i None (park i (SaveMessage_set key messages)
                               (saveMessage url m w))
               = Some {| local := <[key := messages]> (local w);
                         tasks := tasks w ++ [Finished];
                         promises := promises w ++ [Resolved RVoid] |}).
  { unfold serve, park, saveMessage, call. cbn. subst i.
    rewrite insert_last, list_lookup_middle by done. cbn.
    unfold settle, set_local. cbn. rewrite insert_last.
    by rewrite <- Hw, insert_last. }
  unfold save, run, step. cbn -[serve]. rewrite H1. cbn -[serve].
  by rewrite H2.
Qed.

Lemma saves_run url ms : ∀ w,
  paired w →
  ∃ w',
    run w (saves (length (tasks w)) url ms) = Some w' ∧
    tasks w' = tasks w ++ replicate (length ms) Finished ∧
    promises w' = promises w ++ replicate (length ms) (Resolved RVoid) ∧
    local w'
    = match ms with
      | [] => local w
      | _ => <[_getKey url :=
                 slice_last _maxMessages
                   (result_or_empty (local w) (_getKey url) ++ map stored ms)]>
               (local w)
      end.
Proof.
  induction ms as [|m ms IH]; intros w Hw.
  - exists w. cbn. by rewrite !app_nil_r.
  - pose proof (save_run w url m Hw) as Hsave.
    set (w1 := {| local := _; tasks := _; promises := _ |}) in Hsave.
    destruct (IH w1) as (w' & Hrun & Htasks & Hpromises & Hlocal).
    { unfold paired. cbn. rewrite !length_app. cbn. by rewrite Hw. }
    exists w'. split; [|split; [|split]].
    + cbn [saves]. rewrite run_saves_app, Hsave. cbn [mbind option_bind].
      replace (S (length (tasks w))) with (length (tasks w1)); [done|].
      subst w1. cbn. rewrite length_app. cbn. lia.
    + rewrite Htasks. cbn. by rewrite <- app_assoc.
    + rewrite Hpromises. cbn. by rewrite <- app_assoc.
    + rewrite Hlocal. subst w1. cbn [local].
      rewrite push_and_trim_slice_last.
      destruct ms as [|m' ms]; [done|].
      rewrite insert_insert_eq. f_equal.
      unfold result_or_empty at 1. rewrite lookup_insert_eq. cbn [default id].
      rewrite slice_last_app. by rewrite <- app_assoc.
Qed.

(** X12: messages saved one after the other, each save served before the
next is made, leave under the key of the URL the last 50 of what was
there followed by the saved messages, in order and without their
timestamps: a suffix of that sequence, of length 50 or all of it.  Every
save resolves, and a [loadHistory] that follows resolves with exactly
that array. *)
Theorem saved_history_is_last_50 w url ms :
  paired w →
  ms ≠ [] →
  let all := result_or_empty (local w) (_getKey url) ++ map stored ms in
  ∃ w' history,
    run w (saves (length (tasks w)) url ms
           ++ [LoadHistory url; Serve (length (tasks w) + length ms) None])
    = Some w' ∧
    promises w'
    = promises w ++ replicate (length ms) (Resolved RVoid)
      ++ [Resolved (RHistory history)] ∧
    local w' = <[_getKey url := history]> (local w) ∧
    history = slice_last _maxMessages all ∧
    history `suffix_of` all ∧
    length history = length all `min` 50.
Proof.
  intros Hw Hms all.
  destruct (saves_run url ms w Hw) as (w1 & Hrun & Htasks & Hpromises & Hlocal).
  destruct ms as [|m ms]; [done|]. fold all in Hlocal.
  assert (Hlen : length (promises w1) = length (tasks w1)).
  { rewrite Htasks, Hpromises, !length_app, !length_replicate. by rewrite Hw. }
  assert (Hi : length (tasks w) + length (m :: ms) = length (tasks w1)).
  { by rewrite Htasks, length_app, length_replicate. }
  exists (settle (length (tasks w1))
            (Resolved (RHistory (slice_last _maxMessages all)))
            (loadHistory url w1)), (slice_last _maxMessages all).
  split; [|split; [|split; [|split; [|split]]]].
  - rewrite run_saves_app, Hrun, Hi. cbn. unfold serve, loadHistory.
    rewrite lookup_call. cbn.
    rewrite Hlocal. unfold result_or_empty at 1. by rewrite lookup_insert_eq.
  - cbn. rewrite <- Hlen, insert_last, Hpromises. by rewrite <- app_assoc.
  - done.
  - done.
  - apply suffix_drop.
  - apply length_slice_last.
Qed.

Lemma saved_history_is_last_50_witness :
  ∃ w' history,
    run (init ∅)
        (saves 0 (Some "https://example.org/")
           [{| role := "user"; content := "Hi"; timestamp := 1 |};
            {| role := "assistant"; content := "Hello"; timestamp := 2 |}]
         ++ [LoadHistory (Some "https://example.org/"); Serve 2 None])
    = Some w' ∧
    promises w'
    = [Resolved RVoid; Resolved RVoid; Resolved (RHistory history)] ∧
    local w' = <[_getKey (Some "https://example.org/") := history]> ∅ ∧
    history = slice_last _maxMessages
                [{| Protocol.role := "user"; Protocol.content := "Hi" |};
                 {| Protocol.role := "assistant"; Protocol.content := "Hello" |}] ∧
    history `suffix_of`
      [{| Protocol.role := "user"; Protocol.content := "Hi" |};
       {| Protocol.role := "assistant"; Protocol.content := "Hello" |}] ∧
    length history = 2.
Proof.
  exact (saved_history_is_last_50 (init ∅) (Some "https://example.org/")
           [{| role := "user"; content := "Hi"; timestamp := 1 |};
            {| role := "assistant"; content := "Hello"; timestamp := 2 |}]
           eq_refl (fun H => nil_cons (eq_sym H))).
Defined.

(** X13: once [clearHistory] has been served, the key of the URL is gone
from the storage and nothing else has changed in it; a [loadHistory] of
that URL then resolves with the empty array. *)
Theorem clear_history_forgets w url :
  paired w →
  ∃ w',
    run w [ClearHistory url; Serve (length (tasks w)) None;
           LoadHistory url; Serve (S (length (tasks w))) None]
    = Some w' ∧
    promises w' = promises w ++ [Resolved RVoid; Resolved (RHistory [])] ∧
    local w' = delete (_getKey url) (local w).
Proof.
  intros Hw. unfold paired in Hw. destruct w as [data ts ps]. cbn in *.
  unfold clearHistory, loadHistory, call. cbn.
  erewrite (serve_at _ _ _ _ _ ts _ [] ps _ []); [|done..]. cbn.
  erewrite (serve_at _ _ _ _ _ (ts ++ [Finished]) _ []
              (ps ++ [Resolved RVoid]) _ []);
    [|by rewrite <- ?app_assoc|by rewrite <- ?app_assoc
     |rewrite length_app; cbn; lia..].
  cbn. eexists. split; [done|]. cbn. unfold result_or_empty.
  by rewrite lookup_delete_eq, <- !app_assoc.
Qed.

Lemma clear_history_forgets_witness :
  ∃ w',
    run (init {[ "ai_chat_default" :=
                   [{| Protocol.role := "user"; Protocol.content := "Hi" |}] ]})
        [ClearHistory None; Serve 0 None; LoadHistory None; Serve 1 None]
    = Some w' ∧
    promises w' = [Resolved RVoid; Resolved (RHistory [])] ∧
    local w' = delete (_getKey None)
                 {[ "ai_chat_default" :=
                      [{| Protocol.role := "user"; Protocol.content := "Hi" |}] ]}.
Proof.
  exact (clear_history_forgets
           (init {[ "ai_chat_default" :=
                      [{| Protocol.role := "user"; Protocol.content := "Hi" |}] ]})
           None eq_refl).
Defined.

(** X14: a [saveMessage] whose read or whose write fails with
[chrome.runtime.lastError] rejects with that error, leaves the storage
as it was, and issues no further request. *)
Theorem failed_save_writes_nothing w url m (lastError : string) (at_set : bool) :
  paired w →
  ∃ w',
    run w (SaveMessage url m
           :: (if at_set then [Serve (length (tasks w)) None] else [])
           ++ [Serve (length (tasks w)) (Some lastError)])
    = Some w' ∧
    local w' = local w ∧
    promises w' = promises w ++ [RejectedWith lastError] ∧
    ∀ e, serve (length (tasks w)) e w' = None.
Proof.
  intros Hw. unfold paired in Hw. destruct w as [data ts ps]. cbn in *.
  unfold saveMessage, call. cbn.
  assert (Hfin : ∀ e, serve (length ts) e
                   {| local := data; tasks := ts ++ [Finished];
                      promises := ps ++ [RejectedWith lastError] |} = None).
  { intros e. by rewrite (serve_at _ e data _ _ ts Finished [] ps
                            (RejectedWith lastError) []). }
  destruct at_set; cbn.
  - erewrite (serve_at _ _ _ _ _ ts _ [] ps _ []); [|done..]. cbn.
    erewrite (serve_at _ _ _ _ _ ts _ [] ps _ []); [|done..]. cbn.
    by eexists.
  - erewrite (serve_at _ _ _ _ _ ts _ [] ps _ []); [|done..]. cbn.
    by eexists.
Qed.

Lemma failed_save_writes_nothing_witness :
  ∃ w',
    run (init ∅)
        [SaveMessage None {| role := "user"; content := "Hi"; timestamp := 1 |};
         Serve 0 None; Serve 0 (Some "QUOTA_BYTES quota exceeded")]
    = Some w' ∧
    local w' = ∅ ∧
    promises w' = [RejectedWith "QUOTA_BYTES quota exceeded"] ∧
    ∀ e, serve 0 e w' = None.
Proof.
  exact (failed_save_writes_nothing (init ∅) None
           {| role := "user"; content := "Hi"; timestamp := 1 |}
           "QUOTA_BYTES quota exceeded" true eq_refl).
Defined.

(** X15: [saveMessage] reads, then writes, and two saves under one key
that overlap (both reads served before either write) both resolve, but
only the message of the write served last is kept: the other message is
not in the stored history. *)
Theorem overlapping_saves_lose_a_message w url1 url2 m1 m2 :
  paired w →
  _getKey url1 = _getKey url2 →
  let i := length (tasks w) in
  let old := result_or_empty (local w) (_getKey url1) in
  ∃ w',
    run w [SaveMessage url1 m1; SaveMessage url2 m2;
           Serve i None; Serve (S i) None; Serve i None; Serve (S i) None]
    = Some w' ∧
    promises w' = promises w ++ [Resolved RVoid; Resolved RVoid] ∧
    local w' = <[_getKey url1 := slice_last _maxMessages (old ++ [stored m2])]>
                 (local w) ∧
    (stored m1 ∉ old → stored m1 ≠ stored m2 →
     stored m1 ∉ result_or_empty (local w') (_getKey url1)).
Proof.
  intros Hw Hkey i old. unfold paired in Hw. subst i old.
  destruct w as [data ts ps]. cbn in *.
  unfold saveMessage, call. cbn. rewrite <- Hkey.
  set (key := _getKey url1).
  assert (Hts : length (ts ++ [Finished]) = S (length ts))
    by (rewrite length_app; cbn; lia).
  assert (Hps : ∀ p, length (ps ++ [p]) = S (length ts))
    by (intros p; rewrite length_app; cbn; lia).
  erewrite (serve_at _ _ _ _ _ ts _ [_] ps _ [_]);
    [|by rewrite <- ?app_assoc..|done|done].
  cbn.
  erewrite (serve_at _ _ _ _ _ (ts ++ [_]) _ [] (ps ++ [_]) _ []);
    [|by rewrite <- ?app_assoc..|rewrite length_app; cbn; lia|apply Hps].
  cbn.
  erewrite (serve_at _ _ _ _ _ ts _ [_] ps _ [_]);
    [|by rewrite <- ?app_assoc..|done|done].
  cbn.
  erewrite (serve_at _ _ _ _ _ (ts ++ [_]) _ [] (ps ++ [_]) _ []);
    [|by rewrite <- ?app_assoc..|apply Hts|apply Hps].
  cbn. eexists. split; [done|]. cbn.
  rewrite insert_insert_eq, push_and_trim_slice_last, <- !app_assoc.
  split; [done|]. split; [done|].
  intros Hold Hne. unfold result_or_empty at 1. rewrite lookup_insert_eq. cbn.
  intros Hin. eapply elem_of_suffix in Hin; [|apply suffix_drop].
  set_unfold in Hin. tauto.
Qed.

Lemma overlapping_saves_lose_a_message_witness :
  ∃ w',
    run (init ∅)
        [SaveMessage (Some "a/b") {| role := "user"; content := "Hi"; timestamp := 1 |};
         SaveMessage (Some "a.b") {| role := "user"; content := "Ho"; timestamp := 2 |};
         Serve 0 None; Serve 1 None; Serve 0 None; Serve 1 None]
    = Some w' ∧
    promises w' = [Resolved RVoid; Resolved RVoid] ∧
    local w' = <[_getKey (Some "a/b") :=
                   slice_last _maxMessages
                     [{| Protocol.role := "user"; Protocol.content := "Ho" |}]]> ∅ ∧
    ({| Protocol.role := "user"; Protocol.content := "Hi" |} ∉ [] →
     {| Protocol.role := "user"; Protocol.content := "Hi" |}
     ≠ {| Protocol.role := "user"; Protocol.content := "Ho" |} →
     {| Protocol.role := "user"; Protocol.content := "Hi" |}
     ∉ result_or_empty (local w') (_getKey (Some "a/b"))).
Proof.
  exact (overlapping_saves_lose_a_message (init ∅) (Some "a/b") (Some "a.b")
           {| role := "user"; content := "Hi"; timestamp := 1 |}
           {| role := "user"; content := "Ho"; timestamp := 2 |}
           eq_refl eq_refl).
Defined.

(** ** The keys *)




End ChatStorageManagerFacts.

(** * Properties of the session manager over whole runs *)

Module AISessionManagerRunsFacts.
Import Js AISessionManager AISessionManagerRuns AISessionManagerFacts.

Implicit Types (st : stream) (m : manager).

#[local] Hint Rewrite streams_settle streams_connect streams_send
  posted_settle posted_connect
  messageHandlers_settle messageHandlers_connect messageHandlers_send
  hasActiveSession_settle hasActiveSession_connect
  promises_connect promises_send port_settle isConnected_settle : manager.

(** ** What a stream holds *)

Lemma loop_held isComplete error chunkPromises : ∀ exit rest,
  loop isComplete error chunkPromises = (exit, rest) →
  match exit with Yields chunk => chunk :: rest | _ => rest end
    `sublist_of` chunkPromises.
Proof.
  induction chunkPromises as [|v l IH]; intros exit rest; cbn.
  - destruct (negb _); by intros [= <- <-].
  - destruct (negb _); [by intros [= <- <-]|].
    destruct (truthy v && truthy (get v "done"));
      [intros [= <- <-]; by apply sublist_cons|].
    destruct (truthy v); [by intros [= <- <-]|].
    intros Hloop. apply sublist_cons. by apply IH.
Qed.

Lemma held_deliver r g st :
  held (deliver r g st)
  = fragments st ++ match r with Yielded v => [v] | _ => [] end
    ++ chunkPromises st.
Proof. unfold held. rewrite fragments_deliver. by rewrite <- app_assoc. Qed.

Lemma held_finish st : held (finish st) = held st.
Proof. unfold finish. case_match; by rewrite held_deliver. Qed.

Lemma held_run_loop st : held (run_loop st) `sublist_of` held st.
Proof.
  unfold run_loop. destruct (loop _ _ _) as [exit rest] eqn:Hloop.
  apply loop_held in Hloop. destruct exit.
  - unfold held, fragments. cbn. by apply sublist_app.
  - rewrite held_deliver. cbn. by apply sublist_app.
  - rewrite held_finish. unfold held, fragments. cbn. by apply sublist_app.
Qed.

Lemma held_next st st' : next st = Some st' → held st' `sublist_of` held st.
Proof.
  unfold next. case_match; intros [= <-].
  - etrans; [apply held_run_loop|]. unfold held, fragments. cbn.
    by apply sublist_app; [|apply sublist_nil_l].
  - apply held_run_loop.
  - by rewrite held_deliver.
Qed.

Lemma held_chunkHandler content st :
  parked_ok st →
  held (chunkHandler content st) `sublist_of` held st ++ [content].
Proof.
  intros Hp. unfold chunkHandler. destruct (resolveChunk st) eqn:Hr.
  - unfold fulfil. cbn. destruct (generator st) eqn:Hg;
      try (by apply sublist_inserts_r).
    destruct (Hp Hg) as (Hbuf & _).
    repeat case_match.
    + rewrite held_finish. by apply sublist_inserts_r.
    + rewrite held_deliver. unfold held. cbn. rewrite Hbuf.
      by rewrite !app_nil_r.
    + etrans; [apply held_run_loop|]. by apply sublist_inserts_r.
  - unfold held, fragments. cbn. by rewrite app_assoc.
Qed.

Lemma held_completeHandler st : held (completeHandler st) = held st.
Proof.
  unfold completeHandler. case_match; [|done].
  unfold fulfil. cbn. case_match; try done. by rewrite held_finish.
Qed.

Lemma held_errorHandler msg st : held (errorHandler msg st) = held st.
Proof.
  unfold errorHandler. case_match; [|done].
  unfold reject. cbn. case_match; try done. by rewrite held_deliver.
Qed.

Lemma within_weaken cs cs' m :
  cs `sublist_of` cs' → within cs m → within cs' m.
Proof.
  intros Hcs Hm. unfold within in *. eapply Forall_impl; [done|].
  intros st Hst. by trans cs.
Qed.

Lemma within_same cs m m' : streams m' = streams m → within cs m → within cs m'.
Proof. unfold within. by intros ->. Qed.

Lemma within_with_streamHandlers cs cs' s f m :
  cs `sublist_of` cs' →
  (∀ st, stream_ok st → held st `sublist_of` cs → held (f st) `sublist_of` cs') →
  streams_ok m → within cs m → within cs' (with_streamHandlers s f m).
Proof.
  intros Hcs Hf Hok Hm. unfold within, with_streamHandlers. cbn.
  unfold within in Hm. unfold streams_ok in Hok.
  rewrite Forall_lookup in Hm, Hok. apply Forall_lookup. intros i st'.
  destruct (decide (i = s)) as [->|Hne].
  - rewrite list_lookup_alter_eq.
    destruct (streams m !! s) as [st|] eqn:Hs; [cbn|done].
    intros [= <-]. case_match; [by eapply Hf; eauto|].
    etrans; [by eapply Hm|done].
  - rewrite list_lookup_alter_ne by done. intros Hi.
    etrans; [by eapply Hm|done].
Qed.

(** ** The registry *)

Lemma length_promises_settle p r m :
  length (promises (settle p r m)) = length (promises m).
Proof. unfold settle. repeat case_match; cbn; by rewrite ?length_insert. Qed.

Lemma lookup_settle_ne (p q : nat) r m :
  p ≠ q → promises (settle q r m) !! p = promises m !! p.
Proof.
  intros Hne. unfold settle.
  repeat case_match; cbn; by rewrite ?list_lookup_insert_ne.
Qed.

Lemma registry_ok_new : registry_ok new.
Proof. intros type h. cbn. by rewrite lookup_empty. Qed.

Lemma registry_ok_grow m m' :
  (∀ type h, _messageHandlers m' !! type = Some h →
             _messageHandlers m !! type = Some h) →
  length (promises m) ≤ length (promises m') →
  length (streams m) ≤ length (streams m') →
  registry_ok m → registry_ok m'.
Proof.
  intros Hsub Hp Hs Hm type h Hh.
  destruct (Hm type h (Hsub _ _ Hh)) as (Ht & Hpm & Hsm).
  split; [done|]. split.
  - intros p Hhp. apply Hpm in Hhp. lia.
  - intros s' Hhs. apply Hsm in Hhs. lia.
Qed.

Lemma registry_ok_on type h m :
  registered_for h = type →
  (∀ p, handler_promise h = Some p → p < length (promises m)) →
  (∀ s, handler_stream h = Some s → s < length (streams m)) →
  registry_ok m → registry_ok (_on type h m).
Proof.
  intros Ht Hp Hs Hm type' h'. cbn.
  intros [[<- <-]|[_ Hh]]%lookup_insert_Some; [done|]. by apply Hm.
Qed.

Lemma registry_ok_connect m : registry_ok m → registry_ok (_connect m).
Proof. apply registry_ok_grow; by plumbing. Qed.

Lemma registry_ok_send message m : registry_ok m → registry_ok (_send message m).
Proof. apply registry_ok_grow; by plumbing. Qed.

Lemma registry_ok_settle p r m : registry_ok m → registry_ok (settle p r m).
Proof.
  apply registry_ok_grow; plumbing; try done.
  by rewrite length_promises_settle.
Qed.

Lemma registry_ok_new_Promise m :
  registry_ok m → registry_ok (new_Promise m).1.
Proof. apply registry_ok_grow; cbn; try done. rewrite length_app. lia. Qed.

Lemma messageHandlers_call h message m type h' :
  _messageHandlers (call h message m) !! type = Some h' →
  _messageHandlers m !! type = Some h'.
Proof.
  destruct h; unfold call, with_streamHandlers; plumbing;
    try case_match; plumbing;
    rewrite ?lookup_delete_Some; tauto.
Qed.

Lemma length_promises_call h message m :
  length (promises (call h message m)) = length (promises m).
Proof.
  destruct h; unfold call, with_streamHandlers; try case_match;
    by rewrite ?length_promises_settle.
Qed.

Lemma length_streams_call h message m :
  length (streams (call h message m)) = length (streams m).
Proof.
  destruct h; unfold call, with_streamHandlers; try case_match; plumbing;
    by rewrite ?length_alter.
Qed.

Lemma registry_ok_call h message m :
  registry_ok m → registry_ok (call h message m).
Proof.
  apply registry_ok_grow.
  - apply messageHandlers_call.
  - by rewrite length_promises_call.
  - by rewrite length_streams_call.
Qed.

Lemma within_call cs h message m :
  registered_for h = Protocol.response_type message →
  streams_ok m → within cs m →
  within (cs ++ chunk_of (context:=unit) (Receive message)) (call h message m).
Proof.
  intros Ht Hok Hm.
  assert (Hcs : cs `sublist_of` cs ++ chunk_of (context:=unit) (Receive message))
    by (by apply sublist_inserts_r).
  destruct h as [p|b|p|p|p|p|s|s|s|p]; unfold call; try case_match;
    try (apply (within_weaken cs); [done|]; eapply within_same; [|done];
         by plumbing).
  - destruct message; try discriminate Ht. cbn.
    apply (within_with_streamHandlers cs); try done.
    intros st [Hp _] Hst. etrans; [by apply held_chunkHandler|].
    by apply sublist_app.
  - eapply within_same;
      [|apply (within_with_streamHandlers cs _ s completeHandler m Hcs)];
      try done.
    intros st _ Hst. rewrite held_completeHandler. by etrans.
  - eapply within_same;
      [|apply (within_with_streamHandlers cs _ s
                 (errorHandler (field_message message)) m Hcs)];
      try done.
    intros st _ Hst. rewrite held_errorHandler. by etrans.
Qed.

Section Events.

Variables (context appInfo : Type).
Variable context_appInfo : context -> option appInfo.
Variable _getDefaultSystemPrompt : option appInfo -> string.
Variable _formatPrompt : string -> option context -> string.

Let promptStreaming :=
  promptStreaming context appInfo context_appInfo
    _getDefaultSystemPrompt _formatPrompt.
Let step := step context appInfo context_appInfo
              _getDefaultSystemPrompt _formatPrompt.
Let run := run context appInfo context_appInfo
             _getDefaultSystemPrompt _formatPrompt.

Lemma registry_ok_step m (e : event context) m' :
  registry_ok m → step m e = Some m' → registry_ok m'.
Proof.
  intros Hm. destruct e as [| | | | | | | |s]; cbn.
  - intros [= <-]. apply registry_ok_send, registry_ok_on; try done.
    + intros p [= <-]. plumbing. rewrite length_app. cbn. lia.
    + by apply registry_ok_connect, registry_ok_new_Promise.
  - intros [= <-].
    apply registry_ok_send, registry_ok_on, registry_ok_on, registry_ok_on;
      try done.
    + intros p [= <-]. plumbing. rewrite length_app. cbn. lia.
    + intros p [= <-]. plumbing. rewrite length_app. cbn. lia.
    + by apply registry_ok_connect, registry_ok_new_Promise.
  - intros [= <-]. apply registry_ok_send, registry_ok_on, registry_ok_on;
      try done.
    + intros p [= <-]. plumbing. rewrite length_app. cbn. lia.
    + intros p [= <-]. plumbing. rewrite length_app. cbn. lia.
    + by apply registry_ok_connect, registry_ok_new_Promise.
  - intros [= <-]. unfold AISessionManager.promptStreaming. cbn.
    case_match.
    + by apply registry_ok_settle, registry_ok_connect, registry_ok_new_Promise.
    + apply registry_ok_settle, registry_ok_send.
      set (m1 := _connect _).
      assert (Hm1 : registry_ok m1)
        by by apply registry_ok_connect, registry_ok_new_Promise.
      set (m2 := set_streams _ m1).
      assert (Hm2 : registry_ok m2).
      { revert Hm1. apply registry_ok_grow; cbn; try done.
        rewrite length_app. lia. }
      assert (Hlen : length (streams m1) < length (streams m2)).
      { subst m2. cbn. rewrite length_app. cbn. lia. }
      apply registry_ok_on, registry_ok_on, registry_ok_on; try done;
        by intros s' [= <-].
  - intros [= <-]. apply registry_ok_send, registry_ok_on; try done.
    + intros p [= <-]. plumbing. rewrite length_app. cbn. lia.
    + by apply registry_ok_connect, registry_ok_new_Promise.
  - intros [= <-]. intros type h. unfold destroy.
    repeat case_match; cbn; by rewrite lookup_empty.
  - case_match; intros [= <-]. unfold onMessage.
    case_match; [by apply registry_ok_call|done].
  - case_match; intros [= <-]. revert Hm. by apply registry_ok_grow.
  - unfold pull. intros Hp.
    destruct (streams m !! s) as [st|]; [cbn in Hp|done].
    destruct (next st); [cbn in Hp|done]. injection Hp as <-.
    revert Hm. apply registry_ok_grow; cbn; try done.
    by rewrite length_insert.
Qed.

Lemma within_step cs m (e : event context) m' :
  registry_ok m → streams_ok m → within cs m →
  step m e = Some m' → within (cs ++ chunk_of e) m'.
Proof.
  intros Hreg Hok Hm. destruct e as [| | | | | | | |s]; cbn;
    rewrite ?app_nil_r.
  - intros [= <-]. eapply within_same; [|done]. by plumbing.
  - intros [= <-]. eapply within_same; [|done]. by plumbing.
  - intros [= <-]. eapply within_same; [|done]. by plumbing.
  - intros [= <-]. unfold AISessionManager.promptStreaming. cbn.
    case_match; unfold within; plumbing; [done|].
    apply Forall_app. split; [done|].
    apply Forall_singleton. apply sublist_nil_l.
  - intros [= <-]. eapply within_same; [|done]. by plumbing.
  - intros [= <-]. eapply within_same; [|done]. unfold destroy.
    repeat case_match; by plumbing.
  - case_match; intros [= <-]. unfold onMessage.
    destruct (_messageHandlers m !! _) as [h|] eqn:Hh.
    + apply (within_call cs h message m); try done.
      by destruct (Hreg _ _ Hh) as (-> & _).
    + by apply (within_weaken cs); [apply sublist_inserts_r|].
  - case_match; by intros [= <-].
  - unfold pull. intros Hp.
    destruct (streams m !! s) as [st|] eqn:Hs; [cbn in Hp|done].
    destruct (next st) as [st'|] eqn:Hnext; [cbn in Hp|done].
    injection Hp as <-. unfold within. cbn.
    apply Forall_insert; [done|].
    etrans; [by apply held_next|].
    unfold within in Hm. by eapply Forall_lookup_1 in Hm.
Qed.

Lemma chunks_received_cons (e : event context) es :
  chunks_received (e :: es) = chunk_of e ++ chunks_received es.
Proof. by destruct e as [| | | | | |[]| |]. Qed.

Lemma within_run es : ∀ cs m m',
  registry_ok m → streams_ok m → within cs m →
  run m es = Some m' → within (cs ++ chunks_received es) m'.
Proof.
  induction es as [|e es IH]; intros cs m m' Hreg Hok Hm.
  - cbn. intros [= <-]. by rewrite app_nil_r.
  - rewrite chunks_received_cons, app_assoc. cbn.
    destruct (AISessionManager.step _ _ _ _ _ m e) as [m1|] eqn:Hstep;
      [cbn|done].
    intros Hrun. eapply IH; [..|done].
    + by eapply registry_ok_step.
    + by eapply streams_ok_step.
    + by eapply within_step.
Qed.

Lemma registry_ok_run es : ∀ m m',
  registry_ok m → run m es = Some m' → registry_ok m'.
Proof.
  induction es as [|e es IH]; intros m m' Hm; cbn.
  - by intros [= <-].
  - destruct (AISessionManager.step _ _ _ _ _ m e) as [m1|] eqn:Hstep;
      [cbn|done].
    intros Hrun. eapply IH; [|done]. by eapply registry_ok_step.
Qed.

(** ** Promises and streams that nothing can reach any more *)

Lemma promises_call_ne h message m (p : nat) :
  handler_promise h ≠ Some p →
  promises (call h message m) !! p = promises m !! p.
Proof.
  destruct h as [q|b|q|q|q|q|s|s|s|q]; unfold call, with_streamHandlers;
    cbn; intros Hne; try case_match; try done;
    by rewrite lookup_settle_ne by congruence.
Qed.

Lemma streams_call_ne h message m (s : nat) :
  handler_stream h ≠ Some s →
  streams (call h message m) !! s = streams m !! s.
Proof.
  destruct h as [q|b|q|q|q|q|s'|s'|s'|q]; unfold call, with_streamHandlers;
    cbn; intros Hne; try case_match; plumbing; try done;
    by rewrite list_lookup_alter_ne by congruence.
Qed.

Lemma orphaned_step (p : nat) m (e : event context) m' :
  orphaned p m → step m e = Some m' → orphaned p m'.
Proof.
  intros [Hp Hm]. pose proof (lookup_lt_Some _ _ _ Hp) as Hlt.
  assert (Hgrow : (promises m ++ [Pending]) !! p = Some Pending)
    by by apply lookup_app_l_Some.
  destruct e as [| | | | | | | |s]; cbn.
  - intros [= <-]. split; plumbing; [done|]. intros type h.
    intros [[<- <-]|[_ Hh]]%lookup_insert_Some; [|by eapply Hm].
    cbn. intros [= ]. lia.
  - intros [= <-]. split; plumbing; [done|]. intros type h.
    intros [[<- <-]|[_ Hh]]%lookup_insert_Some; [cbn; intros [= ]; lia|].
    revert Hh. intros [[<- <-]|[_ Hh]]%lookup_insert_Some;
      [cbn; intros [= ]; lia|].
    revert Hh. intros [[<- <-]|[_ Hh]]%lookup_insert_Some; [done|].
    by eapply Hm.
  - intros [= <-]. split; plumbing; [done|]. intros type h.
    intros [[<- <-]|[_ Hh]]%lookup_insert_Some; [cbn; intros [= ]; lia|].
    revert Hh. intros [[<- <-]|[_ Hh]]%lookup_insert_Some;
      [cbn; intros [= ]; lia|].
    by eapply Hm.
  - intros [= <-]. unfold AISessionManager.promptStreaming. cbn.
    case_match; cbn [fst];
      (split; [rewrite lookup_settle_ne by lia; by plumbing|]);
      plumbing; [done|]. intros type h.
    intros [[<- <-]|[_ Hh]]%lookup_insert_Some; [done|].
    revert Hh. intros [[<- <-]|[_ Hh]]%lookup_insert_Some; [done|].
    revert Hh. intros [[<- <-]|[_ Hh]]%lookup_insert_Some; [done|].
    by eapply Hm.
  - intros [= <-]. split; plumbing; [done|]. intros type h.
    intros [[<- <-]|[_ Hh]]%lookup_insert_Some; [|by eapply Hm].
    cbn. intros [= ]. lia.
  - intros [= <-]. unfold destroy. split.
    + repeat case_match; by plumbing.
    + intros type h. repeat case_match; cbn; by rewrite lookup_empty.
  - case_match; intros [= <-]. unfold onMessage.
    destruct (_messageHandlers m !! _) as [h|] eqn:Hh; [|done]. split.
    + rewrite promises_call_ne; [done|]. by eapply Hm.
    + intros type h' Hh'%messageHandlers_call. by eapply Hm.
  - case_match; by intros [= <-].
  - unfold pull. intros Hpull.
    destruct (streams m !! s) as [st|]; [cbn in Hpull|done].
    destruct (next st); [cbn in Hpull|done]. by injection Hpull as <-.
Qed.

Lemma orphaned_run (p : nat) es : ∀ m m',
  orphaned p m → run m es = Some m' → orphaned p m'.
Proof.
  induction es as [|e es IH]; intros m m' Hm; cbn.
  - by intros [= <-].
  - destruct (AISessionManager.step _ _ _ _ _ m e) as [m1|] eqn:Hstep;
      [cbn|done].
    intros Hrun. eapply IH; [|done]. by eapply orphaned_step.
Qed.

Lemma second_call_orphans m (op : event context) m1 m2 :
  registry_ok m →
  plain_call op = true →
  step m op = Some m1 → step m1 op = Some m2 →
  orphaned (length (promises m)) m2.
Proof.
  intros Hm Hop.
  assert (Hold : ∀ type h, _messageHandlers m !! type = Some h →
                   handler_promise h ≠ Some (length (promises m))).
  { intros type h Hh Hp. destruct (Hm _ _ Hh) as (_ & Hlt & _).
    apply Hlt in Hp. lia. }
  assert (Hp : ((promises m ++ [Pending]) ++ [Pending]) !! length (promises m)
               = Some Pending).
  { rewrite <- app_assoc. by apply list_lookup_middle. }
  assert (Hlen : length (promises m ++ [Pending]) ≠ length (promises m)).
  { rewrite length_app. cbn. lia. }
  destruct op; try discriminate Hop; cbn; intros [= <-] [= <-];
    (split; plumbing; [done|]); intros type h;
    repeat (intros [[<- <-]|[? Hh]]%lookup_insert_Some;
            [by (cbn; congruence)|revert Hh]);
    apply Hold.
Qed.

(** X18: a call of [checkAvailability], [downloadModel], [createSession]
or [getUsageInfo] made while an earlier call of the same operation is
unanswered takes over its handlers: the promise of the earlier call is
never settled, whatever the manager is asked to do and whatever arrives
on the port afterwards. *)
Theorem second_call_orphans_first es0 m (op : event context) es m' :
  plain_call op = true →
  run new es0 = Some m →
  run m (op :: op :: es) = Some m' →
  promises m' !! length (promises m) = Some Pending.
Proof.
  intros Hop Hm%(registry_ok_run _ _ _ registry_ok_new). cbn.
  destruct (AISessionManager.step _ _ _ _ _ m op) as [m1|] eqn:H1; [cbn|done].
  destruct (AISessionManager.step _ _ _ _ _ m1 op) as [m2|] eqn:H2; [cbn|done].
  intros Hrun.
  by destruct (orphaned_run _ es m2 m'
                 (second_call_orphans m op m1 m2 Hm Hop H1 H2) Hrun).
Qed.

Lemma stranded_step (s : nat) st m (e : event context) m' :
  stranded s st m → step m e = Some m' → stranded s st m'.
Proof.
  intros (Hs & Hg & Hm). pose proof (lookup_lt_Some _ _ _ Hs) as Hlt.
  destruct e as [| | | | | | | |s']; cbn.
  - intros [= <-]. split; [by plumbing|]. split; [done|]. plumbing.
    intros type h.
    intros [[<- <-]|[_ Hh]]%lookup_insert_Some; [done|by eapply Hm].
  - intros [= <-]. split; [by plumbing|]. split; [done|]. plumbing.
    intros type h.
    repeat (intros [[<- <-]|[_ Hh]]%lookup_insert_Some; [done|revert Hh]).
    apply Hm.
  - intros [= <-]. split; [by plumbing|]. split; [done|]. plumbing.
    intros type h.
    repeat (intros [[<- <-]|[_ Hh]]%lookup_insert_Some; [done|revert Hh]).
    apply Hm.
  - intros [= <-]. unfold AISessionManager.promptStreaming. cbn.
    case_match; cbn [fst];
      (split; [plumbing; try done; by apply lookup_app_l_Some|]);
      (split; [done|]); plumbing; [done|].
    intros type h.
    repeat (intros [[<- <-]|[_ Hh]]%lookup_insert_Some;
            [cbn; intros [= ]; lia|revert Hh]).
    apply Hm.
  - intros [= <-]. split; [by plumbing|]. split; [done|]. plumbing.
    intros type h.
    intros [[<- <-]|[_ Hh]]%lookup_insert_Some; [done|by eapply Hm].
  - intros [= <-]. unfold destroy. split; [|split; [done|]].
    + repeat case_match; by plumbing.
    + intros type h. repeat case_match; cbn; by rewrite lookup_empty.
  - case_match; intros [= <-]. unfold onMessage.
    destruct (_messageHandlers m !! _) as [h|] eqn:Hh; [|done].
    split; [|split; [done|]].
    + rewrite streams_call_ne; [done|]. by eapply Hm.
    + intros type h' Hh'%messageHandlers_call. by eapply Hm.
  - case_match; by intros [= <-].
  - unfold pull. intros Hpull.
    destruct (decide (s' = s)) as [->|Hne].
    + rewrite Hs in Hpull. cbn in Hpull. unfold next in Hpull.
      by rewrite Hg in Hpull.
    + destruct (streams m !! s') as [st1|]; [cbn in Hpull|done].
      destruct (next st1); [cbn in Hpull|done]. injection Hpull as <-.
      split; [|done]. cbn. by rewrite list_lookup_insert_ne.
Qed.

Lemma stranded_run (s : nat) st es : ∀ m m',
  stranded s st m → run m es = Some m' → stranded s st m'.
Proof.
  induction es as [|e es IH]; intros m m' Hm; cbn.
  - by intros [= <-].
  - destruct (AISessionManager.step _ _ _ _ _ m e) as [m1|] eqn:Hstep;
      [cbn|done].
    intros Hrun. eapply IH; [|done]. by eapply stranded_step.
Qed.

(** X19: [destroy()] empties the registry without settling anything.  A
promise that was pending when it was called is never settled, and a
consumer that was waiting for the next fragment of a stream is never
handed anything again, neither a fragment nor the end nor an error,
whatever the manager is asked to do and whatever arrives afterwards. *)
Theorem destroy_strands_pending m es m' :
  run m (Destroy :: es) = Some m' →
  (∀ p, promises m !! p = Some Pending → promises m' !! p = Some Pending) ∧
  (∀ s st, streams m !! s = Some st → generator st = AwaitingChunk →
           streams m' !! s = Some st).
Proof.
  cbn. intros Hrun.
  assert (Hempty : ∀ type h, _messageHandlers (destroy m) !! type = Some h →
                     False).
  { intros type h. unfold destroy.
    repeat case_match; cbn; by rewrite lookup_empty. }
  assert (Hpromises : promises (destroy m) = promises m).
  { unfold destroy. repeat case_match; by plumbing. }
  assert (Hstreams : streams (destroy m) = streams m).
  { unfold destroy. repeat case_match; by plumbing. }
  split.
  - intros p Hp.
    eapply (orphaned_run p es (destroy m) m'); [|done].
    split; [by rewrite Hpromises|]. intros type h Hh. by destruct (Hempty _ _ Hh).
  - intros s st Hs Hg.
    eapply (stranded_run s st es (destroy m) m'); [|done].
    split; [by rewrite Hstreams|]. split; [done|].
    intros type h Hh. by destruct (Hempty _ _ Hh).
Qed.

(** X17: what a stream hands to its consumer are payloads of [chunk]
messages that arrived on the port, each at most once and in the order of
arrival: the fragments of every stream, after any sequence of calls, port
events and pulls, are a subsequence of the chunks received. *)
Theorem stream_yields_chunks_in_order es m (s : nat) st :
  run new es = Some m →
  streams m !! s = Some st →
  fragments st `sublist_of` chunks_received es.
Proof.
  intros Hrun Hs.
  pose proof (within_run es [] new m registry_ok_new streams_ok_new
                (Forall_nil_2 _) Hrun) as Hm.
  unfold within in Hm. eapply Forall_lookup_1 in Hm; [|done].
  etrans; [|done]. by apply sublist_inserts_r.
Qed.

End Events.

Lemma stream_yields_chunks_in_order_witness :
  fragments eager_stream `sublist_of` chunks_received eager_consumer.
Proof.
  apply (stream_yields_chunks_in_order unit unit no_appInfo plain_system_prompt
           plain_prompt eager_consumer
           {| _port := Some 0;
              _messageHandlers := ∅;
              _isConnected := true; _hasActiveSession := true;
              connections := 1;
              posted := [(0, {| Protocol.type := "create-session";
                                Protocol.messages := [] |});
                         (0, {| Protocol.type := "prompt-streaming";
                                Protocol.messages :=
                                  [{| Protocol.role := "system";
                                      Protocol.content := "system" |};
                                   {| Protocol.role := "user";
                                      Protocol.content := "hi" |}] |})];
              promises := [Resolved RTrue; Resolved (RStream 0)];
              streams := [eager_stream];
              onProgress_calls := [] |} 0 eager_stream);
    [vm_compute; reflexivity|reflexivity].
Defined.

Lemma second_call_orphans_first_witness :
  promises two_usage_queries !! 0 = Some Pending.
Proof.
  apply (second_call_orphans_first unit unit no_appInfo plain_system_prompt
           plain_prompt [] new GetUsageInfo
           [Receive (Protocol.usage_info None)] two_usage_queries);
    reflexivity.
Defined.

Lemma destroy_strands_pending_witness :
  (∀ p, promises waiting_consumer !! p = Some Pending →
        promises destroyed_and_recreated !! p = Some Pending) ∧
  (∀ s st, streams waiting_consumer !! s = Some st →
           generator st = AwaitingChunk →
           streams destroyed_and_recreated !! s = Some st).
Proof.
  apply (destroy_strands_pending unit unit no_appInfo plain_system_prompt
           plain_prompt waiting_consumer
           [CreateSession; Receive Protocol.session_created]
           destroyed_and_recreated).
  vm_compute. reflexivity.
Defined.

End AISessionManagerRunsFacts.

(** * Properties of whole operations over the port *)

Module ChannelRunsFacts.
Import Js AISessionManager AISessionManagerFacts ChannelRuns.

Implicit Types (m : manager).

#[local] Hint Rewrite streams_settle streams_connect streams_send
  posted_settle posted_connect
  messageHandlers_settle messageHandlers_connect messageHandlers_send
  hasActiveSession_settle hasActiveSession_connect
  promises_connect promises_send port_settle isConnected_settle : manager.

Lemma filter_truthy_strings_app (ss : list string) (str : string) :
  List.filter truthy (map VString (ss ++ [str]))
  = List.filter truthy (map VString ss)
    ++ (if truthy (VString str) then [VString str] else []).
Proof. rewrite map_app, List.filter_app. cbn. by case_match. Qed.

(** ** Operations that resolve a promise *)

Lemma send_connected message m port :
  _isConnected m = true → _port m = Some port →
  _send message m = set_posted (posted m ++ [(port, message)]) m.
Proof. intros Hc Hp. unfold _send, _connect. by rewrite Hc, Hp. Qed.

(** The manager after [new Promise] and [_connect()]. *)
Lemma connected_with_promise m :
  Channel.connection_ok m →
  ∃ port,
    let m0 := _connect (new_Promise m).1 in
    _isConnected m0 = true ∧ _port m0 = Some port ∧
    promises m0 = promises m ++ [Pending] ∧
    _messageHandlers m0 = _messageHandlers m ∧
    _hasActiveSession m0 = _hasActiveSession m ∧
    onProgress_calls m0 = onProgress_calls m.
Proof.
  intros Hm. unfold _connect, new_Promise. cbn.
  destruct (_isConnected m) eqn:Hc; cbn.
  - destruct (Hm Hc) as [port Hport]. by exists port.
  - by eexists.
Qed.

Lemma receive_app out1 out2 m :
  receive (out1 ++ out2) m = receive out2 (receive out1 m).
Proof. unfold receive. by rewrite foldl_app. Qed.

Lemma availability_ready (a : string) :
  let status := (Background.availability_status a).1 in
  String.eqb status "ready" || String.eqb status "needs-download" = true
  ↔ a = "available" ∨ a = "downloadable".
Proof.
  unfold Background.availability_status.
  destruct (String.eqb_spec a "available") as [->|Ha1]; [cbn; tauto|].
  destruct (String.eqb_spec a "downloadable") as [->|Ha2]; [cbn; tauto|].
  repeat case_match; cbn; split; try done; intros [?|?]; done.
Qed.

Lemma checkAvailability_unfold m :
  checkAvailability m
  = (_send {| Protocol.type := "check-availability"; Protocol.messages := [] |}
       (_on "availability" (checkAvailability_handler (length (promises m)))
          (_connect (new_Promise m).1)),
     length (promises m)).
Proof. reflexivity. Qed.

(** X21: [checkAvailability()] over the port.  Whatever the state of the
script, and whether the provider answers or fails, the promise resolves,
never rejects, and its handler is taken out of the registry;
[available] is true exactly when the Prompt API is there and the provider
answered 'available' or 'downloadable'. *)
Theorem checkAvailability_end_to_end m σ (o : string + string) :
  Channel.connection_ok m →
  ∃ m1 port σ' out available status message,
    checkAvailability m = (m1, length (promises m)) ∧
    last (posted m1)
    = Some (port, Background.request_of "check-availability") ∧
    Background.run σ
      (Background.Message port (Background.request_of "check-availability")
       :: (if Background.LanguageModel_in_self σ
           then [Background.Settle (length (Background.tasks σ))
                   (Background.availability_settles o)]
           else []))
    = Some (σ', out) ∧
    promises (receive out m1) !! length (promises m)
    = Some (Resolved (RAvailability available status message)) ∧
    _messageHandlers (receive out m1) !! "availability" = None ∧
    (available = true
     ↔ Background.LanguageModel_in_self σ = true ∧
       (o = inl "available" ∨ o = inl "downloadable")).
Proof.
  intros Hm. destruct (connected_with_promise m Hm)
    as (port & Hc & Hport & Hpromises & Hhandlers & _).
  rewrite checkAvailability_unfold. cbn zeta in *.
  set (m0 := _connect (new_Promise m).1) in *.
  rewrite (send_connected _ _ port) by done.
  set (m1 := set_posted _ _).
  assert (Hp : promises m1 !! length (promises m) = Some Pending).
  { subst m1. cbn. rewrite Hpromises. by apply list_lookup_middle. }
  assert (Hh : _messageHandlers m1 !! "availability"
               = Some (checkAvailability_handler (length (promises m)))).
  { subst m1. cbn. by rewrite lookup_insert_eq. }
  assert (Hlast : last (posted m1)
                  = Some (port, Background.request_of "check-availability")).
  { subst m1. cbn. by rewrite last_snoc. }
  clearbody m1.
  assert (Hm1 : ∀ status message,
            promises (onMessage (Protocol.availability status message) m1)
              !! length (promises m)
            = Some (Resolved (RAvailability
                      (String.eqb status "ready"
                       || String.eqb status "needs-download") status message)) ∧
            _messageHandlers (onMessage (Protocol.availability status message) m1)
              !! "availability" = None).
  { intros status message. unfold onMessage. cbn. rewrite Hh. cbn.
    split; [by apply lookup_settle|].
    rewrite messageHandlers_settle. cbn. by rewrite lookup_delete_eq. }
  exists m1, port.
  unfold Background.run, Background.step, Background.onMessage,
    Background.handleCheckAvailability. cbn.
  destruct (Background.LanguageModel_in_self σ) eqn:Hsup; cbn.
  - unfold Background.resume. rewrite BackgroundFacts.lookup_suspend. cbn.
    destruct o as [a|msg]; cbn.
    + pose proof (availability_ready a) as Hready. cbn zeta in Hready.
      destruct (Background.availability_status a) as [status message]. cbn.
      eexists _, _, _, status, message. split; [done|].
      split; [done|]. split; [done|].
      cbn. destruct (Hm1 status message) as [H1 H2].
      split; [done|]. split; [done|]. cbn in Hready. rewrite Hready.
      split; [by intros [->| ->]; auto|]. by intros [_ [[= ->]|[= ->]]]; auto.
    + eexists _, _, _, _, _. split; [done|].
      split; [done|]. split; [done|].
      cbn. destruct (Hm1 "error" ("Error: " +:+ msg)) as [H1 H2].
      split; [done|]. split; [done|]. cbn. split; [done|].
      by intros [_ [?|?]].
  - eexists _, _, _, _, _. split; [done|].
    split; [done|]. split; [done|].
    cbn. edestruct Hm1 as [H1 H2].
    split; [done|]. split; [done|]. cbn. split; [done|]. by intros [? _].
Qed.

Lemma checkAvailability_end_to_end_witness :
  ∃ m1 port σ' out available status message,
    checkAvailability new = (m1, 0) ∧
    last (posted m1)
    = Some (port, Background.request_of "check-availability") ∧
    Background.run Background.one_session
      [Background.Message port (Background.request_of "check-availability");
       Background.Settle 1 (Background.Fulfilled
                              (Background.PAvailability "downloadable"))]
    = Some (σ', out) ∧
    promises (receive out m1) !! 0
    = Some (Resolved (RAvailability available status message)) ∧
    _messageHandlers (receive out m1) !! "availability" = None ∧
    (available = true
     ↔ true = true ∧
       (@inl string string "downloadable" = inl "available" ∨
        @inl string string "downloadable" = inl "downloadable")).
Proof.
  apply (checkAvailability_end_to_end new Background.one_session
           (inl "downloadable") ChannelFacts.connection_ok_new).
Defined.

Lemma downloadModel_unfold onProgress m :
  downloadModel onProgress m
  = (_send {| Protocol.type := "download-model"; Protocol.messages := [] |}
       (_on "error" (downloadModel_errorHandler (length (promises m)))
          (_on "download-complete"
             (downloadModel_completeHandler (length (promises m)))
             (_on "download-progress" (downloadModel_progressHandler onProgress)
                (_connect (new_Promise m).1)))),
     length (promises m)).
Proof. reflexivity. Qed.

Lemma createSession_unfold m :
  createSession m
  = (_send {| Protocol.type := "create-session"; Protocol.messages := [] |}
       (_on "error" (createSession_errorHandler (length (promises m)))
          (_on "session-created" (createSession_handler (length (promises m)))
             (_connect (new_Promise m).1))),
     length (promises m)).
Proof. reflexivity. Qed.

(** Progress messages reach the callback, and change nothing else. *)
Lemma receive_progress port (onProgress : bool) (xs : list float) : ∀ m,
  _messageHandlers m !! "download-progress"
  = Some (downloadModel_progressHandler onProgress) →
  receive (map (fun x => (port, Protocol.download_progress x) : Background.post)
             xs) m
  = set_onProgress_calls
      (onProgress_calls m ++ (if onProgress then xs else [])) m.
Proof.
  induction xs as [|x xs IH]; intros m Hh.
  - cbn. destruct m, onProgress; cbn; by rewrite app_nil_r.
  - cbn. unfold receive in IH. unfold onMessage at 2. cbn. rewrite Hh.
    destruct onProgress; cbn.
    + rewrite IH by done. cbn. by rewrite <- app_assoc.
    + by rewrite IH.
Qed.

(** X22: [downloadModel(onProgress)] over the port, with a provider that
serves the download.  [onProgress] is called once per 'downloadprogress'
event of the provider, in order, with [e.loaded || 0]; then the promise
resolves, the active-session flag is set, the three handlers of the call
are out of the registry, and the script holds a session. *)
Theorem downloadModel_end_to_end m σ (a : string) loaded usage quota
    (onProgress : bool) :
  Channel.connection_ok m →
  Background.LanguageModel_in_self σ = true →
  String.eqb a "unavailable" = false →
  ∃ m1 port σ' out,
    downloadModel onProgress m = (m1, length (promises m)) ∧
    last (posted m1) = Some (port, Background.request_of "download-model") ∧
    Background.run σ
      (BackgroundRuns.download_model_turns (length (Background.tasks σ)) port
         a loaded usage quota)
    = Some (σ', out) ∧
    promises (receive out m1) !! length (promises m) = Some (Resolved RVoid) ∧
    _hasActiveSession (receive out m1) = true ∧
    onProgress_calls (receive out m1)
    = onProgress_calls m
      ++ (if onProgress then map (fun l => Js.or_number l 0) loaded else []) ∧
    _messageHandlers (receive out m1) !! "download-progress" = None ∧
    _messageHandlers (receive out m1) !! "download-complete" = None ∧
    _messageHandlers (receive out m1) !! "error" = None ∧
    is_Some (Background.promptAPISession σ').
Proof.
  intros Hm Hsup Ha. destruct (connected_with_promise m Hm)
    as (port & Hc & Hport & Hpromises & Hhandlers & Hsession & Hcalls).
  rewrite downloadModel_unfold. cbn zeta in *.
  set (m0 := _connect (new_Promise m).1) in *.
  rewrite (send_connected _ _ port) by done.
  set (m1 := set_posted _ _).
  destruct (BackgroundRunsFacts.download_model_run σ port a loaded usage quota
              Hsup Ha) as (σ' & Hrun & Hσ' & _).
  exists m1, port, σ'. eexists. split; [done|].
  split; [subst m1; cbn; by rewrite last_snoc|]. split; [exact Hrun|].
  rewrite receive_app.
  rewrite <- (map_map (fun l => Js.or_number l 0)
                (fun x => (port, Protocol.download_progress x))).
  rewrite (receive_progress port onProgress)
    by (subst m1; cbn;
        by rewrite !lookup_insert_ne, lookup_insert_eq by done).
  unfold receive. cbn. unfold onMessage. cbn.
  rewrite lookup_insert_ne, lookup_insert_eq by done. cbn.
  rewrite hasActiveSession_settle, messageHandlers_settle. cbn.
  split; [apply lookup_settle; cbn; rewrite Hpromises;
          by apply list_lookup_middle|].
  split; [done|].
  split; [unfold settle; cbn; rewrite Hpromises, list_lookup_middle by done;
          cbn; by rewrite Hcalls|].
  rewrite !lookup_delete_None. by rewrite Hσ'; eauto 10.
Qed.

Lemma downloadModel_end_to_end_witness :
  ∃ m1 port σ' out,
    downloadModel true new = (m1, 0) ∧
    last (posted m1) = Some (port, Background.request_of "download-model") ∧
    Background.run (Background.init true)
      (BackgroundRuns.download_model_turns 0 port "downloadable"
         [Some 0.5%float; None] None None)
    = Some (σ', out) ∧
    promises (receive out m1) !! 0 = Some (Resolved RVoid) ∧
    _hasActiveSession (receive out m1) = true ∧
    onProgress_calls (receive out m1) = [0.5%float; 0%float] ∧
    _messageHandlers (receive out m1) !! "download-progress" = None ∧
    _messageHandlers (receive out m1) !! "download-complete" = None ∧
    _messageHandlers (receive out m1) !! "error" = None ∧
    is_Some (Background.promptAPISession σ').
Proof.
  apply (downloadModel_end_to_end new (Background.init true) "downloadable"
           [Some 0.5%float; None] None None true
           ChannelFacts.connection_ok_new eq_refl eq_refl).
Defined.

(** A create-session that the provider fails, whatever the script
held. *)
Lemma create_session_fails σ port rs msg :
  Background.LanguageModel_in_self σ = true →
  Background.create_failure rs msg →
  ∃ σ',
    Background.run σ
      (Background.Message port (Background.request_of "create-session")
       :: map (Background.Settle (length (Background.tasks σ))) rs)
    = Some (σ', [(port, Protocol.error msg)]) ∧
    Background.promptAPISession σ' = None.
Proof.
  intros Hsup Hfail.
  unfold Background.run, Background.step, Background.onMessage,
    Background.handleCreateSession. cbn.
  rewrite Hsup. cbn.
  destruct (Background.promptAPISession σ) as [s|] eqn:Hs;
    destruct Hfail as [msg| |a msg Ha]; cbn;
    unfold Background.resume; cbn;
    (rewrite lookup_app_r by lia); rewrite Nat.sub_diag; cbn;
    try (eexists; split; [done|]; cbn; by rewrite ?Hs);
    unfold Background.handleCreateSession_availability,
      Background.initPromptAPISession_availability;
    rewrite Ha; cbn; rewrite list_lookup_insert_eq
      by (rewrite length_app; cbn; lia); cbn;
    eexists; (split; [done|]); cbn; by rewrite ?Hs.
Qed.

(** X23: when the provider fails a create-session, [createSession()]
rejects with the provider's message and its handlers are out of the
registry; the script holds no session afterwards, but the manager's
active-session flag is what it was: if it was set, [hasActiveSession()]
still answers true, and the manager will let the next prompt through to a
script that has no session. *)
Theorem failed_createSession_keeps_flag m σ rs msg :
  Channel.connection_ok m →
  Background.LanguageModel_in_self σ = true →
  Background.create_failure rs msg →
  ∃ m1 port σ' out,
    createSession m = (m1, length (promises m)) ∧
    last (posted m1) = Some (port, Background.request_of "create-session") ∧
    Background.run σ
      (Background.Message port (Background.request_of "create-session")
       :: map (Background.Settle (length (Background.tasks σ))) rs)
    = Some (σ', out) ∧
    promises (receive out m1) !! length (promises m) = Some (RejectedWith msg) ∧
    hasActiveSession (receive out m1) = hasActiveSession m ∧
    Background.promptAPISession σ' = None ∧
    _messageHandlers (receive out m1) !! "session-created" = None ∧
    _messageHandlers (receive out m1) !! "error" = None.
Proof.
  intros Hm Hsup Hfail. destruct (connected_with_promise m Hm)
    as (port & Hc & Hport & Hpromises & Hhandlers & Hsession & Hcalls).
  rewrite createSession_unfold. cbn zeta in *.
  set (m0 := _connect (new_Promise m).1) in *.
  rewrite (send_connected _ _ port) by done.
  set (m1 := set_posted _ _).
  destruct (create_session_fails σ port rs msg Hsup Hfail) as (σ' & Hrun & Hσ').
  exists m1, port, σ'. eexists. split; [done|].
  split; [subst m1; cbn; by rewrite last_snoc|]. split; [exact Hrun|].
  unfold receive, hasActiveSession. cbn. unfold onMessage. cbn.
  rewrite lookup_insert_eq. cbn.
  rewrite hasActiveSession_settle, messageHandlers_settle. cbn.
  split; [apply lookup_settle; cbn; rewrite Hpromises;
          by apply list_lookup_middle|].
  split; [done|]. split; [done|].
  by rewrite !lookup_delete_None; eauto.
Qed.

Lemma failed_createSession_keeps_flag_witness :
  ∃ m1 port σ' out,
    createSession with_session = (m1, 1) ∧
    last (posted m1) = Some (port, Background.request_of "create-session") ∧
    Background.run Background.one_session
      (Background.Message port (Background.request_of "create-session")
       :: map (Background.Settle 1)
            [Background.Fulfilled (Background.PAvailability "unavailable")])
    = Some (σ', out) ∧
    promises (receive out m1) !! 1
    = Some (RejectedWith "AI Model is not available on this device.") ∧
    hasActiveSession (receive out m1) = true ∧
    Background.promptAPISession σ' = None ∧
    _messageHandlers (receive out m1) !! "session-created" = None ∧
    _messageHandlers (receive out m1) !! "error" = None.
Proof.
  apply (failed_createSession_keeps_flag with_session Background.one_session
           _ _ (fun _ => ex_intro _ 0 eq_refl) eq_refl
           Background.model_unavailable).
Defined.

Section Events.

Variables (context appInfo : Type).
Variable context_appInfo : context -> option appInfo.
Variable _getDefaultSystemPrompt : option appInfo -> string.
Variable _formatPrompt : string -> option context -> string.

Let run := run context appInfo context_appInfo
             _getDefaultSystemPrompt _formatPrompt.

Lemma run_events_app es1 : ∀ m es2,
  run m (es1 ++ es2) = m1 ← run m es1; run m1 es2.
Proof.
  induction es1 as [|e es1 IH]; intros m es2; [done|]. cbn.
  destruct (step _ _ _ _ _ m e) as [m1|]; [cbn|done]. apply IH.
Qed.

Lemma run_then m es1 es2 m1 m2 :
  run m es1 = Some m1 → run m1 es2 = Some m2 → run m (es1 ++ es2) = Some m2.
Proof. intros H1 H2. rewrite run_events_app. unfold run in *. by rewrite H1. Qed.

(** A chunk arrives at a stream that is being consumed. *)
Lemma streaming_chunk (s : nat) d m port (str : string) :
  streaming s d m →
  ∃ m',
    run m (arrival s (port, Protocol.chunk (VString str))) = Some m' ∧
    streaming s (d ++ (if truthy (VString str)
                       then [Yielded (VString str)] else [])) m'.
Proof.
  intros (Hc & Hchunk & Hcomplete & Herror & Hs).
  pose proof (lookup_lt_Some _ _ _ Hs) as Hlt.
  unfold arrival. cbn [snd].
  change (truthy (VString str)) with (negb (String.eqb str EmptyString)).
  destruct (negb (String.eqb str EmptyString)) eqn:Htruthy.
  - cbn. rewrite Hc. cbn. unfold onMessage. cbn. rewrite Hchunk. cbn.
    unfold pull, with_streamHandlers. cbn.
    rewrite list_lookup_alter_eq, Hs. cbn. rewrite Htruthy. cbn.
    eexists. split; [done|]. unfold streaming. cbn.
    do 4 (split; [done|]).
    by rewrite list_lookup_insert_eq by (by rewrite length_alter).
  - cbn. rewrite Hc. cbn. unfold onMessage. cbn. rewrite Hchunk. cbn.
    eexists. split; [done|]. unfold streaming, with_streamHandlers. cbn.
    do 4 (split; [done|]).
    rewrite list_lookup_alter_eq, Hs. cbn. rewrite Htruthy. cbn.
    by rewrite app_nil_r.
Qed.

Lemma streaming_chunks port (ss : list string) : ∀ (s : nat) d m,
  streaming s d m →
  ∃ m',
    run m (mjoin (map (arrival s)
                    (map (fun v => (port, Protocol.chunk v) : Background.post)
                       (map VString ss))))
    = Some m' ∧
    streaming s (d ++ map Yielded (List.filter truthy (map VString ss))) m'.
Proof.
  induction ss as [|str ss IH] using rev_ind; intros s d m Hm.
  - exists m. cbn. by rewrite app_nil_r.
  - destruct (IH s d m Hm) as (m1 & Hrun1 & Hm1).
    destruct (streaming_chunk s _ m1 port str Hm1) as (m2 & Hrun2 & Hm2).
    exists m2. split.
    + rewrite !map_app, join_app, run_events_app. unfold run in *.
      rewrite Hrun1. cbn [mbind option_bind].
      cbn [map mjoin list_join]. by rewrite app_nil_r.
    + rewrite filter_truthy_strings_app, map_app, app_assoc.
      by destruct (truthy (VString str)).
Qed.

(** The stream ends. *)
Lemma streaming_end (s : nat) d m port failure :
  streaming s d m →
  ∃ m' st,
    run m (arrival s (port, match failure with
                            | None => Protocol.complete
                            | Some msg => Protocol.error msg
                            end))
    = Some m' ∧
    streams m' !! s = Some st ∧
    delivered st = d ++ [stream_outcome failure] ∧
    generator st = Completed ∧
    _messageHandlers m' !! "chunk" = None ∧
    _messageHandlers m' !! "complete" = None ∧
    _messageHandlers m' !! "error" = None.
Proof.
  intros (Hc & Hchunk & Hcomplete & Herror & Hs).
  assert (Hoff : ∀ h : gmap string handler,
            delete "error" (delete "complete" (delete "chunk" h)) !! "chunk" = None ∧
            delete "error" (delete "complete" (delete "chunk" h)) !! "complete" = None ∧
            delete "error" (delete "complete" (delete "chunk" h)) !! "error" = None).
  { intros h. rewrite !lookup_delete_None. tauto. }
  unfold arrival. destruct failure as [msg|]; cbn; rewrite Hc; cbn;
    unfold onMessage; cbn; rewrite ?Hcomplete, ?Herror; cbn;
    eexists _, _; (split; [done|]); cbn;
    rewrite list_lookup_alter_eq, Hs; cbn;
    (split; [done|]); cbn; (split; [done|]); (split; [done|]); apply Hoff.
Qed.

Lemma concatenation_truthy (ss : list string) :
  concatenation (List.filter truthy (map VString ss))
  = concatenation (map VString ss).
Proof.
  induction ss as [|str ss IH]; [done|]. cbn.
  destruct str as [|c str]; cbn; by rewrite IH.
Qed.

Lemma fragments_Yielded (vs : list value) (r : iteration) d :
  omap (fun r => match r with Yielded v => Some v | _ => None end)
    (map Yielded vs ++ d)
  = vs ++ omap (fun r => match r with Yielded v => Some v | _ => None end) d.
Proof. induction vs as [|v vs IH]; [done|]. cbn. by rewrite IH. Qed.

(** The call of [promptStreaming] and the first [next()]. *)
Lemma promptStreaming_starts userMessage history ctx m port :
  _isConnected m = true → _port m = Some port → _hasActiveSession m = true →
  ∃ m1 m1',
    step context appInfo context_appInfo _getDefaultSystemPrompt _formatPrompt
      m (PromptStreaming userMessage history ctx) = Some m1 ∧
    last (posted m1)
    = Some (port,
            {| Protocol.type := "prompt-streaming";
               Protocol.messages :=
                 _buildMessagesArray context appInfo context_appInfo
                   _getDefaultSystemPrompt _formatPrompt
                   userMessage history ctx |}) ∧
    promises m1 !! length (promises m)
    = Some (Resolved (RStream (length (streams m)))) ∧
    run m1 [Next (length (streams m))] = Some m1' ∧
    streaming (length (streams m)) [] m1'.
Proof.
  intros Hc Hport Hsession. cbn. unfold promptStreaming. cbn.
  unfold _connect, _send, _connect. cbn. rewrite Hc. cbn.
  rewrite Hsession, Hc. cbn. rewrite Hport. cbn.
  eexists _, _. split; [done|].
  split; [rewrite posted_settle; cbn; by rewrite last_snoc|].
  split.
  { apply lookup_settle. cbn. by apply list_lookup_middle. }
  unfold pull. rewrite streams_settle. cbn.
  rewrite list_lookup_middle by done. cbn.
  split; [done|]. unfold streaming. cbn.
  rewrite isConnected_settle, messageHandlers_settle. cbn.
  split; [done|].
  split; [by rewrite !lookup_insert_ne, lookup_insert_eq by done|].
  split; [by rewrite lookup_insert_ne, lookup_insert_eq by done|].
  split; [by rewrite lookup_insert_eq|].
  apply list_lookup_insert_eq. rewrite length_app. cbn. lia.
Qed.

(** X20: from the panel's prompt to the text on the screen.  The manager
has a session and an open port, and the script holds a session.  Then
[promptStreaming] posts the request with the messages it built and
resolves with the stream; the script, served by the provider with string
fragments and then the end or a failure, posts its chunks; and the
[for await] loop of the panel is handed every fragment that is not empty,
in order, and then the end of the iteration, or the provider's error: the
text it has put together is the concatenation of all the provider's
fragments. *)
Theorem panel_reads_provider_stream userMessage history ctx m port σ
    (ss : list string) failure :
  _isConnected m = true → _port m = Some port → _hasActiveSession m = true →
  is_Some (Background.promptAPISession σ) →
  let turns := _buildMessagesArray context appInfo context_appInfo
                 _getDefaultSystemPrompt _formatPrompt
                 userMessage history ctx in
  let s := length (streams m) in
  ∃ m1 σ' out m2 st,
    step context appInfo context_appInfo _getDefaultSystemPrompt _formatPrompt
      m (PromptStreaming userMessage history ctx) = Some m1 ∧
    last (posted m1)
    = Some (port, {| Protocol.type := "prompt-streaming";
                     Protocol.messages := turns |}) ∧
    promises m1 !! length (promises m) = Some (Resolved (RStream s)) ∧
    Background.run σ
      (BackgroundRuns.prompt_streaming_turns (length (Background.tasks σ)) port
         turns (map VString ss) failure)
    = Some (σ', out) ∧
    run m1 (for_await s out) = Some m2 ∧
    streams m2 !! s = Some st ∧
    delivered st
    = map Yielded (List.filter truthy (map VString ss))
      ++ [stream_outcome failure] ∧
    concatenation (fragments st) = concatenation (map VString ss).
Proof.
  intros Hc Hport Hsession Hσ turns s.
  destruct (promptStreaming_starts userMessage history ctx m port
              Hc Hport Hsession)
    as (m1 & m1' & Hstep & Hposted & Hpromise & Hnext & Hm1').
  destruct (BackgroundRunsFacts.prompt_streaming_run σ port turns
              (map VString ss) failure Hσ) as (σ' & Hrun & _).
  destruct (streaming_chunks port ss s [] m1' Hm1') as (m2 & Hchunks & Hm2).
  destruct (streaming_end s _ m2 port failure Hm2)
    as (m3 & st & Hend & Hst & Hdelivered & _).
  exists m1, σ'. eexists. exists m3, st.
  split; [done|]. split; [done|]. split; [done|]. split; [exact Hrun|].
  split; [|split; [done|split; [done|]]].
  - unfold for_await.
    change (Next s :: ?es) with ([Next (context:=context) s] ++ es).
    rewrite map_app, join_app.
    eapply run_then; [exact Hnext|].
    eapply run_then; [exact Hchunks|].
    cbn [map mjoin list_join]. rewrite app_nil_r.
    by destruct failure.
  - unfold fragments. rewrite Hdelivered. cbn [app].
    rewrite (fragments_Yielded _ Done). destruct failure; cbn;
      by rewrite app_nil_r, concatenation_truthy.
Qed.

End Events.

Lemma panel_reads_provider_stream_witness :
  ∃ m1 σ' out m2 st,
    step unit unit no_appInfo plain_system_prompt plain_prompt
      with_session (PromptStreaming "hi" None None) = Some m1 ∧
    last (posted m1)
    = Some (0, {| Protocol.type := "prompt-streaming";
                  Protocol.messages :=
                    [{| Protocol.role := "system"; Protocol.content := "system" |};
                     {| Protocol.role := "user"; Protocol.content := "hi" |}] |}) ∧
    promises m1 !! 1 = Some (Resolved (RStream 0)) ∧
    Background.run Background.one_session
      (BackgroundRuns.prompt_streaming_turns 1 0
         [{| Protocol.role := "system"; Protocol.content := "system" |};
          {| Protocol.role := "user"; Protocol.content := "hi" |}]
         (map VString ["Hel"; EmptyString; "lo"]) None)
    = Some (σ', out) ∧
    run_plain m1 (for_await 0 out) = Some m2 ∧
    streams m2 !! 0 = Some st ∧
    delivered st = [Yielded (VString "Hel"); Yielded (VString "lo"); Done] ∧
    concatenation (fragments st) = "Hello".
Proof.
  apply (panel_reads_provider_stream unit unit no_appInfo plain_system_prompt
           plain_prompt "hi" None None with_session 0 Background.one_session
           ["Hel"; EmptyString; "lo"] None eq_refl eq_refl eq_refl).
  by exists 0.
Defined.

End ChannelRunsFacts.

(** * Properties of the chat panel *)

Module AIChatFacts.
Import Js AIChat.

Implicit Types (c : chat).

Lemma chat_run_app es1 : ∀ c es2,
  run c (es1 ++ es2)
  = '(c1, calls1) ← run c es1;
    '(c2, calls2) ← run c1 es2;
    Some (c2, calls1 ++ calls2).
Proof.
  induction es1 as [|e es1 IH]; intros c es2; cbn.
  - by destruct (run c es2) as [[c2 calls2]|].
  - destruct (step c e) as [[c1 calls1]|]; [cbn|done].
    rewrite IH. destruct (run c1 es1) as [[c2 calls2]|]; [cbn|done].
    destruct (run c2 es2) as [[c3 calls3]|]; [cbn|done].
    by rewrite app_assoc.
Qed.

Lemma insert_snoc {A} (l : list A) (x y : A) :
  <[length l := y]> (l ++ [x]) = l ++ [y].
Proof.
  replace (length l) with (length l + 0) at 1 by lia.
  by rewrite insert_app_r.
Qed.

Lemma slice_0_minus_1_snoc {A} (l : list A) (x : A) :
  slice_0_minus_1 (l ++ [x]) = l.
Proof.
  unfold slice_0_minus_1. rewrite length_app. cbn.
  replace (length l + 1 - 1) with (length l) by lia.
  by rewrite take_app_length.
Qed.

(** What a settled promise resumes. *)
Lemma resume_parked (i : nat) r c t :
  tasks c !! i = Some t →
  resume i r c
  = match t with
    | CheckModelAvailability_checkAvailability =>
        _checkModelAvailability_settled i r c
    | DownloadModel_downloadModel =>
        Some (_handleDownloadModel_downloadModel i r c)
    | DownloadModel_initializeSession =>
        let '(c, calls) := _initializeSession_settled r c in
        Some (park i Finished c, calls)
    | SendMessage_initializeSession userMessage =>
        let '(c, calls) := _initializeSession_settled r c in
        let '(c, calls') := _handleSendMessage_send (Some i) userMessage c in
        Some (c, calls ++ calls')
    | SendMessage_saveMessage userMessage =>
        Some (_handleSendMessage_saveMessage i userMessage r c)
    | SendMessage_promptStreaming =>
        Some (_handleSendMessage_promptStreaming i r c)
    | SendMessage_next fullResponse =>
        _handleSendMessage_next i fullResponse r c
    | SendMessage_saveResponse =>
        Some (_handleSendMessage_saveResponse i r c)
    | ClearHistory_clearHistory =>
        Some (_handleClearHistory_clearHistory i r c)
    | ClearHistory_initializeSession =>
        Some (_handleClearHistory_initializeSession i r c)
    | UpdateTokenCounter_getUsageInfo => _updateTokenCounter_settled i r c
    | LoadHistory_loadHistory => _loadHistory_settled i r c
    | Finished => None
    end.
Proof. unfold resume. by intros ->. Qed.

(** The handlers on a chat whose fields are given: the inner calls first. *)
Ltac settled :=
  cbv [_handleSendMessage_send _handleSendMessage_saveMessage
       _handleSendMessage_promptStreaming Protocol.role Protocol.content
       _handleSendMessage_saveResponse _handleSendMessage_catch
       _handleClearHistory _handleClearHistory_clearHistory
       _handleClearHistory_initializeSession _initializeSession_settled
       _updateTokenCounter _loadHistory _addMessage _addSystemMessage
       _handleDownloadModel _handleDownloadModel_downloadModel onProgress
       _renderModelStatus status status_text download_shown download_disabled
       prompt_context user_turn assistant_turn system_turn element_of
       park suspend set_url set_context set_messages set_streaming
       set_elements set_container set_token_counter set_status_banner
       set_tasks _currentUrl _currentContext _messages _isStreaming
       _streamingMessageElement _getAppInfo elements container welcome
       token_counter status_banner tasks fst snd].

(** The turns of [_handleSendMessage], one by one. *)
Lemma step_send url ctx msgs el app els cont w tc sb ts (userMessage : string) :
  userMessage ≠ EmptyString →
  step (Build_chat url ctx msgs false el app els cont w tc sb ts)
       (Send userMessage true)
  = Some (Build_chat url ctx (msgs ++ [user_turn userMessage]) false el app
            (els ++ [element_of (user_turn userMessage)])
            (cont ++ [length els]) false tc sb
            (ts ++ [SendMessage_saveMessage userMessage]),
          [saveMessage url "user" userMessage]).
Proof. by destruct userMessage. Qed.

Lemma step_saveMessage url ctx msgs s el app els cont w tc sb ts (i : nat)
    (userMessage : string) :
  ts !! i = Some (SendMessage_saveMessage userMessage) →
  step (Build_chat url ctx msgs s el app els cont w tc sb ts)
       (Settle i (Fulfilled FVoid))
  = Some (Build_chat url ctx (msgs ++ [assistant_turn EmptyString]) true
            (Some (length els)) app
            (els ++ [element_of (assistant_turn EmptyString)])
            (cont ++ [length els]) false tc sb
            (<[i := SendMessage_promptStreaming]> ts),
          [promptStreaming userMessage msgs
             (prompt_context
                (Build_chat url ctx msgs s el app els cont w tc sb ts))]).
Proof.
  intros Hi. cbn [step].
  rewrite (resume_parked _ _ _ (SendMessage_saveMessage userMessage)) by done.
  settled. by rewrite slice_0_minus_1_snoc.
Qed.

Lemma step_promptStreaming url ctx msgs s el app els cont w tc sb ts (i : nat) :
  ts !! i = Some SendMessage_promptStreaming →
  step (Build_chat url ctx msgs s el app els cont w tc sb ts)
       (Settle i (Fulfilled FStream))
  = Some (Build_chat url ctx msgs s el app els cont w tc sb
            (<[i := SendMessage_next EmptyString]> ts), [next]).
Proof.
  intros Hi. cbn [step].
  by rewrite (resume_parked _ _ _ SendMessage_promptStreaming).
Qed.

Lemma step_done url ctx msgs s el app els cont w tc sb ts (i : nat)
    (fullResponse : string) :
  ts !! i = Some (SendMessage_next fullResponse) →
  step (Build_chat url ctx msgs s el app els cont w tc sb ts)
       (Settle i (Fulfilled FDone))
  = Some (Build_chat url ctx msgs s el app els cont w tc sb
            (<[i := SendMessage_saveResponse]> ts),
          [saveMessage url "assistant" fullResponse]).
Proof.
  intros Hi. cbn [step].
  by rewrite (resume_parked _ _ _ (SendMessage_next fullResponse)).
Qed.

Lemma step_saveResponse url ctx msgs s el app els cont w tc sb ts (i : nat) :
  ts !! i = Some SendMessage_saveResponse →
  step (Build_chat url ctx msgs s el app els cont w tc sb ts)
       (Settle i (Fulfilled FVoid))
  = Some (Build_chat url ctx msgs false None app els cont w tc sb
            (<[i := Finished]> (ts ++ [UpdateTokenCounter_getUsageInfo])),
          [getUsageInfo]).
Proof.
  intros Hi. cbn [step].
  by rewrite (resume_parked _ _ _ SendMessage_saveResponse).
Qed.

(** A run, turn by turn. *)
Lemma run_step c e es c1 calls1 c2 calls2 :
  step c e = Some (c1, calls1) →
  run c1 es = Some (c2, calls2) →
  run c (e :: es) = Some (c2, calls1 ++ calls2).
Proof. intros H1 H2. cbn [run]. rewrite H1. cbn. by rewrite H2. Qed.

Lemma run_calls c es c' calls calls' :
  run c es = Some (c', calls) → calls = calls' → run c es = Some (c', calls').
Proof. by intros ? <-. Qed.

Lemma run_eq c es c1 calls1 c' calls' :
  run c es = Some (c1, calls1) → c1 = c' → calls1 = calls' →
  run c es = Some (c', calls').
Proof. by intros ? <- <-. Qed.

Lemma run_run c es1 es2 c1 calls1 c2 calls2 :
  run c es1 = Some (c1, calls1) →
  run c1 es2 = Some (c2, calls2) →
  run c (es1 ++ es2) = Some (c2, calls1 ++ calls2).
Proof. intros H1 H2. rewrite chat_run_app, H1. cbn. by rewrite H2. Qed.

Lemma step_saveMessage_rejected url ctx msgs s el app els cont w tc sb ts
    (i : nat) (userMessage lastError : string) :
  ts !! i = Some (SendMessage_saveMessage userMessage) →
  step (Build_chat url ctx msgs s el app els cont w tc sb ts)
       (Settle i (Rejected lastError))
  = Some (Build_chat url ctx msgs s el app els cont w tc sb
            (<[i := Finished]> ts), []).
Proof.
  intros Hi. cbn [step].
  by rewrite (resume_parked _ _ _ (SendMessage_saveMessage userMessage)).
Qed.

Lemma step_send_without_session url ctx msgs el app els cont w tc sb ts
    (userMessage : string) :
  userMessage ≠ EmptyString →
  step (Build_chat url ctx msgs false el app els cont w tc sb ts)
       (Send userMessage false)
  = Some (Build_chat url ctx msgs false el app els cont w tc sb
            (ts ++ [SendMessage_initializeSession userMessage]),
          [createSession]).
Proof. by destruct userMessage. Qed.

Lemma step_initializeSession_rejected url ctx msgs s el app els cont w tc sb ts
    (i : nat) (userMessage msg : string) :
  ts !! i = Some (SendMessage_initializeSession userMessage) →
  step (Build_chat url ctx msgs s el app els cont w tc sb ts)
       (Settle i (Rejected msg))
  = Some (Build_chat url ctx
            (msgs ++ [system_turn ("Error initializing session: " +:+ msg);
                      user_turn userMessage])
            s el app
            (els ++ [element_of
                       (system_turn ("Error initializing session: " +:+ msg));
                     element_of (user_turn userMessage)])
            (cont ++ [length els; S (length els)]) false tc sb
            (<[i := SendMessage_saveMessage userMessage]> ts),
          [saveMessage url "user" userMessage]).
Proof.
  intros Hi. cbn [step].
  rewrite (resume_parked _ _ _ (SendMessage_initializeSession userMessage))
    by done.
  settled. rewrite <- !app_assoc, length_app, Nat.add_1_r. done.
Qed.

(** X24: when the save of the user's message fails, [_handleSendMessage]
ends there, outside its [try]: nothing is sent to the model, no error is
shown and no placeholder made; the user's turn stays in [_messages] and on
the page. *)
Theorem failed_save_stops_the_send c (userMessage lastError : string) :
  userMessage ≠ EmptyString →
  _isStreaming c = false →
  ∃ c',
    run c [Send userMessage true;
           Settle (length (tasks c)) (Rejected lastError)]
    = Some (c', [saveMessage (_currentUrl c) "user" userMessage]) ∧
    _messages c' = _messages c ++ [user_turn userMessage] ∧
    elements c' = elements c ++ [element_of (user_turn userMessage)] ∧
    _isStreaming c' = false ∧
    tasks c' = tasks c ++ [Finished].
Proof.
  intros Htext Hs.
  destruct c as [url ctx msgs streaming el app els cont w tc sb ts].
  cbn in Hs. subst streaming. cbn [_currentUrl _messages elements tasks].
  eexists. split.
  - eapply run_calls.
    eapply run_step; [by apply step_send|].
    eapply run_step;
      [by apply (step_saveMessage_rejected _ _ _ _ _ _ _ _ _ _ _ _ _ userMessage),
         list_lookup_middle|].
    reflexivity. done.
  - cbn. by rewrite insert_snoc.
Qed.

Lemma failed_save_stops_the_send_witness :
  ∃ c',
    run (idle "https://example.org/" [])
        [Send "Hi" true; Settle 0 (Rejected "QUOTA_BYTES quota exceeded")]
    = Some (c', [saveMessage (Some "https://example.org/") "user" "Hi"]) ∧
    _messages c' = [user_turn "Hi"] ∧
    elements c' = [element_of (user_turn "Hi")] ∧
    _isStreaming c' = false ∧
    tasks c' = [Finished].
Proof.
  apply (failed_save_stops_the_send (idle "https://example.org/" []) "Hi"
           "QUOTA_BYTES quota exceeded"); done.
Defined.

(** X25: a session that cannot be created does not stop the send.
[_initializeSession] catches the rejection of [createSession] and shows
it as a system message, so the [catch] of line 206 is never entered: the
handler goes on, adds the user's message and saves it.  Both turns, the
system's and the user's, are in [_messages] afterwards. *)
Theorem failed_session_does_not_stop_the_send c (userMessage msg : string) :
  userMessage ≠ EmptyString →
  _isStreaming c = false →
  ∃ c',
    run c [Send userMessage false;
           Settle (length (tasks c)) (Rejected msg)]
    = Some (c', [createSession;
                 saveMessage (_currentUrl c) "user" userMessage]) ∧
    _messages c'
    = _messages c ++ [system_turn ("Error initializing session: " +:+ msg);
                      user_turn userMessage] ∧
    tasks c' = tasks c ++ [SendMessage_saveMessage userMessage].
Proof.
  intros Htext Hs.
  destruct c as [url ctx msgs streaming el app els cont w tc sb ts].
  cbn in Hs. subst streaming. cbn [_currentUrl _messages tasks].
  eexists. split.
  - eapply run_calls.
    eapply run_step; [by apply step_send_without_session|].
    eapply run_step;
      [by apply (step_initializeSession_rejected _ _ _ _ _ _ _ _ _ _ _ _ _
                   userMessage), list_lookup_middle|].
    reflexivity. done.
  - cbn. by rewrite insert_snoc.
Qed.

Lemma failed_session_does_not_stop_the_send_witness :
  ∃ c',
    run (idle "https://example.org/" [])
        [Send "Hi" false; Settle 0 (Rejected "The device is not eligible.")]
    = Some (c', [createSession;
                 saveMessage (Some "https://example.org/") "user" "Hi"]) ∧
    _messages c'
    = [system_turn "Error initializing session: The device is not eligible.";
       user_turn "Hi"] ∧
    tasks c' = [SendMessage_saveMessage "Hi"].
Proof.
  apply (failed_session_does_not_stop_the_send
           (idle "https://example.org/" []) "Hi" "The device is not eligible.");
    done.
Defined.

(** ** One exchange *)

Lemma alter_textContent (els : list element) (e : nat) (r full full' : string) :
  els !! e = Some {| element_role := r; textContent := full |} →
  alter (fun el => {| element_role := element_role el;
                      textContent := full' |}) e els
  = <[e := {| element_role := r; textContent := full' |}]> els.
Proof.
  intros He. apply list_eq. intros j. destruct (decide (j = e)) as [->|Hne].
  - rewrite list_lookup_alter_eq, He.
    by rewrite list_lookup_insert_eq by (by eapply lookup_lt_Some).
  - by rewrite list_lookup_alter_ne, list_lookup_insert_ne.
Qed.

(** The fragments arrive, one per turn, while the loop of lines 262-266
runs as task [i] and shows the answer in element [e]. *)
Lemma chunks_arrive url ctx msgs app cont w tc sb (i e : nat) (r : string)
    (chunks : list string) : ∀ els ts (full : string),
  ts !! i = Some (SendMessage_next full) →
  els !! e = Some {| element_role := r; textContent := full |} →
  run {| _currentUrl := url; _currentContext := ctx; _messages := msgs;
         _isStreaming := true; _streamingMessageElement := Some e;
         _getAppInfo := app; elements := els; container := cont;
         welcome := w; token_counter := tc; status_banner := sb;
         tasks := ts |}
      (map (fun chunk => Settle i (Fulfilled (FYield chunk))) chunks)
  = Some ({| _currentUrl := url; _currentContext := ctx; _messages := msgs;
             _isStreaming := true; _streamingMessageElement := Some e;
             _getAppInfo := app;
             elements :=
               <[e := {| element_role := r;
                         textContent := foldl String.append full chunks |}]> els;
             container := cont;
             welcome := w; token_counter := tc; status_banner := sb;
             tasks := <[i := SendMessage_next (foldl String.append full chunks)]>
                        ts |},
          replicate (length chunks) next).
Proof.
  induction chunks as [|chunk chunks IH]; intros els ts full Hi He.
  - cbn. by rewrite !list_insert_id.
  - cbn [map run step].
    rewrite (resume_parked _ _ _ (SendMessage_next full)) by done.
    cbn -[run]. rewrite (alter_textContent els e r full) by done.
    unfold park, set_elements, set_tasks. cbn -[run].
    rewrite (IH _ _ (full +:+ chunk)).
    + cbn. by rewrite !list_insert_insert_eq.
    + apply list_lookup_insert_eq. by eapply lookup_lt_Some.
    + apply list_lookup_insert_eq. by eapply lookup_lt_Some.
Qed.

(** X26: one exchange, from the click to the saved answer, with nothing
else in between.  The user's message is shown and saved; then
[promptStreaming] is given the message and, as history, what [_messages]
held followed by that same message; the fragments are put together in
the placeholder's element, and the whole answer is saved.  In [_messages],
though, the assistant's turn keeps the empty content of the placeholder:
the answer itself is never put there. *)
Theorem exchange_keeps_empty_answer c (userMessage : string) chunks :
  userMessage ≠ EmptyString →
  _isStreaming c = false →
  ∃ c',
    run c (exchange (length (tasks c)) userMessage chunks)
    = Some (c',
            [saveMessage (_currentUrl c) "user" userMessage;
             promptStreaming userMessage
               (_messages c ++ [user_turn userMessage]) (prompt_context c);
             next]
            ++ replicate (length chunks) next
            ++ [saveMessage (_currentUrl c) "assistant" (joined chunks);
                getUsageInfo]) ∧
    _messages c'
    = _messages c ++ [user_turn userMessage; assistant_turn EmptyString] ∧
    elements c'
    = elements c ++ [element_of (user_turn userMessage);
                     element_of (assistant_turn (joined chunks))] ∧
    container c'
    = container c ++ [length (elements c); S (length (elements c))] ∧
    _isStreaming c' = false ∧
    _streamingMessageElement c' = None ∧
    tasks c' = tasks c ++ [Finished; UpdateTokenCounter_getUsageInfo].
Proof.
  intros Htext Hs.
  destruct c as [url ctx msgs streaming el app els cont w tc sb ts].
  cbn in Hs. subst streaming.
  cbn [_currentUrl _messages elements container _isStreaming
       _streamingMessageElement tasks].
  eexists. split.
  - unfold exchange. eapply run_calls.
    eapply run_step; [by apply step_send|].
    eapply run_step;
      [by apply (step_saveMessage _ _ _ _ _ _ _ _ _ _ _ _ _ userMessage),
         list_lookup_middle|].
    eapply run_step;
      [apply step_promptStreaming; rewrite insert_snoc;
       by apply list_lookup_middle|].
    eapply run_run;
      [apply (chunks_arrive _ _ _ _ _ _ _ _ _ _ "assistant" chunks _ _
                EmptyString);
       [rewrite !insert_snoc|]; by apply list_lookup_middle|].
    eapply run_step;
      [apply (step_done _ _ _ _ _ _ _ _ _ _ _ _ _ (joined chunks));
       rewrite !insert_snoc; by apply list_lookup_middle|].
    eapply run_step;
      [apply step_saveResponse; rewrite !insert_snoc;
       by apply list_lookup_middle|].
    reflexivity. done.
  - cbn. rewrite !insert_snoc, <- !app_assoc. cbn.
    rewrite (insert_app_r_alt ts _ (length ts)) by lia.
    rewrite Nat.sub_diag, length_app, Nat.add_1_r. cbn.
    by repeat split.
Qed.

Lemma exchange_keeps_empty_answer_witness :
  ∃ c',
    run (idle "https://example.org/" [])
        (exchange 0 "Hi" ["Hel"; "lo"])
    = Some (c',
            [saveMessage (Some "https://example.org/") "user" "Hi";
             promptStreaming "Hi" [user_turn "Hi"]
               (prompt_context (idle "https://example.org/" []));
             next; next; next;
             saveMessage (Some "https://example.org/") "assistant" "Hello";
             getUsageInfo]) ∧
    _messages c' = [user_turn "Hi"; assistant_turn EmptyString] ∧
    elements c' = [element_of (user_turn "Hi");
                   element_of (assistant_turn "Hello")] ∧
    container c' = [0; 1] ∧
    _isStreaming c' = false ∧
    _streamingMessageElement c' = None ∧
    tasks c' = [Finished; UpdateTokenCounter_getUsageInfo].
Proof.
  apply (exchange_keeps_empty_answer (idle "https://example.org/" []) "Hi"
           ["Hel"; "lo"]); done.
Defined.

(** ** What reaches the model *)

Lemma map_turn_eta (l : list Protocol.turn) :
  map (fun msg => {| Protocol.role := Protocol.role msg;
                     Protocol.content := Protocol.content msg |}) l = l.
Proof. induction l as [|[] l IH]; [done|]. cbn. by rewrite IH. Qed.

Lemma formatPrompt_prompt_context with_control (userMessage : string) c :
  _formatPrompt with_control userMessage (Some (prompt_context c))
  = if control_selected c then with_control userMessage (prompt_context c)
    else userMessage.
Proof.
  unfold _formatPrompt, control_selected, prompt_context. cbn.
  destruct (truthy (_currentContext c)); [|done]. cbn.
  by destruct (truthy (get (_currentContext c) "control")).
Qed.

(** X27: the user's message reaches the model twice.  The history that
[_handleSendMessage] hands to [promptStreaming] ends with the message just
added, and [_buildMessagesArray] puts the formatted message after the
history: the request that the manager posts holds the system prompt, what
[_messages] held, the user's message, and the user's message once more,
word for word when no control is selected. *)
Theorem prompt_repeats_the_user_message
    (sys : option value → string) (with_control : string → value → string)
    c m (port : nat) (userMessage : string) :
  userMessage ≠ EmptyString →
  _isStreaming c = false →
  AISessionManager._isConnected m = true →
  AISessionManager._port m = Some port →
  AISessionManager._hasActiveSession m = true →
  ∃ c' m1,
    run c [Send userMessage true; Settle (length (tasks c)) (Fulfilled FVoid)]
    = Some (c', [saveMessage (_currentUrl c) "user" userMessage;
                 promptStreaming userMessage
                   (_messages c ++ [user_turn userMessage])
                   (prompt_context c)]) ∧
    AISessionManager.step value value context_appInfo sys
      (_formatPrompt with_control) m
      (AISessionManager.PromptStreaming userMessage
         (Some (_messages c ++ [user_turn userMessage]))
         (Some (prompt_context c)))
    = Some m1 ∧
    last (AISessionManager.posted m1)
    = Some (port,
            {| Protocol.type := "prompt-streaming";
               Protocol.messages :=
                 system_turn (sys (Some (get (prompt_context c) "appInfo")))
                 :: _messages c
                 ++ [user_turn userMessage;
                     user_turn
                       (if control_selected c
                        then with_control userMessage (prompt_context c)
                        else userMessage)] |}).
Proof.
  intros Htext Hs Hc Hport Hsession.
  destruct (ChannelRunsFacts.promptStreaming_starts value value context_appInfo
              sys (_formatPrompt with_control) userMessage
              (Some (_messages c ++ [user_turn userMessage]))
              (Some (prompt_context c)) m port Hc Hport Hsession)
    as (m1 & _ & Hstep & Hlast & _).
  assert (Hrun : ∃ c',
    run c [Send userMessage true; Settle (length (tasks c)) (Fulfilled FVoid)]
    = Some (c', [saveMessage (_currentUrl c) "user" userMessage;
                 promptStreaming userMessage
                   (_messages c ++ [user_turn userMessage])
                   (prompt_context c)])).
  { destruct c as [url ctx msgs streaming el app els cont w tc sb ts].
    cbn in Hs. subst streaming. cbn [_currentUrl _messages tasks].
    eexists. eapply run_calls.
    eapply run_step; [by apply step_send|].
    eapply run_step;
      [by apply (step_saveMessage _ _ _ _ _ _ _ _ _ _ _ _ _ userMessage),
         list_lookup_middle|].
    reflexivity. done. }
  destruct Hrun as [c' Hrun]. exists c', m1.
  split; [done|]. split; [done|].
  rewrite Hlast. unfold AISessionManager._buildMessagesArray.
  rewrite map_turn_eta, formatPrompt_prompt_context.
  cbn [app]. by rewrite <- app_assoc.
Qed.

Lemma prompt_repeats_the_user_message_witness :
  ∃ c' m1,
    run (idle "https://example.org/" [user_turn "Hello"; assistant_turn EmptyString])
        [Send "Hi" true; Settle 0 (Fulfilled FVoid)]
    = Some (c', [saveMessage (Some "https://example.org/") "user" "Hi";
                 promptStreaming "Hi"
                   [user_turn "Hello"; assistant_turn EmptyString; user_turn "Hi"]
                   (VObject [("control", VNull); ("appInfo", VNull)])]) ∧
    AISessionManager.step value value context_appInfo
      (fun _ => "You are an AI assistant") (fun prompt _ => prompt)
      ChannelRuns.with_session
      (AISessionManager.PromptStreaming "Hi"
         (Some [user_turn "Hello"; assistant_turn EmptyString; user_turn "Hi"])
         (Some (VObject [("control", VNull); ("appInfo", VNull)])))
    = Some m1 ∧
    last (AISessionManager.posted m1)
    = Some (0,
            {| Protocol.type := "prompt-streaming";
               Protocol.messages :=
                 [system_turn "You are an AI assistant";
                  user_turn "Hello"; assistant_turn EmptyString;
                  user_turn "Hi"; user_turn "Hi"] |}).
Proof.
  apply (prompt_repeats_the_user_message
           (fun _ => "You are an AI assistant") (fun prompt _ => prompt)
           (idle "https://example.org/"
              [user_turn "Hello"; assistant_turn EmptyString])
           ChannelRuns.with_session 0 "Hi"); done.
Defined.

(** ** The history of a page *)

(** The loop of lines 487-489. *)
Lemma addMessage_each url ctx s el app tc sb ts (messages : list Protocol.turn) :
  ∀ msgs els cont w,
    foldl (fun c (msg : Protocol.turn) =>
             (_addMessage (Protocol.role msg) (Protocol.content msg) c).1)
          (Build_chat url ctx msgs s el app els cont w tc sb ts) messages
    = Build_chat url ctx (msgs ++ messages) s el app
        (els ++ map element_of messages)
        (cont ++ seq (length els) (length messages))
        (match messages with [] => w | _ => false end) tc sb ts.
Proof.
  induction messages as [|[role content] messages IH]; intros msgs els cont w.
  - cbn. by rewrite !app_nil_r.
  - cbn [foldl]. settled. rewrite IH.
    rewrite <- !app_assoc, length_app, Nat.add_1_r. cbn.
    by destruct messages.
Qed.

Lemma step_onTabActivated url ctx msgs s el app els cont w tc sb ts a u :
  url = Some (String a u) →
  step (Build_chat url ctx msgs s el app els cont w tc sb ts) TabActivated
  = Some (Build_chat url ctx msgs s el app els cont w tc sb
            (ts ++ [LoadHistory_loadHistory]), [loadHistory url]).
Proof. by intros ->. Qed.

Lemma step_loadHistory url ctx msgs s el app els cont w tc sb ts (i : nat)
    (messages : list Protocol.turn) :
  ts !! i = Some LoadHistory_loadHistory →
  messages ≠ [] →
  step (Build_chat url ctx msgs s el app els cont w tc sb ts)
       (Settle i (Fulfilled (FHistory messages)))
  = Some (Build_chat url ctx (msgs ++ messages) s el app
            (els ++ map element_of messages)
            (seq (length els) (length messages)) false tc sb
            (<[i := Finished]> ts), []).
Proof.
  intros Hi Hne. cbn [step].
  rewrite (resume_parked _ _ _ LoadHistory_loadHistory) by done.
  unfold _loadHistory_settled.
  destruct messages as [|msg messages]; [done|].
  cbn [length Nat.ltb Nat.leb].
  unfold set_container. cbn [_currentUrl _currentContext _messages _isStreaming
    _streamingMessageElement _getAppInfo elements token_counter status_banner
    tasks].
  by rewrite addMessage_each.
Qed.

Lemma activations_run url ctx s el app tc sb a u (messages : list Protocol.turn)
    (n : nat) :
  url = Some (String a u) →
  messages ≠ [] →
  ∀ msgs els cont w ts,
    run (Build_chat url ctx msgs s el app els cont w tc sb ts)
        (activations (length ts) n messages)
    = Some (Build_chat url ctx (msgs ++ mjoin (replicate n messages)) s el app
              (els ++ mjoin (replicate n (map element_of messages)))
              (match n with
               | 0 => cont
               | S n => seq (length els + n * length messages) (length messages)
               end)
              (match n with 0 => w | S _ => false end) tc sb
              (ts ++ replicate n Finished),
            replicate n (loadHistory url)).
Proof.
  intros Hurl Hne. induction n as [|n IH]; intros msgs els cont w ts.
  - cbn. by rewrite !app_nil_r.
  - cbn [activations].
    eapply run_eq.
    + eapply run_step; [by eapply step_onTabActivated|].
      eapply run_step;
        [apply step_loadHistory; [by apply list_lookup_middle|done]|].
      rewrite insert_snoc.
      replace (S (length ts)) with (length (ts ++ [Finished]))
        by (rewrite length_app; cbn; lia).
      apply IH.
    + cbn. rewrite <- !app_assoc.
      destruct n as [|n]; cbn; [by rewrite Nat.add_0_r|].
      by rewrite length_app, length_map, <- Nat.add_assoc.
    + done.
Qed.

Lemma shown_last (els new : list element) c :
  elements c = els ++ new →
  container c = seq (length els) (length new) →
  shown c = new.
Proof.
  unfold shown. intros -> ->. clear c.
  revert els. induction new as [|x new IH]; intros els; [done|].
  cbn. rewrite list_lookup_middle by done. cbn. f_equal.
  specialize (IH (els ++ [x])).
  rewrite length_app, Nat.add_1_r, <- app_assoc in IH. done.
Qed.

(** X28: every activation of the tab adds the stored history to
[_messages] once more.  [_loadHistory] empties the container before it
shows the stored messages, but not [_messages], to which [_addMessage]
appends: after [n + 1] activations the page shows the history once, and
[_messages] holds it [n + 1] more times. *)
Theorem activation_appends_history c (n : nat) (messages : list Protocol.turn)
    (url : string) :
  _currentUrl c = Some url →
  url ≠ EmptyString →
  messages ≠ [] →
  ∃ c',
    run c (activations (length (tasks c)) (S n) messages)
    = Some (c', replicate (S n) (loadHistory (_currentUrl c))) ∧
    _messages c' = _messages c ++ mjoin (replicate (S n) messages) ∧
    shown c' = map element_of messages.
Proof.
  intros Hurl Hu Hne. destruct url as [|a u]; [done|]. clear Hu.
  destruct c as [url ctx msgs s el app els cont w tc sb ts].
  cbn in Hurl. cbn [_currentUrl _messages tasks].
  rewrite (activations_run url ctx s el app tc sb a u messages (S n) Hurl Hne).
  eexists. split; [done|]. split; [done|].
  apply (shown_last (els ++ mjoin (replicate n (map element_of messages)))).
  - cbn [elements]. rewrite replicate_S_end, join_app. cbn.
    by rewrite app_nil_r, app_assoc.
  - cbn [container]. f_equal; [|by rewrite length_map].
    rewrite length_app, length_join, fmap_replicate, sum_list_replicate,
      length_map. lia.
Qed.

Lemma activation_appends_history_witness :
  ∃ c',
    run (idle "https://example.org/" [])
        (activations 0 2 [user_turn "Hi"; assistant_turn "Hello"])
    = Some (c', [loadHistory (Some "https://example.org/");
                 loadHistory (Some "https://example.org/")]) ∧
    _messages c'
    = [user_turn "Hi"; assistant_turn "Hello";
       user_turn "Hi"; assistant_turn "Hello"] ∧
    shown c' = [element_of (user_turn "Hi");
                element_of (assistant_turn "Hello")].
Proof.
  apply (activation_appends_history (idle "https://example.org/" []) 1
           [user_turn "Hi"; assistant_turn "Hello"] "https://example.org/");
    done.
Defined.

(** ** Clearing the history *)

Lemma step_ClearClicked url ctx msgs s el app els cont w tc sb ts :
  step (Build_chat url ctx msgs s el app els cont w tc sb ts)
       (ClearClicked true)
  = Some (Build_chat url ctx msgs s el app els cont w tc sb
            (ts ++ [ClearHistory_clearHistory]), [clearHistory url]).
Proof. done. Qed.

Lemma step_clearHistory url ctx msgs s el app els cont w tc sb ts (i : nat) :
  ts !! i = Some ClearHistory_clearHistory →
  step (Build_chat url ctx msgs s el app els cont w tc sb ts)
       (Settle i (Fulfilled FVoid))
  = Some (Build_chat url ctx [] s el app els [] true tc sb
            (<[i := ClearHistory_initializeSession]> ts),
          [destroy; createSession]).
Proof.
  intros Hi. cbn [step].
  by rewrite (resume_parked _ _ _ ClearHistory_clearHistory).
Qed.

Lemma step_clear_initializeSession url ctx msgs s el app els cont w tc sb ts
    (i : nat) (r : result) :
  ts !! i = Some ClearHistory_initializeSession →
  let new := initializeSession_turns r ++ [system_turn "Chat history cleared"] in
  step (Build_chat url ctx msgs s el app els cont w tc sb ts) (Settle i r)
  = Some (Build_chat url ctx (msgs ++ new) s el app
            (els ++ map element_of new)
            (cont ++ seq (length els) (length new)) false tc sb
            (<[i := Finished]>
               (ts ++ match r with
                      | Fulfilled _ => [UpdateTokenCounter_getUsageInfo]
                      | Rejected _ => []
                      end)),
          match r with Fulfilled _ => [getUsageInfo] | Rejected _ => [] end).
Proof.
  intros Hi. cbn [step].
  rewrite (resume_parked _ _ _ ClearHistory_initializeSession) by done.
  destruct r as [v|msg]; settled.
  - done.
  - by rewrite app_nil_r, <- !app_assoc, length_app, Nat.add_1_r.
Qed.

(** X29: what clearing the history leaves behind.  The stored history is
removed, the session destroyed and a new one asked for.  Afterwards
[_messages] is not empty: it holds the notice 'Chat history cleared',
after the error notice when the new session could not be made, and the
page shows these turns.  An answer that was being streamed is not ended:
[_isStreaming] and the element it writes to stay as they were, and while
[_isStreaming] is set every send is dropped. *)
Theorem clear_history_leaves_notice c (r : result) :
  ∃ c',
    run c [ClearClicked true;
           Settle (length (tasks c)) (Fulfilled FVoid);
           Settle (length (tasks c)) r]
    = Some (c', [clearHistory (_currentUrl c); destroy; createSession]
                ++ match r with
                   | Fulfilled _ => [getUsageInfo]
                   | Rejected _ => []
                   end) ∧
    _messages c'
    = match r with
      | Fulfilled _ => []
      | Rejected msg => [system_turn ("Error initializing session: " +:+ msg)]
      end ++ [system_turn "Chat history cleared"] ∧
    shown c' = map element_of (_messages c') ∧
    _isStreaming c' = _isStreaming c ∧
    _streamingMessageElement c' = _streamingMessageElement c ∧
    (_isStreaming c = true →
     ∀ userMessage hasActiveSession,
       step c' (Send userMessage hasActiveSession) = Some (c', [])).
Proof.
  destruct c as [url ctx msgs s el app els cont w tc sb ts].
  cbn [_currentUrl _isStreaming _streamingMessageElement tasks].
  eexists. split.
  { eapply run_calls.
    eapply run_step; [apply step_ClearClicked|].
    eapply run_step; [by apply step_clearHistory, list_lookup_middle|].
    eapply run_step;
      [apply (step_clear_initializeSession _ _ _ _ _ _ _ _ _ _ _ _ _ r);
       rewrite insert_snoc; by apply list_lookup_middle|].
    reflexivity. by rewrite app_nil_r. }
  split; [done|].
  split; [apply (shown_last els); cbn; [done|by rewrite length_map]|].
  split; [done|]. split; [done|].
  intros Hs userMessage hasActiveSession. cbn in Hs. subst s.
  cbn [step]. unfold _handleSendMessage. cbn [_isStreaming].
  by rewrite orb_true_r.
Qed.

Lemma clear_history_leaves_notice_witness :
  ∃ c',
    run (set_streaming true (Some 1)
           (idle "https://example.org/"
              [user_turn "Hi"; assistant_turn EmptyString]))
        [ClearClicked true; Settle 0 (Fulfilled FVoid);
         Settle 0 (Rejected "The device is not eligible.")]
    = Some (c', [clearHistory (Some "https://example.org/"); destroy;
                 createSession]) ∧
    _messages c'
    = [system_turn "Error initializing session: The device is not eligible.";
       system_turn "Chat history cleared"] ∧
    _isStreaming c' = true ∧
    step c' (Send "Hi" true) = Some (c', []).
Proof.
  destruct (clear_history_leaves_notice
              (set_streaming true (Some 1)
                 (idle "https://example.org/"
                    [user_turn "Hi"; assistant_turn EmptyString]))
              (Rejected "The device is not eligible."))
    as (c' & Hrun & Hmessages & _ & Hs & _ & Hsend).
  exists c'. split; [exact Hrun|]. split; [exact Hmessages|].
  split; [exact Hs|]. exact (Hsend eq_refl "Hi" true).
Defined.

(** ** The download *)

Lemma step_DownloadClicked url ctx msgs s el app els cont w tc sb ts :
  step (Build_chat url ctx msgs s el app els cont w tc sb ts) DownloadClicked
  = Some (Build_chat url ctx msgs s el app els cont w tc
            {| status := "downloading";
               status_text := Text "Starting download...";
               download_shown := true; download_disabled := true |}
            (ts ++ [DownloadModel_downloadModel]), [downloadModel]).
Proof. done. Qed.

Lemma step_Progress url ctx msgs s el app els cont w tc sb ts (i : nat)
    (progress : float) :
  ts !! i = Some DownloadModel_downloadModel →
  step (Build_chat url ctx msgs s el app els cont w tc sb ts)
       (Progress i progress)
  = Some (Build_chat url ctx msgs s el app els cont w tc
            {| status := "downloading";
               status_text := Downloading (Math_round (progress * 100)%float);
               download_shown := true; download_disabled := true |}
            ts, []).
Proof. intros Hi. cbn [step tasks]. by rewrite Hi. Qed.

Lemma progress_run url ctx msgs s el app els cont w tc ts (i : nat)
    (progress : list float) :
  ts !! i = Some DownloadModel_downloadModel →
  ∀ sb,
    run (Build_chat url ctx msgs s el app els cont w tc sb ts)
        (map (Progress i) progress)
    = Some (Build_chat url ctx msgs s el app els cont w tc
              (match last progress with
               | Some p =>
                   {| status := "downloading";
                      status_text := Downloading (Math_round (p * 100)%float);
                      download_shown := true; download_disabled := true |}
               | None => sb
               end) ts, []).
Proof.
  intros Hi. induction progress as [|p progress IH]; intros sb; [done|].
  cbn [map]. eapply run_eq.
  - eapply run_step; [by apply step_Progress|]. apply IH.
  - rewrite last_cons. by destruct (last progress).
  - done.
Qed.

Lemma step_downloadModel url ctx msgs s el app els cont w tc sb ts (i : nat)
    v :
  ts !! i = Some DownloadModel_downloadModel →
  step (Build_chat url ctx msgs s el app els cont w tc sb ts)
       (Settle i (Fulfilled v))
  = Some (Build_chat url ctx msgs s el app els cont w tc
            {| status := "ready"; status_text := Text "Model ready!";
               download_shown := false;
               download_disabled := download_disabled sb |}
            (<[i := DownloadModel_initializeSession]> ts), [createSession]).
Proof.
  intros Hi. cbn [step].
  by rewrite (resume_parked _ _ _ DownloadModel_downloadModel).
Qed.

Lemma step_download_initializeSession url ctx msgs s el app els cont w tc sb ts
    (i : nat) (r : result) :
  ts !! i = Some DownloadModel_initializeSession →
  ∃ els' cont' w',
    step (Build_chat url ctx msgs s el app els cont w tc sb ts) (Settle i r)
    = Some (Build_chat url ctx (msgs ++ initializeSession_turns r) s el app
              els' cont' w' tc sb
              (<[i := Finished]>
                 (ts ++ match r with
                        | Fulfilled _ => [UpdateTokenCounter_getUsageInfo]
                        | Rejected _ => []
                        end)),
            match r with Fulfilled _ => [getUsageInfo] | Rejected _ => [] end).
Proof.
  intros Hi. cbn [step].
  rewrite (resume_parked _ _ _ DownloadModel_initializeSession) by done.
  destruct r as [v|msg]; settled; eexists _, _, _.
  - by rewrite app_nil_r.
  - by rewrite app_nil_r.
Qed.

(** X30: the download, as the banner shows it.  From the click on, the
banner is 'downloading' with the button shown and disabled, and after
the progress reports its text is the percentage,
[Math.round(progress * 100)], of the last one.  When the download ends the banner becomes 'ready'
with the text 'Model ready!' and the button hidden, and [createSession]
is called; the banner stays so whether that session is made or not: a
failure only adds the system turn of [_initializeSession]. *)
Theorem download_ends_ready c (progress : list float) (r : result) :
  let i := length (tasks c) in
  (∀ p,
     ∃ c1,
       run c ([DownloadClicked] ++ map (Progress i) (progress ++ [p]))
       = Some (c1, [downloadModel]) ∧
       status_banner c1
       = {| status := "downloading";
            status_text := Downloading (Math_round (p * 100)%float);
            download_shown := true; download_disabled := true |}) ∧
  ∃ c',
    run c (download i progress r)
    = Some (c', [downloadModel; createSession]
                ++ match r with
                   | Fulfilled _ => [getUsageInfo]
                   | Rejected _ => []
                   end) ∧
    status_banner c'
    = {| status := "ready"; status_text := Text "Model ready!";
         download_shown := false; download_disabled := true |} ∧
    _messages c' = _messages c ++ initializeSession_turns r.
Proof.
  destruct c as [url ctx msgs s el app els cont w tc sb ts].
  cbn [tasks _messages]. cbn zeta.
  assert (Hi : (ts ++ [DownloadModel_downloadModel]) !! length ts
               = Some DownloadModel_downloadModel)
    by (by apply list_lookup_middle).
  split.
  - intros p. eexists. split.
    + eapply run_calls.
      eapply run_step; [apply step_DownloadClicked|].
      by apply progress_run. done.
    + cbn. by rewrite last_snoc.
  - destruct (step_download_initializeSession url ctx msgs s el app els cont w
                tc
                {| status := "ready"; status_text := Text "Model ready!";
                   download_shown := false; download_disabled := true |}
                (ts ++ [DownloadModel_initializeSession]) (length ts) r)
      as (els' & cont' & w' & Hstep); [by apply list_lookup_middle|].
    eexists. split.
    { unfold download. eapply run_calls.
      { eapply run_step; [apply step_DownloadClicked|].
        eapply run_run; [by apply progress_run|].
        eapply run_step.
        { apply (step_downloadModel _ _ _ _ _ _ _ _ _ _ _ _ _ FVoid), Hi. }
        eapply run_step; [|reflexivity].
        rewrite insert_snoc.
        replace (download_disabled _) with true
          by (by destruct (last progress)).
        exact Hstep. }
      by rewrite app_nil_r. }
    split; reflexivity.
Qed.

End AIChatFacts.
